(** * tracking-updater: a shallow embedding of the ingestion pipeline

    The Go packages [model], [api], [processor] and [file] are embedded as
    Rocq modules of the same names.  Go strings are byte strings ([string]),
    Go [int] and [time.Duration] are 64-bit integers carried by [Z], maps
    are [gmap]s, and every effect of the program (HTTP round trips, sleeps,
    reads of the CSV reader, [os.Stat], submissions to the processor) is an
    event appended to the trace of the program state.  Logging is not
    modelled: it has no influence on control flow. *)

From Stdlib Require Import ZArith Bool Ascii String List Lia.
From Stdlib Require Import Floats.SpecFloat.
From stdpp Require Import base tactics option list gmap strings pretty.

Open Scope string_scope.
Open Scope Z_scope.

(** ** Go built-in types and standard library functions used by the code *)

Module Go.

(** [int] and [time.Duration] (an [int64]): two's complement on 64 bits. *)
Definition wrap64 (z : Z) : Z := (z + 2 ^ 63) mod 2 ^ 64 - 2 ^ 63.

Definition int_add (a b : Z) : Z := wrap64 (a + b).
Definition int_mul (a b : Z) : Z := wrap64 (a * b).

(** [len(s)] of a slice, as an [int]. *)
Definition len {A} (l : list A) : Z := Z.of_nat (length l).

(** [s[i]] on a slice: [None] stands for the run-time panic
    "index out of range". *)
Definition index {A} (l : list A) (i : Z) : option A :=
  if (i <? 0) then None else l !! Z.to_nat i.

(** [float64]: IEEE 754 binary64, round to nearest even. *)
Definition float64 : Type := spec_float.
Definition float64_of_int (z : Z) : float64 := binary_normalize 53 1024 z 0 false.
Definition float64_div (x y : float64) : float64 := SFdiv 53 1024 x y.
Definition float64_lt (x y : float64) : bool := SFltb x y.

(** The constant [0.05] as a [float64]: 0x3FA999999999999A. *)
Definition float64_0_05 : float64 := S754_finite false 7205759403792794 (-57).

(** [time.Millisecond] and [time.Second], in nanoseconds. *)
Definition Millisecond : Z := 1000000.
Definition Second : Z := 1000000000.

(** [error]: the values built by [fmt.Errorf] in this program.  The
    constructors keep the arguments of the format; [Error] renders the
    message ([doRequest] passes the message of an [apiError] to [fmt.Errorf]
    as the format itself, so the rendering is that of a body without
    formatting verbs). *)
Inductive error : Type :=
| errorString (msg : string)
| wrapError (msg : string) (cause : error)
| requestFailedError (attempts : Z) (cause : error)
| apiError (status : Z) (body : string)
| orderNotFoundError (incrementID : string).

Fixpoint Error (e : error) : string :=
  match e with
  | errorString msg => msg
  | wrapError msg cause => msg +:+ ": " +:+ Error cause
  | requestFailedError attempts cause =>
      "request failed after " +:+ pretty attempts +:+ " attempts: " +:+ Error cause
  | apiError status body =>
      "api error (status: " +:+ pretty status +:+ "): " +:+ body
  | orderNotFoundError incrementID =>
      "order with increment_id " +:+ incrementID +:+ " not found"
  end.

(** *** [strings.TrimSpace]

    Removes leading and trailing white space as defined by Unicode
    ([unicode.IsSpace]), on the UTF-8 encoding of the string: the six ASCII
    space characters, U+0085, U+00A0, U+1680, U+2000..U+200A, U+2028,
    U+2029, U+202F, U+205F and U+3000. *)
Definition byte (c : ascii) : N := N_of_ascii c.

Definition asciiSpace (c : ascii) : bool :=
  let n := byte c in
  ((9 <=? n) && (n <=? 13) || (n =? 32))%N.

(** U+0085 is C2 85 and U+00A0 is C2 A0. *)
Definition space2 (c1 c2 : ascii) : bool :=
  ((byte c1 =? 194) && ((byte c2 =? 133) || (byte c2 =? 160)))%N.

(** The three-byte encodings: E1 9A 80; E2 80 80..8A, A8, A9, AF;
    E2 81 9F; E3 80 80. *)
Definition space3 (c1 c2 c3 : ascii) : bool :=
  let '(a, b, c) := (byte c1, byte c2, byte c3) in
  ((a =? 225) && (b =? 154) && (c =? 128)
   || (a =? 226) && (b =? 128)
      && ((128 <=? c) && (c <=? 138) || (c =? 168) || (c =? 169) || (c =? 175))
   || (a =? 226) && (b =? 129) && (c =? 159)
   || (a =? 227) && (b =? 128) && (c =? 128))%N.

Fixpoint trimLeft (s : string) : string :=
  match s with
  | String c1 s1 =>
      if asciiSpace c1 then trimLeft s1 else
      match s1 with
      | String c2 s2 =>
          if space2 c1 c2 then trimLeft s2 else
          match s2 with
          | String c3 s3 => if space3 c1 c2 c3 then trimLeft s3 else s
          | EmptyString => s
          end
      | EmptyString => s
      end
  | EmptyString => s
  end.

(** The same scan from the end, on the reversed string (so the bytes of an
    encoding are met last byte first). *)
Fixpoint trimLeftRev (s : string) : string :=
  match s with
  | String c1 s1 =>
      if asciiSpace c1 then trimLeftRev s1 else
      match s1 with
      | String c2 s2 =>
          if space2 c2 c1 then trimLeftRev s2 else
          match s2 with
          | String c3 s3 => if space3 c3 c2 c1 then trimLeftRev s3 else s
          | EmptyString => s
          end
      | EmptyString => s
      end
  | EmptyString => s
  end.

Definition TrimSpace (s : string) : string :=
  String.rev (trimLeftRev (String.rev (trimLeft s))).

(** [strings.HasSuffix]: [s] ends with [suffix], that is, [s] is [suffix]
    or what follows its first byte ends with [suffix]. *)
Fixpoint HasSuffix (s suffix : string) : bool :=
  String.eqb s suffix ||
  match s with
  | String _ s' => HasSuffix s' suffix
  | EmptyString => false
  end.

(** *** [path/filepath] on slash-separated paths *)

(** [strings.Split(path, "/")]: the elements of a path, empty ones
    included. *)
Fixpoint elements (path : string) : list string :=
  match path with
  | EmptyString => [EmptyString]
  | String c path' =>
      if Ascii.eqb c "/" then EmptyString :: elements path'
      else match elements path' with
           | e :: es => String c e :: es
           | [] => [String c EmptyString]
           end
  end.

(** One element of the path in the loop of [filepath.Clean].  [out] holds
    the elements written so far, last one first.  An empty element and [.]
    are skipped; [..] removes the element before it, if there is one that
    is not [..] itself, is dropped at the root, and is kept otherwise. *)
Definition cleanStep (rooted : bool) (out : list string) (e : string) : list string :=
  if String.eqb e "" || String.eqb e "." then out
  else if String.eqb e ".." then
    match out with
    | top :: out' => if String.eqb top ".." then e :: out else out'
    | [] => if rooted then [] else [e]
    end
  else e :: out.

(** [strings.Join(es, "/")] *)
Fixpoint joinElements (es : list string) : string :=
  match es with
  | [] => EmptyString
  | [e] => e
  | e :: es' => e +:+ "/" +:+ joinElements es'
  end.

(** [filepath.Clean]: the shortest equivalent path; "." for the empty
    path. *)
Definition Clean (path : string) : string :=
  let rooted := match path with
                | String c _ => Ascii.eqb c "/"
                | EmptyString => false
                end in
  let out := List.rev (fold_left (cleanStep rooted) (elements path) []) in
  if rooted then "/" +:+ joinElements out
  else match out with
       | [] => "."
       | _ => joinElements out
       end.

(** [filepath.Join] of two elements: empty elements are ignored and the
    result is cleaned; it is empty when both elements are. *)
Definition Join (dir name : string) : string :=
  if negb (String.eqb dir "") then Clean (dir +:+ "/" +:+ name)
  else if negb (String.eqb name "") then Clean name
  else "".

(** [strings.ContainsAny] *)
Fixpoint ContainsAny (s chars : string) : bool :=
  match s with
  | String c s' =>
      (fix mem (cs : string) : bool :=
         match cs with
         | String c' cs' => Ascii.eqb c c' || mem cs'
         | EmptyString => false
         end) chars
      || ContainsAny s' chars
  | EmptyString => false
  end.

(** [hasMeta]: the path contains one of the characters that [Match]
    reads as an operator. *)
Definition hasMeta (path : string) : bool := ContainsAny path "\*?[".

Fixpoint dropSlashes (s : string) : string :=
  match s with
  | String c s' => if Ascii.eqb c "/" then dropSlashes s' else s
  | EmptyString => s
  end.

Fixpoint untilSlash (s : string) : string :=
  match s with
  | String c s' => if Ascii.eqb c "/" then EmptyString else String c (untilSlash s')
  | EmptyString => s
  end.

Fixpoint fromSlash (s : string) : string :=
  match s with
  | String c s' => if Ascii.eqb c "/" then s else fromSlash s'
  | EmptyString => s
  end.

(** [filepath.Base]: the last element of the path, trailing separators
    removed; "." for the empty path and "/" for a path of separators. *)
Definition Base (path : string) : string :=
  if String.eqb path "" then "." else
  let b := String.rev (untilSlash (dropSlashes (String.rev path))) in
  if String.eqb b "" then "/" else b.

(** [filepath.Split]: the directory up to and including the final
    separator, and the file name after it. *)
Definition Split (path : string) : string * string :=
  (String.rev (fromSlash (String.rev path)), String.rev (untilSlash (String.rev path))).

(** [cleanGlobPath]: the directory of a pattern as [Glob] reads it, its
    trailing separator chopped off. *)
Definition cleanGlobPath (dir : string) : string :=
  if String.eqb dir "" then "."
  else if String.eqb dir "/" then dir
  else String.rev (match String.rev dir with
                   | String _ s => s
                   | EmptyString => EmptyString
                   end).

(** [filepath.Match] for patterns made of literal characters and [*]
    (any sequence of non-separator characters), the only kind that
    [file.Glob] passes to it; such a pattern is never malformed. *)
Fixpoint Match (pattern name : string) : bool :=
  match pattern with
  | EmptyString => String.eqb name ""
  | String p pattern' =>
      if Ascii.eqb p "*" then
        (fix star (n : string) : bool :=
           Match pattern' n ||
           match n with
           | String c n' => if Ascii.eqb c "/" then false else star n'
           | EmptyString => false
           end) name
      else
        match name with
        | String c name' => Ascii.eqb p c && Match pattern' name'
        | EmptyString => false
        end
  end.

End Go.

(** ** Package [model] *)

Module model.
Import Go.

(** TrackingInfo represents tracking information from a CSV file. *)
Record TrackingInfo := {
  OrderNumber : string;
  TrackingNumber : string;
  CarrierCode : string;
  Title : string
}.

(** Validate checks if all required fields are present. *)
Definition Validate (t : TrackingInfo) : option error :=
  if String.eqb (TrimSpace (OrderNumber t)) "" then
    Some (errorString "order number is required")
  else if String.eqb (TrimSpace (TrackingNumber t)) "" then
    Some (errorString "tracking number is required")
  else if String.eqb (TrimSpace (CarrierCode t)) "" then
    Some (errorString "carrier code is required")
  else if String.eqb (TrimSpace (Title t)) "" then
    Some (errorString "title is required")
  else None.

Record Address := {
  FirstName : string;
  LastName : string;
  Street : list string;
  City : string;
  PostalCode : string;
  CountryID : string;
  Telephone : string
}.

Record Shipping := { Address_ : Address; Method_ : string }.

Record ShippingAssignment := { Shipping_ : Shipping }.

Record ExtAttributes := { ShippingAssignments : list ShippingAssignment }.

Record MagentoOrder := {
  Order_EntityID : Z;
  Order_IncrementID : string;
  Order_Status : string;
  Order_ExtensionAttributes : ExtAttributes
}.

Record MagentoShipment := {
  Shipment_EntityID : Z;
  Shipment_IncrementID : string;
  Shipment_OrderID : Z
}.

Record MagentoTrack := {
  Track_OrderID : Z;
  Track_ParentID : Z;
  Track_TrackNumber : string;
  Track_Title : string;
  Track_CarrierCode : string
}.

Record MagentoShipmentResponse := {
  Shipments_Items : list MagentoShipment;
  Shipments_Total : Z
}.

Record MagentoOrderResponse := {
  Orders_Items : list MagentoOrder;
  Orders_Total : Z
}.

End model.

(** ** The environment and the program state *)

(** [*http.Request], as far as the client builds it and hands it to
    [httpClient.Do].  [Body] is the content of the buffer that [req.Body]
    reads from ([None] for a nil body); [ContentLength] and [GetBody] are
    the length and the copy of the body that [http.NewRequest] records.
    What the transport makes of a request, and so what reaches the service,
    belongs to the world. *)
Record Request := {
  Method : string;
  URL : string;
  Header : gmap string string;
  Body : option string;
  ContentLength : Z;
  GetBody : option string
}.

(** What [httpClient.Do] returns: a transport error, or a response with its
    status code and body. *)
Inductive Outcome : Type :=
| DoError (err : Go.error)
| DoResponse (StatusCode : Z) (body : string).

(** [os.FileInfo]: the three fields the watcher reads. *)
Record FileInfo := { IsDir : bool; Size : Z; ModTime : Z }.

(** One line of a CSV file as [encoding/csv] parses it: the fields, and the
    parse error of the line if it is malformed. *)
Record RawRecord := { fields : list string; parseErr : option string }.

(** The world outside the program.  The n-th call of [httpClient.Do] and the
    n-th call of [os.Stat] (counted from 0 over the whole run) are answered
    by [http_Do n] and [os_Stat n], so that an answer may depend on the
    request, on the path and on everything that happened before.
    [os_ReadDir] lists the names of the entries of a directory, sorted, and
    is empty for what is not a directory that can be read; [filepath_Glob]
    answers [filepath.Glob] on the patterns that [file.Glob] does not
    interpret. *)
Record Env := {
  http_Do : nat → Request → Outcome;
  url_Parse_ok : string → bool;
  url_QueryEscape : string → string;
  json_Decode_orders : string → Go.error + model.MagentoOrderResponse;
  json_Decode_shipments : string → Go.error + model.MagentoShipmentResponse;
  json_Decode_any : string → Go.error + unit;
  json_Marshal_entity : model.MagentoTrack → Go.error + string;
  os_Stat : nat → string → option FileInfo;
  os_ReadDir : string → list string;
  os_Open : string → option (list RawRecord);
  filepath_Glob : string → Go.error + list string
}.

Inductive Event : Type :=
| EvDo (req : Request)
| EvSleep (d : Z)
| EvRead (path : string)
| EvStat (path : string)
| EvProcessFile (path : string).

(** A buffered channel of strings: everything sent so far, how many of
    these were received, and whether it was closed.  A send on a full
    channel waits for a receive and then completes; the model describes the
    completed send. *)
Record chan := { sent : list string; received : nat; closed : bool }.

Definition chan_buffer (c : chan) : list string := drop (received c) (sent c).

(** The mutable state of the process: the trace of effects, and the two
    mutable fields of the one [CSVProcessor] that [main] creates. *)
Record State := {
  trace : list Event;
  processedFiles : gmap string bool;
  workChan : chan
}.

(** The state after the effects [evs]. *)
Definition extend (s : State) (evs : list Event) : State :=
  {| trace := trace s ++ evs;
     processedFiles := processedFiles s;
     workChan := workChan s |}.

Definition emit (ev : Event) (s : State) : State := extend s [ev].

(** A computation returns a value and a new state, or panics. *)
Inductive Result (A : Type) : Type :=
| Ok (a : A) (s : State)
| Panic (s : State).
Arguments Ok {A} a s.
Arguments Panic {A} s.

(** The state a computation ends in. *)
Definition state_of {A} (r : Result A) : State :=
  match r with Ok _ s => s | Panic s => s end.

Definition M (A : Type) : Type := State → Result A.

Definition ret {A} (a : A) : M A := fun s => Ok a s.

Definition bind {A B} (m : M A) (k : A → M B) : M B :=
  fun s => match m s with
           | Ok a s' => k a s'
           | Panic s' => Panic s'
           end.

Definition panic {A} : M A := fun s => Panic s.

Definition tell (ev : Event) : M unit := fun s => Ok tt (emit ev s).

Notation "x <- m ;; k" := (bind m (fun x => k))
  (at level 100, m at next level, right associativity).
Notation "m ;;; k" := (bind m (fun _ => k))
  (at level 100, right associativity).

Definition isDo (ev : Event) : bool :=
  match ev with EvDo _ => true | _ => false end.

Definition isStat (ev : Event) : bool :=
  match ev with EvStat _ => true | _ => false end.

Definition count_Do (tr : list Event) : nat := length (List.filter isDo tr).

Definition count_Stat (tr : list Event) : nat := length (List.filter isStat tr).

Definition time_Sleep (d : Z) : M unit := tell (EvSleep d).

(** ** Package [api] *)

Module api.
Import Go model.

(** MagentoClient handles communication with the Magento 2 API.  The
    [httpClient] field is the environment's [http_Do]. *)
Record MagentoClient := {
  baseURL : string;
  token : string;
  maxRetries : Z;
  backoff : Z
}.

Section WithEnv.
Context (env : Env).

(** [c.httpClient.Do(req)] *)
Definition httpClient_Do (req : Request) : M Outcome :=
  fun s => Ok (http_Do env (count_Do (trace s)) req) (emit (EvDo req) s).

(** [http.NewRequest(method, url, body)], with [body] nil or a
    [*bytes.Buffer]: for a buffer the request records the length of its
    content as [ContentLength] and a copy of it as [GetBody]. *)
Definition http_NewRequest (method url : string) (body : option string)
  : error + Request :=
  if url_Parse_ok env url then
    inr {| Method := method; URL := url; Header := ∅; Body := body;
           ContentLength := match body with
                            | Some b => Z.of_nat (String.length b)
                            | None => 0
                            end;
           GetBody := body |}
  else inl (errorString "invalid URL").

(** [req.Header.Set(key, value)] *)
Definition Header_Set (key value : string) (req : Request) : Request :=
  {| Method := Method req; URL := URL req;
     Header := <[key := value]> (Header req); Body := Body req;
     ContentLength := ContentLength req; GetBody := GetBody req |}.

(** [url.Values.Encode] of the three search-criteria parameters, keys in
    sorted order. *)
Definition searchCriteria (field value : string) : string :=
  let filter := "searchCriteria[filter_groups][0][filters][0]" in
  let enc kv := url_QueryEscape env (fst kv) +:+ "=" +:+ url_QueryEscape env (snd kv) in
  enc (filter +:+ "[condition_type]", "eq") +:+ "&" +:+
  enc (filter +:+ "[field]", field) +:+ "&" +:+
  enc (filter +:+ "[value]", value).

(** The status test of [doRequest]: the response code is not successful. *)
Definition notSuccessful (status : Z) : bool :=
  (status <? 200) || (status >=? 300).

(** The body of the loop [for attempts < c.maxRetries] of [doRequest].
    The recursion is on [n], the number of iterations the loop condition
    still allows, [Z.to_nat (c.maxRetries - attempts)]: [n = 0] is the
    exit of the loop.  [attempts++] cannot overflow, since
    [attempts < c.maxRetries] holds before it. *)
Fixpoint doRequest_loop {A} (c : MagentoClient) (decode : string → error + A)
    (n : nat) (attempts : Z) (req : Request) : M (error + A) :=
  match n with
  | O => ret (inl (errorString "max retries exceeded"))
  | S n' =>
      let attempts := attempts + 1 in
      out <- httpClient_Do req ;;
      match out with
      | DoError err =>
          if attempts <? maxRetries c then
            time_Sleep (int_mul (backoff c) attempts) ;;;
            doRequest_loop c decode n' attempts req
          else ret (inl (requestFailedError attempts err))
      | DoResponse status body =>
          if notSuccessful status then
            if attempts <? maxRetries c then
              time_Sleep (int_mul (backoff c) attempts) ;;;
              (* Need to recreate the request body for retries *)
              let req :=
                match Body req with
                | Some _ =>
                    {| Method := Method req; URL := URL req;
                       Header := Header req; Body := Some body;
                       ContentLength := ContentLength req;
                       GetBody := GetBody req |}
                | None => req
                end in
              doRequest_loop c decode n' attempts req
            else ret (inl (apiError status body))
          else
            (* Successful response *)
            ret (decode body)
      end
  end.

(** doRequest performs the HTTP request with retry logic. *)
Definition doRequest {A} (c : MagentoClient) (decode : string → error + A)
    (req : Request) : M (error + A) :=
  doRequest_loop c decode (Z.to_nat (maxRetries c - 0)) 0 req.

Definition authorize (c : MagentoClient) (req : Request) : Request :=
  Header_Set "Content-Type" "application/json"
    (Header_Set "Authorization" ("Bearer " +:+ token c) req).

(** GetOrderByIncrementID retrieves order details by increment ID. *)
Definition GetOrderByIncrementID (c : MagentoClient) (incrementID : string)
  : M (error + MagentoOrder) :=
  let endpoint := baseURL c +:+ "/orders" in
  let fullURL := endpoint +:+ "?" +:+ searchCriteria "increment_id" incrementID in
  match http_NewRequest "GET" fullURL None with
  | inl err => ret (inl (wrapError "failed to create request" err))
  | inr req =>
      let req := authorize c req in
      r <- doRequest c (json_Decode_orders env) req ;;
      match r with
      | inl err => ret (inl (wrapError "failed to get order" err))
      | inr response =>
          if (Orders_Total response =? 0) || (len (Orders_Items response) =? 0) then
            ret (inl (orderNotFoundError incrementID))
          else
            match index (Orders_Items response) 0 with
            | Some order => ret (inr order)
            | None => panic
            end
      end
  end.

(** GetShipmentsByOrderID retrieves shipments for a specific order. *)
Definition GetShipmentsByOrderID (c : MagentoClient) (orderID : Z)
  : M (error + list MagentoShipment) :=
  let endpoint := baseURL c +:+ "/shipments" in
  let fullURL := endpoint +:+ "?" +:+ searchCriteria "order_id" (pretty orderID) in
  match http_NewRequest "GET" fullURL None with
  | inl err => ret (inl (wrapError "failed to create request" err))
  | inr req =>
      let req := authorize c req in
      r <- doRequest c (json_Decode_shipments env) req ;;
      match r with
      | inl err => ret (inl (wrapError "failed to get shipments" err))
      | inr response =>
          if (Shipments_Total response =? 0) || (len (Shipments_Items response) =? 0) then
            ret (inr [])
          else ret (inr (Shipments_Items response))
      end
  end.

(** AddTrackingToShipment adds tracking information to a shipment. *)
Definition AddTrackingToShipment (c : MagentoClient) (shipmentID : Z)
    (track : MagentoTrack) : M (option error) :=
  (* Set the shipment ID *)
  let track :=
    {| Track_OrderID := Track_OrderID track;
       Track_ParentID := shipmentID;
       Track_TrackNumber := Track_TrackNumber track;
       Track_Title := Track_Title track;
       Track_CarrierCode := Track_CarrierCode track |} in
  let endpoint := baseURL c +:+ "/shipment/track" in
  match json_Marshal_entity env track with
  | inl err => ret (Some (wrapError "failed to marshal tracking data" err))
  | inr body =>
      match http_NewRequest "POST" endpoint (Some body) with
      | inl err => ret (Some (wrapError "failed to create request" err))
      | inr req =>
          let req := authorize c req in
          r <- doRequest c (json_Decode_any env) req ;;
          match r with
          | inl err => ret (Some (wrapError "failed to add tracking" err))
          | inr _ => ret None
          end
      end
  end.

End WithEnv.

End api.

(** ** [encoding/csv]: the reader, over the parsed lines of a file *)

Module csv.
Import Go.

Record Reader := {
  path : string;
  FieldsPerRecord : Z;
  pending : list RawRecord
}.

Definition NewReader (file : string) (lines : list RawRecord) : Reader :=
  {| path := file; FieldsPerRecord := 0; pending := lines |}.

Definition EOF : error := errorString "EOF".
Definition ErrFieldCount : error := errorString "wrong number of fields".

(** [err == io.EOF] *)
Definition isEOF (err : error) : bool :=
  match err with
  | errorString msg => String.eqb msg "EOF"
  | _ => false
  end.

(** The end of [readRecord]: the parse error of the line if any, and the
    check or update of the expected number of fields per record. *)
Definition readRecord (fieldsPerRecord : Z) (raw : RawRecord)
  : list string * option error * Z :=
  let dst := fields raw in
  let err := match parseErr raw with
             | Some msg => Some (wrapError "parse error" (errorString msg))
             | None => None
             end in
  if fieldsPerRecord >? 0 then
    if negb (len dst =? fieldsPerRecord) && negb (bool_decide (is_Some err)) then
      (dst, Some (wrapError "parse error" ErrFieldCount), fieldsPerRecord)
    else (dst, err, fieldsPerRecord)
  else if fieldsPerRecord =? 0 then (dst, err, len dst)
  else (dst, err, fieldsPerRecord).

(** [reader.Read()]: the next record, or [io.EOF] at the end of the input. *)
Definition Read (r : Reader) : M (list string * option error * Reader) :=
  tell (EvRead (path r)) ;;;
  match pending r with
  | [] => ret ([], Some EOF, r)
  | raw :: rest =>
      let '(record, err, n) := readRecord (FieldsPerRecord r) raw in
      ret (record, err, {| path := path r; FieldsPerRecord := n; pending := rest |})
  end.

End csv.

(** ** Package [processor] *)

Module processor.
Import Go model.

(** The immutable part of [CSVProcessor]; [processedFiles] and [workChan]
    live in the state. *)
Record CSVProcessor := {
  ProcessedDir : string;
  FailedDir : string;
  MaxConcurrency : Z;
  magentoClient : api.MagentoClient
}.

(** The state that [NewCSVProcessor] sets up: an empty map and an open,
    empty channel. *)
Definition NewCSVProcessor : State :=
  {| trace := [];
     processedFiles := ∅;
     workChan := {| sent := []; received := 0; closed := false |} |}.

(** [close(p.workChan)] in [Stop]; closing a closed channel panics. *)
Definition Stop : M unit :=
  fun s =>
    if closed (workChan s) then Panic s
    else Ok tt {| trace := trace s;
                  processedFiles := processedFiles s;
                  workChan := {| sent := sent (workChan s);
                                 received := received (workChan s);
                                 closed := true |} |}.

(** ProcessFile queues a file for processing.  The call is recorded in the
    trace.  A missing key of a Go map reads as [false]; a send on a closed
    channel panics.  The mutex makes the body atomic. *)
Definition ProcessFile (filePath : string) : M unit :=
  tell (EvProcessFile filePath) ;;;
  fun s =>
    (* Check if the file has already been processed *)
    if default false (processedFiles s !! filePath) then Ok tt s
    else
      let s1 := {| trace := trace s;
                   processedFiles := <[filePath := true]> (processedFiles s);
                   workChan := workChan s |} in
      if closed (workChan s1) then Panic s1
      else Ok tt {| trace := trace s1;
                    processedFiles := processedFiles s1;
                    workChan := {| sent := sent (workChan s1) ++ [filePath];
                                   received := received (workChan s1);
                                   closed := false |} |}.

(** [filePath := range p.workChan], one receive: the oldest path not yet
    received, or [None] when the buffer is empty. *)
Definition receive : M (option string) :=
  fun s =>
    match sent (workChan s) !! received (workChan s) with
    | Some filePath =>
        Ok (Some filePath)
           {| trace := trace s;
              processedFiles := processedFiles s;
              workChan := {| sent := sent (workChan s);
                             received := S (received (workChan s));
                             closed := closed (workChan s) |} |}
    | None => Ok None s
    end.

(** columnIndices holds the indices of the required columns. *)
Record columnIndices := {
  orderNumber : Z;
  trackingNumber : Z;
  carrierCode : Z;
  title : Z
}.

(** The [switch col] of [getColumnIndices]. *)
Definition setColumn (indices : columnIndices) (col : string) (i : Z) : columnIndices :=
  if String.eqb col "order_number" then
    {| orderNumber := i; trackingNumber := trackingNumber indices;
       carrierCode := carrierCode indices; title := title indices |}
  else if String.eqb col "tracking_number" then
    {| orderNumber := orderNumber indices; trackingNumber := i;
       carrierCode := carrierCode indices; title := title indices |}
  else if String.eqb col "carrier_code" then
    {| orderNumber := orderNumber indices; trackingNumber := trackingNumber indices;
       carrierCode := i; title := title indices |}
  else if String.eqb col "title" then
    {| orderNumber := orderNumber indices; trackingNumber := trackingNumber indices;
       carrierCode := carrierCode indices; title := i |}
  else indices.

(** [for i, col := range header] *)
Fixpoint rangeHeader (i : Z) (header : list string) (indices : columnIndices)
  : columnIndices :=
  match header with
  | [] => indices
  | col :: rest => rangeHeader (i + 1) rest (setColumn indices col i)
  end.

(** getColumnIndices returns the indices of the required columns. *)
Definition getColumnIndices (header : list string) : columnIndices :=
  rangeHeader 0 header
    {| orderNumber := -1; trackingNumber := -1; carrierCode := -1; title := -1 |}.

Section WithEnv.
Context (env : Env).

(** processRow processes a single row from the CSV file. *)
Definition processRow (p : CSVProcessor) (row : list string)
    (indices : columnIndices) : M (option error) :=
  (* Extract tracking information from the row *)
  match index row (orderNumber indices), index row (trackingNumber indices),
        index row (carrierCode indices), index row (title indices) with
  | Some o, Some t, Some c, Some ti =>
      let trackingInfo :=
        {| OrderNumber := o; TrackingNumber := t; CarrierCode := c; Title := ti |} in
      (* Validate the tracking information *)
      match Validate trackingInfo with
      | Some err => ret (Some (wrapError "invalid tracking info" err))
      | None =>
          (* Get the order by increment ID (order number) *)
          r <- api.GetOrderByIncrementID env (magentoClient p) (OrderNumber trackingInfo) ;;
          match r with
          | inl err => ret (Some (wrapError "failed to get order" err))
          | inr order =>
              (* Get shipments for the order *)
              r <- api.GetShipmentsByOrderID env (magentoClient p) (Order_EntityID order) ;;
              match r with
              | inl err => ret (Some (wrapError "failed to get shipments" err))
              | inr shipments =>
                  (* Skip if no shipments found; else use the first shipment *)
                  match shipments with
                  | [] => ret None
                  | shipment :: _ =>
                      let track :=
                        {| Track_OrderID := Order_EntityID order;
                           Track_ParentID := 0;
                           Track_TrackNumber := TrackingNumber trackingInfo;
                           Track_Title := Title trackingInfo;
                           Track_CarrierCode := CarrierCode trackingInfo |} in
                      (* Add tracking to the shipment *)
                      r <- api.AddTrackingToShipment env (magentoClient p)
                             (Shipment_EntityID shipment) track ;;
                      match r with
                      | Some err => ret (Some (wrapError "failed to add tracking" err))
                      | None => ret None
                      end
                  end
              end
          end
      end
  | _, _, _, _ => panic
  end.

(** The loop [for { row, err := reader.Read() ... }] of [processCSVFile],
    by recursion on the lines the reader has not yet delivered; each
    iteration is one [reader.Read()] ([csv.Read] unfolded, see
    [rowLoop_Read]). *)
Fixpoint rowLoop (p : CSVProcessor) (indices : columnIndices) (file : string)
    (lines : list RawRecord) (fieldsPerRecord rowCount errorCount : Z)
  : M (Z * Z) :=
  tell (EvRead file) ;;;
  match lines with
  | [] => ret (rowCount, errorCount)           (* err == io.EOF: break *)
  | raw :: rest =>
      let '(row, err, n) := csv.readRecord fieldsPerRecord raw in
      match err with
      | Some _ =>
          rowLoop p indices file rest n rowCount (int_add errorCount 1)   (* continue *)
      | None =>
          (* Process the row *)
          r <- processRow p row indices ;;
          let errorCount :=
            match r with
            | Some _ => int_add errorCount 1
            | None => errorCount
            end in
          rowLoop p indices file rest n (int_add rowCount 1) errorCount
      end
  end.

(** The value [processCSVFile] returns once the rows are consumed. *)
Definition acceptable (rowCount errorCount : Z) : bool :=
  (errorCount =? 0)
  || float64_lt (float64_div (float64_of_int errorCount) (float64_of_int rowCount))
                float64_0_05.

(** processCSVFile processes a single CSV file. *)
Definition processCSVFile (p : CSVProcessor) (filePath : string) : M bool :=
  (* Open the file *)
  match os_Open env filePath with
  | None => ret false
  | Some lines =>
      let reader := csv.NewReader filePath lines in
      (* Read the header *)
      h <- csv.Read reader ;;
      let '(header, err, reader) := h in
      match err with
      | Some _ => ret false
      | None =>
          (* Check if the CSV has the required columns *)
          let indices := getColumnIndices header in
          if (orderNumber indices =? -1) || (trackingNumber indices =? -1)
             || (carrierCode indices =? -1) || (title indices =? -1) then
            ret false
          else
            (* Process each row *)
            c <- rowLoop p indices filePath (csv.pending reader)
                   (csv.FieldsPerRecord reader) 0 0 ;;
            let '(rowCount, errorCount) := c in
            (* Return true if there were no errors or if the error count
               is acceptable *)
            ret (acceptable rowCount errorCount)
      end
  end.

(** Where a worker stands when it is observed: it left the loop because the
    channel is closed and drained, it waits on the empty channel, or it is
    between two files. *)
Inductive workerStatus : Type :=
| WorkerStopped
| WorkerWaiting
| WorkerRunning.

(** worker processes files from the work channel: [n] iterations at most of
    [for filePath := range p.workChan].  Each iteration processes the file
    and moves it with [os.Rename] to the processed or to the failed
    directory, under its base name; the result lists these moves, source and
    destination (an error of the move is only logged). *)
Fixpoint worker (p : CSVProcessor) (n : nat)
  : M (list (string * string) * workerStatus) :=
  match n with
  | O => ret ([], WorkerRunning)
  | S n' =>
      r <- receive ;;
      match r with
      | None =>
          fun s => Ok ([], if closed (workChan s) then WorkerStopped else WorkerWaiting) s
      | Some filePath =>
          success <- processCSVFile p filePath ;;
          (* Move the file to the appropriate directory *)
          let destinationDir := if negb success then FailedDir p else ProcessedDir p in
          let fileName := Base filePath in
          let destinationPath := Join destinationDir fileName in
          rest <- worker p n' ;;
          ret ((filePath, destinationPath) :: fst rest, snd rest)
      end
  end.

End WithEnv.

End processor.

(** ** Package [file] *)

Module file.
Import Go.

(** [fsnotify.Event] and the bits of [fsnotify.Op]. *)
Record FsEvent := { Name : string; Op : Z }.

Definition Create : Z := 1.
Definition Write : Z := 2.
Definition Remove : Z := 4.
Definition Rename : Z := 8.
Definition Chmod : Z := 16.

(** Watcher monitors a directory for new CSV files.  [filePattern] is the
    compiled regular expression, as the predicate [MatchString]. *)
Record Watcher := {
  Directory : string;
  filePattern : string → bool
}.

Section WithEnv.
Context (env : Env).

(** [os.Stat(path)]; [None] is an error. *)
Definition Stat (path : string) : M (option FileInfo) :=
  fun s => Ok (os_Stat env (count_Stat (trace s)) path) (emit (EvStat path) s).

(** [filepath.Glob(pattern)].  The model interprets the patterns whose
    directory part has no metacharacter and whose last element is made of
    literal characters and at least one [*]: such a pattern is well formed,
    and [Glob] returns the entries of the directory whose name matches the
    last element, in the order of the listing (sorted), each joined to the
    directory; a directory that cannot be listed has no entry.  On every
    other pattern (no metacharacter at all, a metacharacter in the
    directory part, a character class, [?] or an escape) the answer, a list
    or [ErrBadPattern], is that of the world. *)
Definition Glob (pattern : string) : error + list string :=
  let '(dir, file) := Split pattern in
  let dir := cleanGlobPath dir in
  if negb (hasMeta dir) && ContainsAny file "*" && negb (ContainsAny file "\?[") then
    inr (map (Join dir) (List.filter (Match file) (os_ReadDir env dir)))
  else filepath_Glob env pattern.

(** isTargetFile checks if a file matches our target pattern. *)
Definition isTargetFile (w : Watcher) (path : string) : M bool :=
  (* Check if it's a regular file *)
  fileInfo <- Stat path ;;
  match fileInfo with
  | None => ret false
  | Some fileInfo =>
      if IsDir fileInfo then ret false
      else
        (* Check if it matches our file pattern *)
        let fileName := Base path in
        ret (filePattern w fileName)
  end.

(** isFileReady checks if a file is fully written and not being
    modified. *)
Definition isFileReady (w : Watcher) (path : string) : M bool :=
  (* Get initial file info *)
  initialInfo <- Stat path ;;
  match initialInfo with
  | None => ret false
  | Some initialInfo =>
      (* Wait a moment and check again *)
      time_Sleep (1 * Second) ;;;
      (* Get updated file info *)
      currentInfo <- Stat path ;;
      match currentInfo with
      | None => ret false
      | Some currentInfo =>
          (* If size or modification time has changed, file is still
             being written *)
          ret ((Size initialInfo =? Size currentInfo)
               && (ModTime initialInfo =? ModTime currentInfo))
      end
  end.

(** handleEvent processes a file system event. *)
Definition handleEvent (w : Watcher) (event : FsEvent) : M unit :=
  (* Only process create and write events *)
  if Z.land (Op event) (Z.lor Create Write) =? 0 then ret tt
  else
    (* Check if it's a CSV file matching our pattern *)
    target <- isTargetFile w (Name event) ;;
    if negb target then ret tt
    else
      (* Wait a moment to ensure the file is fully written *)
      time_Sleep (500 * Millisecond) ;;;
      (* Check if the file is accessible and not being written *)
      ready <- isFileReady w (Name event) ;;
      if negb ready then ret tt
      else
        (* Process the file *)
        processor.ProcessFile (Name event).

(** [for _, file := range files] of [processExistingFiles]. *)
Fixpoint rangeFiles (w : Watcher) (files : list string) : M unit :=
  match files with
  | [] => ret tt
  | file :: rest =>
      target <- isTargetFile w file ;;
      (if target then
         ready <- isFileReady w file ;;
         if ready then processor.ProcessFile file else ret tt
       else ret tt) ;;;
      rangeFiles w rest
  end.

(** processExistingFiles processes any existing files in the directory. *)
Definition processExistingFiles (w : Watcher) : M unit :=
  match Glob (Join (Directory w) "*.csv") with
  | inl _ => ret tt
  | inr files => rangeFiles w files
  end.

(** What the [select] of [watchLoop] receives: the stop signal, an event or
    the closing of the event channel, an error or the closing of the error
    channel. *)
Inductive selected : Type :=
| SelStop
| SelEvent (event : FsEvent)
| SelEventsClosed
| SelError (err : error)
| SelErrorsClosed.

Inductive loopStatus : Type :=
| LoopReturned
| LoopWaiting.

(** watchLoop monitors the directory for new files, on the sequence of
    what its [select] receives; at the end of the sequence the loop waits. *)
Fixpoint watchLoop (w : Watcher) (received : list selected) : M loopStatus :=
  match received with
  | [] => ret LoopWaiting
  | SelStop :: _ => ret LoopReturned
  | SelEvent event :: rest => handleEvent w event ;;; watchLoop w rest
  | SelEventsClosed :: _ => ret LoopReturned
  | SelError _ :: rest => watchLoop w rest
  | SelErrorsClosed :: _ => ret LoopReturned
  end.

End WithEnv.

(** The goroutines that [Start] launches. *)
Inductive goroutine : Type :=
| GoWatchLoop
| GoProcessExistingFiles.

(** The mutable part of a [Watcher]: the flag [isRunning], whether
    [stopChan] and the notifier were closed, the directories added to the
    notifier, and the goroutines launched so far. *)
Record Lifecycle := {
  isRunning : bool;
  stopClosed : bool;
  notifierClosed : bool;
  added : list string;
  launched : list goroutine
}.

(** [os.MkdirAll] and [fsnotify.Watcher.Add], which may fail; the answer
    of [Add] may depend on whether the notifier was closed. *)
Record Notifier := {
  os_MkdirAll : string → option error;
  watcher_Add : bool → string → option error
}.

(** The watcher that [NewWatcher] returns when the pattern compiles and
    the notifier is created. *)
Definition NewWatcher : Lifecycle :=
  {| isRunning := false; stopClosed := false; notifierClosed := false;
     added := []; launched := [] |}.

(** Start begins watching the directory for new files. *)
Definition Start (fs : Notifier) (w : Watcher) (l : Lifecycle)
  : option error * Lifecycle :=
  if isRunning l then (None, l)
  else
    (* Ensure the directory exists *)
    match os_MkdirAll fs (Directory w) with
    | Some err => (Some err, l)
    | None =>
        (* Add the directory to the watcher *)
        match watcher_Add fs (notifierClosed l) (Directory w) with
        | Some err => (Some err, l)
        | None =>
            (None,
             {| isRunning := true;
                stopClosed := stopClosed l;
                notifierClosed := notifierClosed l;
                added := added l ++ [Directory w];
                launched := launched l ++ [GoWatchLoop; GoProcessExistingFiles] |})
        end
    end.

(** Stop stops the file watcher.  [None] is the panic of
    [close(w.stopChan)] on a closed channel. *)
Definition Stop (l : Lifecycle) : option Lifecycle :=
  if negb (isRunning l) then Some l
  else if stopClosed l then None
  else Some {| isRunning := false;
               stopClosed := true;
               notifierClosed := true;
               added := added l;
               launched := launched l |}.

End file.


(** * Vocabulary of the properties *)

(** ** The Record Validator *)

Module ValidatorSpec.
Import Go model.

(** The fields of a record, in the fixed check order. *)
Inductive Field := FOrderNumber | FTrackingNumber | FCarrierCode | FTitle.

Definition checkOrder : list Field :=
  [FOrderNumber; FTrackingNumber; FCarrierCode; FTitle].

Definition get (t : TrackingInfo) (f : Field) : string :=
  match f with
  | FOrderNumber => OrderNumber t
  | FTrackingNumber => TrackingNumber t
  | FCarrierCode => CarrierCode t
  | FTitle => Title t
  end.

Definition fieldName (f : Field) : string :=
  match f with
  | FOrderNumber => "order number"
  | FTrackingNumber => "tracking number"
  | FCarrierCode => "carrier code"
  | FTitle => "title"
  end.

(** A field is missing when it is empty after trimming. *)
Definition missing (t : TrackingInfo) (f : Field) : bool :=
  String.eqb (TrimSpace (get t f)) "".

(** The first missing field in the check order, if any. *)
Definition firstMissing (t : TrackingInfo) : option Field :=
  List.find (missing t) checkOrder.

End ValidatorSpec.


(** ** The Batch Parser *)

Module ParserSpec.

(** The four required column names. *)
Definition requiredColumns : list string :=
  ["order_number"; "tracking_number"; "carrier_code"; "title"].

(** The test of [processCSVFile] on the indices of the header: some
    required column was not found. *)
Definition incomplete (indices : processor.columnIndices) : bool :=
  (processor.orderNumber indices =? -1) || (processor.trackingNumber indices =? -1)
  || (processor.carrierCode indices =? -1) || (processor.title indices =? -1).

(** The four indices are positions of a row of [n] fields. *)
Definition inRange (n : Z) (indices : processor.columnIndices) : Prop :=
  0 ≤ processor.orderNumber indices < n ∧ 0 ≤ processor.trackingNumber indices < n ∧
  0 ≤ processor.carrierCode indices < n ∧ 0 ≤ processor.title indices < n.

(** A data row that the reader delivers without error, in a file whose
    header has [n] fields: well-formed, with [n] fields. *)
Definition readable (n : Z) (raw : RawRecord) : bool :=
  bool_decide (parseErr raw = None) && (Go.len (fields raw) =? n).

(** The comparison of the error rate with the threshold, as the code
    computes it: [float64(errorCount)/float64(rowCount) < 0.05]. *)
Definition underThreshold (rowCount errorCount : Z) : bool :=
  Go.float64_lt
    (Go.float64_div (Go.float64_of_int errorCount) (Go.float64_of_int rowCount))
    Go.float64_0_05.

(** The mantissa of the [float64] constant [0.05], whose exponent is -57. *)
Definition thresholdMantissa : Z := 7205759403792794.

End ParserSpec.

(** ** The Dispatch Queue *)

Module QueueSpec.

(** What can happen to the processor during the life of the process: a
    submission that returns, a receive by a worker, the closing of the
    channel, and any effect of the other components, which leave the
    ledger and the channel alone.  A panic ends the process. *)
Inductive step : State → State → Prop :=
| step_submit path s s' :
    processor.ProcessFile path s = Ok tt s' → step s s'
| step_receive r s s' :
    processor.receive s = Ok r s' → step s s'
| step_stop s s' :
    processor.Stop s = Ok tt s' → step s s'
| step_effects evs s :
    step s (extend s evs).

Definition reachable (s : State) : Prop := rtc step processor.NewCSVProcessor s.

(** The number of tasks enqueued for a path: its sends on the channel. *)
Definition enqueued (path : string) (s : State) : nat :=
  count_occ string_dec (sent (workChan s)) path.

(** The ledger entry of a path, as the code reads it. *)
Definition inLedger (path : string) (s : State) : bool :=
  default false (processedFiles s !! path).

(** The invariant of the queue: no path is sent twice, and the ledger
    holds exactly the paths that were sent. *)
Definition invariant (s : State) : Prop :=
  NoDup (sent (workChan s)) ∧
  ∀ path, inLedger path s = true ↔ path ∈ sent (workChan s).

End QueueSpec.

(** ** The Remote Update Client *)

Module RetrySpec.
Import Go.

(** An attempt fails if the transport errors outright, or if the response
    status is outside the success range 200-299. *)
Definition failed (out : Outcome) : Prop :=
  match out with
  | DoError _ => True
  | DoResponse status _ => ¬ (200 ≤ status ≤ 299)
  end.

(** The errors of an operation that ran out of attempts. *)
Definition TransportError (e : error) : Prop :=
  match e with
  | requestFailedError _ _ => True
  | apiError _ _ => True
  | errorString msg => msg = "max retries exceeded"
  | _ => False
  end.

(** What an operation does, seen from outside: attempts and sleeps. *)
Inductive Step : Type :=
| Attempt
| Sleep (d : Z).

Definition step_of (ev : Event) : option Step :=
  match ev with
  | EvDo _ => Some Attempt
  | EvSleep d => Some (Sleep d)
  | _ => None
  end.

Definition steps (evs : list Event) : list Step := omap step_of evs.

(** [n] attempts numbered from [attempt], with a sleep of
    [backoff * attemptNumber] (a [time.Duration] product) after each of
    them but the last. *)
Fixpoint schedule (backoff attempt : Z) (n : nat) : list Step :=
  match n with
  | O => []
  | S n' =>
      Attempt ::
      match n' with
      | O => []
      | S _ => Sleep (int_mul backoff attempt) :: schedule backoff (attempt + 1) n'
      end
  end.

(** The effects of the client: round trips and sleeps. *)
Definition isNet (ev : Event) : bool :=
  match ev with
  | EvDo _ | EvSleep _ => true
  | _ => false
  end.

(** A request that differs from [req] at most by its body, and not at all
    when [req] has no body. *)
Definition sameButBody (req req' : Request) : Prop :=
  Method req' = Method req ∧ URL req' = URL req ∧ Header req' = Header req ∧
  (Body req = None → req' = req) ∧ (is_Some (Body req) → is_Some (Body req')).

(** The same schedule with the sleeps as exact products. *)
Fixpoint linear (backoff attempt : Z) (n : nat) : list Step :=
  match n with
  | O => []
  | S n' =>
      Attempt ::
      match n' with
      | O => []
      | S _ => Sleep (backoff * attempt) :: linear backoff (attempt + 1) n'
      end
  end.

(** The requests sent, in order. *)
Definition requests (evs : list Event) : list Request :=
  omap (fun ev => match ev with EvDo req => Some req | _ => None end) evs.

(** The requests of the three operations, as first sent. *)
Definition orderRequest (env : Env) (c : api.MagentoClient) (incrementID : string)
  : Request :=
  api.authorize c
    {| Method := "GET";
       URL := (api.baseURL c +:+ "/orders") +:+ "?" +:+
              api.searchCriteria env "increment_id" incrementID;
       Header := ∅; Body := None; ContentLength := 0; GetBody := None |}.

Definition shipmentsRequest (env : Env) (c : api.MagentoClient) (orderID : Z)
  : Request :=
  api.authorize c
    {| Method := "GET";
       URL := (api.baseURL c +:+ "/shipments") +:+ "?" +:+
              api.searchCriteria env "order_id" (pretty orderID);
       Header := ∅; Body := None; ContentLength := 0; GetBody := None |}.

Definition trackRequest (c : api.MagentoClient) (body : string) : Request :=
  api.authorize c
    {| Method := "POST"; URL := api.baseURL c +:+ "/shipment/track";
       Header := ∅; Body := Some body;
       ContentLength := Z.of_nat (String.length body); GetBody := Some body |}.

(** The tracking entry of a record, attached to a shipment of an order. *)
Definition trackOf (t : model.TrackingInfo) (orderID shipmentID : Z)
  : model.MagentoTrack :=
  {| model.Track_OrderID := orderID;
     model.Track_ParentID := shipmentID;
     model.Track_TrackNumber := model.TrackingNumber t;
     model.Track_Title := model.Title t;
     model.Track_CarrierCode := model.CarrierCode t |}.

End RetrySpec.

(** ** The Directory Watcher *)

Module WatcherSpec.

(** The answers to [os.Stat] are indexed by the number of calls made
    before.  [target] is the verdict of [isTargetFile] when its stat is
    call number [n]: a file that is not a directory and whose base name
    matches the pattern. *)
Definition target (env : Env) (w : file.Watcher) (n : nat) (path : string) : bool :=
  match os_Stat env n path with
  | None => false
  | Some info => negb (IsDir info) && file.filePattern w (Go.Base path)
  end.

(** A file is judged stable on two observations when both stats succeed
    with equal size and modification time. *)
Definition stable (first second : option FileInfo) : Prop :=
  ∃ info1 info2,
    first = Some info1 ∧ second = Some info2 ∧
    Size info1 = Size info2 ∧ ModTime info1 = ModTime info2.

(** The effects of one detection cycle that reaches the second
    observation: the stat of [isTargetFile], the wait of [handleEvent],
    and the two stats of [isFileReady] one settle interval apart. *)
Definition cycle (path : string) : list Event :=
  [EvStat path; EvSleep (500 * Go.Millisecond);
   EvStat path; EvSleep (1 * Go.Second); EvStat path].

(** Whether a name contains a separator. *)
Fixpoint hasSlash (s : string) : bool :=
  match s with
  | String c s' => Ascii.eqb c "/" || hasSlash s'
  | EmptyString => false
  end.

(** Whether a pattern contains the wildcard. *)
Fixpoint hasStar (s : string) : bool :=
  match s with
  | String c s' => Ascii.eqb c "*" || hasStar s'
  | EmptyString => false
  end.

(** The name of a directory entry: not empty, no separator. *)
Definition plainName (name : string) : Prop :=
  name ≠ "" ∧ hasSlash name = false.

(** The name of an entry that a directory lists: plain, and neither [.]
    nor [..]. *)
Definition entryName (name : string) : Prop :=
  plainName name ∧ name ≠ "." ∧ name ≠ "..".

(** A watched directory written plainly: a clean path without
    metacharacter that is neither the working directory nor the root. *)
Definition plainDirectory (dir : string) : Prop :=
  Go.Clean dir = dir ∧ dir ≠ "." ∧ dir ≠ "/" ∧ Go.hasMeta dir = false.

(** The paths handed to the processor. *)
Definition dispatched (evs : list Event) : list string :=
  omap (fun ev => match ev with EvProcessFile path => Some path | _ => None end) evs.

End WatcherSpec.

(** ** A concrete world, to run the program on *)

Module Demo.
Import Go model.

Definition client : api.MagentoClient :=
  {| api.baseURL := "https://shop.example/rest/V1";
     api.token := "secret";
     api.maxRetries := 3;
     api.backoff := Second |}.

Definition order : MagentoOrder :=
  {| Order_EntityID := 7;
     Order_IncrementID := "1000000001";
     Order_Status := "processing";
     Order_ExtensionAttributes := {| ShippingAssignments := [] |} |}.

Definition shipment (id : Z) : MagentoShipment :=
  {| Shipment_EntityID := id; Shipment_IncrementID := pretty id; Shipment_OrderID := 7 |}.

(** The bodies the demo service answers with, and their decoding. *)
Definition decode_orders (body : string) : error + MagentoOrderResponse :=
  if String.eqb body "one order" then
    inr {| Orders_Items := [order]; Orders_Total := 1 |}
  else if String.eqb body "no order" then
    inr {| Orders_Items := []; Orders_Total := 0 |}
  else inl (errorString "invalid character").

Definition decode_shipments (body : string) : error + MagentoShipmentResponse :=
  if String.eqb body "two shipments" then
    inr {| Shipments_Items := [shipment 42; shipment 43]; Shipments_Total := 2 |}
  else if String.eqb body "no shipment" then
    inr {| Shipments_Items := []; Shipments_Total := 0 |}
  else inl (errorString "invalid character").

Definition marshal (track : MagentoTrack) : error + string :=
  inr ("entity: order_id=" +:+ pretty (Track_OrderID track)
       +:+ " parent_id=" +:+ pretty (Track_ParentID track)
       +:+ " track_number=" +:+ Track_TrackNumber track
       +:+ " title=" +:+ Track_Title track
       +:+ " carrier_code=" +:+ Track_CarrierCode track).

(** A world given by its remote service, its file metadata, its directory
    listing and its files.  The directories of the examples are written
    plainly, so that [filepath_Glob] is never consulted. *)
Definition world (service : nat → Request → Outcome)
    (stat : nat → string → option FileInfo)
    (readDir : string → list string)
    (open : string → option (list RawRecord)) : Env :=
  {| http_Do := service;
     url_Parse_ok := fun _ => true;
     url_QueryEscape := fun s => s;
     json_Decode_orders := decode_orders;
     json_Decode_shipments := decode_shipments;
     json_Decode_any := fun _ => inr tt;
     json_Marshal_entity := marshal;
     os_Stat := stat;
     os_ReadDir := readDir;
     os_Open := open;
     filepath_Glob := fun _ => inr [] |}.

Definition noFiles : string → option (list RawRecord) := fun _ => None.
Definition noStat : nat → string → option FileInfo := fun _ _ => None.
Definition noDir : string → list string := fun _ => [].

(** A service that is down: every round trip is a transport error. *)
Definition down : Env :=
  world (fun _ _ => DoError (errorString "connection refused")) noStat noDir noFiles.

(** A service that answers 503 once and then 200. *)
Definition flaky : Env :=
  world (fun n _ => match n with
                    | O => DoResponse 503 "Service Unavailable"
                    | _ => DoResponse 200 "ok"
                    end) noStat noDir noFiles.

(** The default file pattern, [^\d{8}_\d{6}\.csv$], and the same pattern
    for another extension. *)
Definition isDigit (c : ascii) : bool :=
  ((48 <=? byte c) && (byte c <=? 57))%N.

Fixpoint digits (n : nat) (s : string) : option string :=
  match n with
  | O => Some s
  | S n' =>
      match s with
      | String c s' => if isDigit c then digits n' s' else None
      | EmptyString => None
      end
  end.

Definition timestamped (extension : string) (name : string) : bool :=
  match digits 8 name with
  | Some (String sep rest) =>
      Ascii.eqb sep "_" &&
      match digits 6 rest with
      | Some ext => String.eqb ext extension
      | None => false
      end
  | _ => false
  end.

Definition csvWatcher : file.Watcher :=
  {| file.Directory := "/data/watch"; file.filePattern := timestamped ".csv" |}.

Definition txtWatcher : file.Watcher :=
  {| file.Directory := "/data/watch"; file.filePattern := timestamped ".txt" |}.

(** A watched directory at rest: three files that nobody is writing. *)
Definition inbox : Env :=
  world (fun _ _ => DoError (errorString "connection refused"))
    (fun _ path =>
       if bool_decide (path ∈ ["/data/watch/20240101_120000.csv";
                               "/data/watch/20240101_120000.txt";
                               "/data/watch/notes.csv"])
       then Some {| IsDir := false; Size := 64; ModTime := 1704110400 |}
       else None)
    (fun dir =>
       if String.eqb dir "/data/watch"
       then ["20240101_120000.csv"; "20240101_120000.txt"; "notes.csv"]
       else [])
    noFiles.

(** A service that knows the order and its two shipments, and accepts
    the tracking entry. *)
Definition header : RawRecord :=
  {| fields := ["order_number"; "tracking_number"; "carrier_code"; "title"];
     parseErr := None |}.

Definition row : list string := ["1000000001"; "1ZX23456789"; "ups"; "UPS"].

(** A header without the column [carrier_code]. *)
Definition shortHeader : RawRecord :=
  {| fields := ["order_number"; "tracking_number"; "title"]; parseErr := None |}.

Definition shop : Env :=
  world (fun n _ => match n with
                    | 0%nat => DoResponse 200 "one order"
                    | 1%nat => DoResponse 200 "two shipments"
                    | _ => DoResponse 200 "ok"
                    end) noStat noDir
    (fun path =>
       if String.eqb path "/data/watch/20240101_120000.csv"
       then Some [header; {| fields := row; parseErr := None |}]
       else if String.eqb path "/data/watch/20240101_120001.csv"
       then Some [header;
                  {| fields := ["1000000001"; "1ZX23456789"]; parseErr := None |};
                  {| fields := []; parseErr := Some "bare quote in non-quoted field" |}]
       else if String.eqb path "/data/watch/20240101_120002.csv"
       then Some [shortHeader;
                  {| fields := ["1000000001"; "1ZX23456789"; "UPS"]; parseErr := None |}]
       else None).

Definition csvProcessor : processor.CSVProcessor :=
  {| processor.ProcessedDir := "/data/processed";
     processor.FailedDir := "/data/failed";
     processor.MaxConcurrency := 5;
     processor.magentoClient := client |}.

Definition indices : processor.columnIndices :=
  {| processor.orderNumber := 0; processor.trackingNumber := 1;
     processor.carrierCode := 2; processor.title := 3 |}.

Definition info : TrackingInfo :=
  {| OrderNumber := "1000000001"; TrackingNumber := "1ZX23456789";
     CarrierCode := "ups"; Title := "UPS" |}.

Definition track : MagentoTrack :=
  {| Track_OrderID := 7; Track_ParentID := 0; Track_TrackNumber := "1ZX23456789";
     Track_Title := "UPS"; Track_CarrierCode := "ups" |}.

Definition get : Request :=
  {| Method := "GET"; URL := "https://shop.example/rest/V1/orders";
     Header := ∅; Body := None; ContentLength := 0; GetBody := None |}.

End Demo.

(** ** Vocabulary of the further properties *)

Module CodeSpec.

(** The four required columns and their index in [columnIndices]. *)
Inductive Column : Type := ColOrderNumber | ColTrackingNumber | ColCarrierCode | ColTitle.

Definition columnName (c : Column) : string :=
  match c with
  | ColOrderNumber => "order_number"
  | ColTrackingNumber => "tracking_number"
  | ColCarrierCode => "carrier_code"
  | ColTitle => "title"
  end.

Definition columnIndex (c : Column) (indices : processor.columnIndices) : Z :=
  match c with
  | ColOrderNumber => processor.orderNumber indices
  | ColTrackingNumber => processor.trackingNumber indices
  | ColCarrierCode => processor.carrierCode indices
  | ColTitle => processor.title indices
  end.

(** [i] is the position of the last occurrence of [name] in [header], or
    -1 when there is none. *)
Definition lastPosition (name : string) (header : list string) (i : Z) : Prop :=
  (i = -1 ∧ (name ∉ header)) ∨
  (0 ≤ i ∧ header !! Z.to_nat i = Some name ∧
   ∀ j, (Z.to_nat i < j)%nat → header !! j ≠ Some name).

(** The reads of the CSV reader in a trace. *)
Definition isRead (ev : Event) : bool :=
  match ev with EvRead _ => true | _ => false end.

Definition count_Read (evs : list Event) : nat := length (List.filter isRead evs).

(** The effects of processing a file: reads, round trips and sleeps. *)
Definition isFileEffect (ev : Event) : bool := isRead ev || RetrySpec.isNet ev.

(** The record of a row, when the row has the four fields. *)
Definition recordOf (indices : processor.columnIndices) (row : list string)
  : option model.TrackingInfo :=
  match Go.index row (processor.orderNumber indices),
        Go.index row (processor.trackingNumber indices),
        Go.index row (processor.carrierCode indices),
        Go.index row (processor.title indices) with
  | Some o, Some t, Some c, Some ti =>
      Some {| model.OrderNumber := o; model.TrackingNumber := t;
              model.CarrierCode := c; model.Title := ti |}
  | _, _, _, _ => None
  end.

(** A row whose record the validator rejects. *)
Definition invalidRow (indices : processor.columnIndices) (raw : RawRecord) : bool :=
  match recordOf indices (fields raw) with
  | Some info => bool_decide (is_Some (model.Validate info))
  | None => false
  end.

(** The data rows of a file by what becomes of them: those the reader
    fails to deliver, those it delivers, and among these the rows with an
    invalid record and the rows with a valid one. *)
Definition unreadableRows (n : Z) (rows : list RawRecord) : nat :=
  length (List.filter (fun raw => negb (ParserSpec.readable n raw)) rows).

Definition readableRows (n : Z) (rows : list RawRecord) : nat :=
  length (List.filter (ParserSpec.readable n) rows).

Definition invalidRows (n : Z) (indices : processor.columnIndices)
    (rows : list RawRecord) : nat :=
  length (List.filter
            (fun raw => ParserSpec.readable n raw && invalidRow indices raw) rows).

Definition validRows (n : Z) (indices : processor.columnIndices)
    (rows : list RawRecord) : nat :=
  length (List.filter
            (fun raw => ParserSpec.readable n raw && negb (invalidRow indices raw)) rows).

(** The test of [handleEvent] on the operation of an event. *)
Definition createOrWrite (event : file.FsEvent) : bool :=
  negb (Z.land (file.Op event) (Z.lor file.Create file.Write) =? 0).

(** The events [watchLoop] handles: those received before the stop signal
    or the closing of a channel. *)
Fixpoint handled (received : list file.selected) : list file.FsEvent :=
  match received with
  | [] => []
  | file.SelEvent event :: rest => event :: handled rest
  | file.SelError _ :: rest => handled rest
  | _ :: _ => []
  end.

(** A computation of the watcher: from every state, whether it returns or
    panics, it only extends the trace, hands to the processor some of
    [paths] in their order, and makes no round trip; when it returns, the
    processor went through steps of the queue. *)
Definition hands {A} (m : M A) (paths : list string) : Prop :=
  ∀ s, ∃ evs,
    trace (state_of (m s)) = (trace s ++ evs)%list ∧
    sublist (WatcherSpec.dispatched evs) paths ∧
    count_Do evs = 0%nat ∧
    (∀ a s', m s = Ok a s' → rtc QueueSpec.step s s').

(** The files the startup sweep goes through. *)
Definition globbed (env : Env) (w : file.Watcher) : list string :=
  match file.Glob env (Go.Join (file.Directory w) "*.csv") with
  | inl _ => []
  | inr files => files
  end.

(** [handleEvent] on each of a sequence of events, in order. *)
Fixpoint handleAll (env : Env) (w : file.Watcher) (events : list file.FsEvent)
  : M unit :=
  match events with
  | [] => ret tt
  | event :: rest => file.handleEvent env w event ;;; handleAll env w rest
  end.

(** How [watchLoop] stands after what it received: it returned, at the
    stop signal or at the closing of a channel, or it waits. *)
Fixpoint ending (received : list file.selected) : file.loopStatus :=
  match received with
  | [] => file.LoopWaiting
  | file.SelEvent _ :: rest => ending rest
  | file.SelError _ :: rest => ending rest
  | _ :: _ => file.LoopReturned
  end.

(** The destinations a worker may move a file to. *)
Definition destinations (p : processor.CSVProcessor) (filePath : string) : list string :=
  [Go.Join (processor.ProcessedDir p) (Go.Base filePath);
   Go.Join (processor.FailedDir p) (Go.Base filePath)].

(** The calls [main] may make on the watcher, and a sequence of them from
    a state of the watcher; [None] is a panic. *)
Inductive call : Type :=
| CallStart
| CallStop.

Fixpoint calls (fs : file.Notifier) (w : file.Watcher) (cs : list call)
    (l : file.Lifecycle) : option file.Lifecycle :=
  match cs with
  | [] => Some l
  | CallStart :: rest => calls fs w rest (snd (file.Start fs w l))
  | CallStop :: rest =>
      match file.Stop l with
      | Some l' => calls fs w rest l'
      | None => None
      end
  end.

(** The states of a watcher: fresh, running, stopped. *)
Definition lifecycleStates (w : file.Watcher) : list file.Lifecycle :=
  [file.NewWatcher;
   {| file.isRunning := true; file.stopClosed := false; file.notifierClosed := false;
      file.added := [file.Directory w];
      file.launched := [file.GoWatchLoop; file.GoProcessExistingFiles] |};
   {| file.isRunning := false; file.stopClosed := true; file.notifierClosed := true;
      file.added := [file.Directory w];
      file.launched := [file.GoWatchLoop; file.GoProcessExistingFiles] |}].

(** The number of attempts [doRequest] may make. *)
Definition maxAttempts (c : api.MagentoClient) : nat := Z.to_nat (api.maxRetries c).

(** A computation that returns from every state, whose only effects are
    sleeps and at most [n] round trips. *)
Definition spends {A} (m : M A) (n : nat) : Prop :=
  ∀ s, ∃ r evs,
    m s = Ok r (extend s evs) ∧
    forallb RetrySpec.isNet evs = true ∧
    (count_Do evs ≤ n)%nat.

End CodeSpec.

(** ** Further examples *)

Module Examples.
Import Go model.

(** A row whose tracking number is blank. *)
Definition blankRow : RawRecord :=
  {| fields := ["1000000001"; "  "; "ups"; "UPS"]; parseErr := None |}.

(** A world with a file of two such rows, and a service that is up. *)
Definition blanks : Env :=
  Demo.world (fun _ _ => DoResponse 200 "ok") Demo.noStat Demo.noDir
    (fun path =>
       if String.eqb path "/data/watch/20240101_120003.csv"
       then Some [Demo.header; blankRow; blankRow]
       else None).

(** A client that is allowed no attempt. *)
Definition idleClient : api.MagentoClient :=
  {| api.baseURL := "https://shop.example/rest/V1";
     api.token := "secret";
     api.maxRetries := 0;
     api.backoff := Second |}.

(** A notifier that refuses a directory once it is closed, as [fsnotify]
    does, and one that accepts it. *)
Definition strictNotifier : file.Notifier :=
  {| file.os_MkdirAll := fun _ => None;
     file.watcher_Add := fun closed _ =>
       if closed then Some (errorString "inotify instance already closed") else None |}.

Definition laxNotifier : file.Notifier :=
  {| file.os_MkdirAll := fun _ => None;
     file.watcher_Add := fun _ _ => None |}.

(** A processor with one file waiting in the channel. *)
Definition oneWaiting : State :=
  {| trace := [EvProcessFile "/data/watch/20240101_120002.csv"];
     processedFiles := {["/data/watch/20240101_120002.csv" := true]};
     workChan := {| sent := ["/data/watch/20240101_120002.csv"];
                    received := 0; closed := false |} |}.

End Examples.
(** * Properties *)

(** ** Generalities on the state and on the effects *)

Lemma extend_nil s : extend s [] = s.
Proof. destruct s; unfold extend; simpl; by rewrite app_nil_r. Qed.

Lemma extend_extend s evs1 evs2 :
  extend (extend s evs1) evs2 = extend s (evs1 ++ evs2).
Proof. unfold extend; simpl; by rewrite app_assoc. Qed.

Lemma count_Do_app tr1 tr2 : count_Do (tr1 ++ tr2) = (count_Do tr1 + count_Do tr2)%nat.
Proof. unfold count_Do. by rewrite List.filter_app, length_app. Qed.

Lemma count_Stat_app tr1 tr2 :
  count_Stat (tr1 ++ tr2) = (count_Stat tr1 + count_Stat tr2)%nat.
Proof. unfold count_Stat. by rewrite List.filter_app, length_app. Qed.

Lemma extend_inj s evs1 evs2 : extend s evs1 = extend s evs2 → evs1 = evs2.
Proof.
  intros H. apply (f_equal trace) in H. cbn in H. by apply app_inv_head in H.
Qed.

Lemma Ok_extend_inj {A} (r1 r2 : A) s evs1 evs2 :
  Ok r1 (extend s evs1) = Ok r2 (extend s evs2) → r1 = r2 ∧ evs1 = evs2.
Proof.
  intros H. split; [congruence|]. apply (extend_inj s).
  assert (state_of (Ok r1 (extend s evs1)) = state_of (Ok r2 (extend s evs2))) as H'
    by (by rewrite H).
  exact H'.
Qed.
(** C7. The validator accepts a record exactly when its four fields are
    non-empty after trimming, and otherwise rejects it with the error that
    names the first missing field in the order: order number, tracking
    number, carrier code, title. *)
Theorem Validate_names_first_missing (t : model.TrackingInfo) :
  (model.Validate t = None ↔
     Go.TrimSpace (model.OrderNumber t) ≠ "" ∧
     Go.TrimSpace (model.TrackingNumber t) ≠ "" ∧
     Go.TrimSpace (model.CarrierCode t) ≠ "" ∧
     Go.TrimSpace (model.Title t) ≠ "") ∧
  model.Validate t =
    match ValidatorSpec.firstMissing t with
    | Some f => Some (Go.errorString (ValidatorSpec.fieldName f +:+ " is required"))
    | None => None
    end.
Proof.
  unfold model.Validate, ValidatorSpec.firstMissing, ValidatorSpec.missing.
  simpl.
  destruct (String.eqb_spec (Go.TrimSpace (model.OrderNumber t)) "") as [E1|E1];
    [split; [split; [discriminate | intros (H & _); contradiction] | reflexivity] |].
  destruct (String.eqb_spec (Go.TrimSpace (model.TrackingNumber t)) "") as [E2|E2];
    [split; [split; [discriminate | intros (_ & H & _); contradiction] | reflexivity] |].
  destruct (String.eqb_spec (Go.TrimSpace (model.CarrierCode t)) "") as [E3|E3];
    [split; [split; [discriminate | intros (_ & _ & H & _); contradiction] | reflexivity] |].
  destruct (String.eqb_spec (Go.TrimSpace (model.Title t)) "") as [E4|E4];
    [split; [split; [discriminate | intros (_ & _ & _ & H); contradiction] | reflexivity] |].
  split; [split; [intros _; auto | reflexivity] | reflexivity].
Qed.

(** ** The header of a file *)

Section ColumnIndices.
Import processor.

Local Ltac setColumn_cases :=
  unfold setColumn;
  repeat match goal with
    | |- context [String.eqb ?a ?b] => destruct (String.eqb_spec a b); subst; simpl
    end.

(** An index that was found is never lost, and stays below the position
    reached in the header. *)
Lemma rangeHeader_orderNumber header : ∀ i indices,
  0 ≤ i →
  (orderNumber (rangeHeader i header indices) = -1 ↔
     orderNumber indices = -1 ∧ "order_number" ∉ header) ∧
  (orderNumber indices = -1 ∨ 0 ≤ orderNumber indices < i →
   orderNumber (rangeHeader i header indices) = -1 ∨
   0 ≤ orderNumber (rangeHeader i header indices) < i + Go.len header).
Proof.
  unfold Go.len.
  induction header as [|col rest IH]; intros i indices Hi;
    cbn [rangeHeader length]; rewrite ?Nat2Z.inj_succ.
  - split; [rewrite elem_of_nil; tauto | simpl; lia].
  - destruct (IH (i + 1) (setColumn indices col i)) as [IH1 IH2]; [lia|].
    split.
    + rewrite IH1, elem_of_cons. setColumn_cases; split; intros; try lia; try tauto; try congruence;
        intuition congruence.
    + intros H.
      assert (orderNumber (setColumn indices col i) = -1
              ∨ 0 ≤ orderNumber (setColumn indices col i) < i + 1) as H'
        by (setColumn_cases; lia).
      specialize (IH2 H'). lia.
Qed.

Lemma rangeHeader_trackingNumber header : ∀ i indices,
  0 ≤ i →
  (trackingNumber (rangeHeader i header indices) = -1 ↔
     trackingNumber indices = -1 ∧ "tracking_number" ∉ header) ∧
  (trackingNumber indices = -1 ∨ 0 ≤ trackingNumber indices < i →
   trackingNumber (rangeHeader i header indices) = -1 ∨
   0 ≤ trackingNumber (rangeHeader i header indices) < i + Go.len header).
Proof.
  unfold Go.len.
  induction header as [|col rest IH]; intros i indices Hi;
    cbn [rangeHeader length]; rewrite ?Nat2Z.inj_succ.
  - split; [rewrite elem_of_nil; tauto | simpl; lia].
  - destruct (IH (i + 1) (setColumn indices col i)) as [IH1 IH2]; [lia|].
    split.
    + rewrite IH1, elem_of_cons. setColumn_cases; split; intros; try lia; try tauto; try congruence;
        intuition congruence.
    + intros H.
      assert (trackingNumber (setColumn indices col i) = -1
              ∨ 0 ≤ trackingNumber (setColumn indices col i) < i + 1) as H'
        by (setColumn_cases; lia).
      specialize (IH2 H'). lia.
Qed.

Lemma rangeHeader_carrierCode header : ∀ i indices,
  0 ≤ i →
  (carrierCode (rangeHeader i header indices) = -1 ↔
     carrierCode indices = -1 ∧ "carrier_code" ∉ header) ∧
  (carrierCode indices = -1 ∨ 0 ≤ carrierCode indices < i →
   carrierCode (rangeHeader i header indices) = -1 ∨
   0 ≤ carrierCode (rangeHeader i header indices) < i + Go.len header).
Proof.
  unfold Go.len.
  induction header as [|col rest IH]; intros i indices Hi;
    cbn [rangeHeader length]; rewrite ?Nat2Z.inj_succ.
  - split; [rewrite elem_of_nil; tauto | simpl; lia].
  - destruct (IH (i + 1) (setColumn indices col i)) as [IH1 IH2]; [lia|].
    split.
    + rewrite IH1, elem_of_cons. setColumn_cases; split; intros; try lia; try tauto; try congruence;
        intuition congruence.
    + intros H.
      assert (carrierCode (setColumn indices col i) = -1
              ∨ 0 ≤ carrierCode (setColumn indices col i) < i + 1) as H'
        by (setColumn_cases; lia).
      specialize (IH2 H'). lia.
Qed.

Lemma rangeHeader_title header : ∀ i indices,
  0 ≤ i →
  (title (rangeHeader i header indices) = -1 ↔
     title indices = -1 ∧ "title" ∉ header) ∧
  (title indices = -1 ∨ 0 ≤ title indices < i →
   title (rangeHeader i header indices) = -1 ∨
   0 ≤ title (rangeHeader i header indices) < i + Go.len header).
Proof.
  unfold Go.len.
  induction header as [|col rest IH]; intros i indices Hi;
    cbn [rangeHeader length]; rewrite ?Nat2Z.inj_succ.
  - split; [rewrite elem_of_nil; tauto | simpl; lia].
  - destruct (IH (i + 1) (setColumn indices col i)) as [IH1 IH2]; [lia|].
    split.
    + rewrite IH1, elem_of_cons. setColumn_cases; split; intros; try lia; try tauto; try congruence;
        intuition congruence.
    + intros H.
      assert (title (setColumn indices col i) = -1
              ∨ 0 ≤ title (setColumn indices col i) < i + 1) as H'
        by (setColumn_cases; lia).
      specialize (IH2 H'). lia.
Qed.

(** The test fails exactly on the headers that lack a required name. *)
Lemma getColumnIndices_incomplete header :
  ParserSpec.incomplete (getColumnIndices header) = true ↔
  ∃ col, col ∈ ParserSpec.requiredColumns ∧ col ∉ header.
Proof.
  unfold ParserSpec.incomplete, getColumnIndices, ParserSpec.requiredColumns.
  rewrite !orb_true_iff, !Z.eqb_eq.
  rewrite (proj1 (rangeHeader_orderNumber header 0 _ ltac:(lia))).
  rewrite (proj1 (rangeHeader_trackingNumber header 0 _ ltac:(lia))).
  rewrite (proj1 (rangeHeader_carrierCode header 0 _ ltac:(lia))).
  rewrite (proj1 (rangeHeader_title header 0 _ ltac:(lia))).
  simpl. split.
  - intros [[[[_ H]|[_ H]]|[_ H]]|[_ H]]; eexists; (split; [|exact H]);
      repeat (first [apply list_elem_of_here | apply list_elem_of_further]).
  - intros (col & Hin & Hnot).
    repeat (apply elem_of_cons in Hin as [->|Hin]); [tauto..|].
    by apply elem_of_nil in Hin.
Qed.

(** On a complete header the four indices are positions of the header. *)
Lemma getColumnIndices_in_range header :
  ParserSpec.incomplete (getColumnIndices header) = false →
  let indices := getColumnIndices header in
  0 ≤ orderNumber indices < Go.len header ∧
  0 ≤ trackingNumber indices < Go.len header ∧
  0 ≤ carrierCode indices < Go.len header ∧
  0 ≤ title indices < Go.len header.
Proof.
  unfold ParserSpec.incomplete, getColumnIndices.
  rewrite !orb_false_iff, !Z.eqb_neq. intros [[[H1 H2] H3] H4]. simpl.
  set (init := {| orderNumber := -1; trackingNumber := -1;
                  carrierCode := -1; title := -1 |}) in *.
  pose proof (proj2 (rangeHeader_orderNumber header 0 init ltac:(lia))) as B1.
  pose proof (proj2 (rangeHeader_trackingNumber header 0 init ltac:(lia))) as B2.
  pose proof (proj2 (rangeHeader_carrierCode header 0 init ltac:(lia))) as B3.
  pose proof (proj2 (rangeHeader_title header 0 init ltac:(lia))) as B4.
  simpl in *. lia.
Qed.

End ColumnIndices.

(** C6. A file whose header lacks one of the four required column names is
    rejected at once: the result is [false], the header is the only record
    read, and no remote call is made. *)
Theorem missing_column_rejects_file (env : Env) (p : processor.CSVProcessor)
    (filePath : string) (header : RawRecord) (rows : list RawRecord) (s : State) :
  os_Open env filePath = Some (header :: rows) →
  parseErr header = None →
  (∃ col, col ∈ ParserSpec.requiredColumns ∧ col ∉ fields header) →
  processor.processCSVFile env p filePath s = Ok false (extend s [EvRead filePath]) ∧
  count_Do (trace (extend s [EvRead filePath])) = count_Do (trace s).
Proof.
  intros Hopen Hparse Hmissing.
  apply getColumnIndices_incomplete in Hmissing. unfold ParserSpec.incomplete in Hmissing.
  split.
  - unfold processor.processCSVFile. rewrite Hopen.
    unfold csv.Read, csv.NewReader, csv.readRecord, bind, tell, ret, emit. simpl.
    rewrite Hparse. simpl. by rewrite Hmissing.
  - unfold extend; cbn [trace]. rewrite count_Do_app.
    change (count_Do [EvRead filePath]) with 0%nat. lia.
Qed.

Lemma missing_column_rejects_file_witness :
  os_Open Demo.shop "/data/watch/20240101_120002.csv"
  = Some [Demo.shortHeader;
          {| fields := ["1000000001"; "1ZX23456789"; "UPS"]; parseErr := None |}] ∧
  parseErr Demo.shortHeader = None ∧
  (∃ col, col ∈ ParserSpec.requiredColumns ∧ col ∉ fields Demo.shortHeader) ∧
  processor.processCSVFile Demo.shop Demo.csvProcessor
    "/data/watch/20240101_120002.csv" processor.NewCSVProcessor
  = Ok false (extend processor.NewCSVProcessor
                [EvRead "/data/watch/20240101_120002.csv"]) ∧
  count_Do (trace (extend processor.NewCSVProcessor
                     [EvRead "/data/watch/20240101_120002.csv"]))
  = count_Do (trace processor.NewCSVProcessor).
Proof.
  assert (∃ col, col ∈ ParserSpec.requiredColumns ∧ col ∉ fields Demo.shortHeader) as H.
  { exists "carrier_code". split.
    - apply list_elem_of_further, list_elem_of_further, list_elem_of_here.
    - intros Hin. cbn in Hin.
      repeat (apply elem_of_cons in Hin as [Hin|Hin]; [discriminate Hin|]).
      by apply elem_of_nil in Hin. }
  split; [reflexivity|]. split; [reflexivity|]. split; [exact H|].
  exact (missing_column_rejects_file Demo.shop Demo.csvProcessor
           "/data/watch/20240101_120002.csv" Demo.shortHeader
           [{| fields := ["1000000001"; "1ZX23456789"; "UPS"]; parseErr := None |}]
           processor.NewCSVProcessor eq_refl eq_refl H).
Defined.

(** ** The Dispatch Queue *)

Section DispatchQueue.
Import QueueSpec.

Lemma ProcessFile_known path s :
  inLedger path s = true →
  processor.ProcessFile path s = Ok tt (extend s [EvProcessFile path]).
Proof.
  unfold inLedger, processor.ProcessFile, bind, tell, emit. simpl.
  by intros ->.
Qed.

Lemma ProcessFile_new path s :
  inLedger path s = false →
  closed (workChan s) = false →
  processor.ProcessFile path s =
    Ok tt {| trace := trace s ++ [EvProcessFile path];
             processedFiles := <[path := true]> (processedFiles s);
             workChan := {| sent := sent (workChan s) ++ [path];
                            received := received (workChan s);
                            closed := false |} |}.
Proof.
  unfold inLedger, processor.ProcessFile, bind, tell, emit. simpl.
  by intros -> ->.
Qed.

(** A submission that returns leaves the path in the ledger. *)
Lemma ProcessFile_records path s s' :
  processor.ProcessFile path s = Ok tt s' → inLedger path s' = true.
Proof.
  destruct (inLedger path s) eqn:E.
  - rewrite (ProcessFile_known _ _ E). intros [= <-]. exact E.
  - destruct (closed (workChan s)) eqn:C.
    + unfold inLedger in E.
      unfold processor.ProcessFile, bind, tell, emit. simpl.
      rewrite E. simpl. by rewrite C.
    + rewrite (ProcessFile_new _ _ E C). intros [= <-].
      unfold inLedger. simpl. by rewrite lookup_insert_eq.
Qed.

Lemma inLedger_insert path path' (m : gmap string bool) :
  default false (<[path := true]> m !! path') = true ↔
  path' = path ∨ default false (m !! path') = true.
Proof.
  destruct (decide (path = path')) as [->|Hne].
  - rewrite lookup_insert_eq. simpl. tauto.
  - rewrite lookup_insert_ne by done. split; [tauto|].
    intros [->|H]; [done|exact H].
Qed.

Lemma step_invariant s s' : step s s' → invariant s → invariant s'.
Proof.
  intros Hstep [Hnd Hled]. destruct Hstep as [path s s' H|r s s' H|s s' H|evs s].
  - destruct (inLedger path s) eqn:E.
    + rewrite (ProcessFile_known _ _ E) in H. injection H as <-.
      split; [exact Hnd | exact Hled].
    + destruct (closed (workChan s)) eqn:C.
      * exfalso. revert H. unfold inLedger in E.
        unfold processor.ProcessFile, bind, tell, emit. simpl.
        rewrite E. simpl. by rewrite C.
      * rewrite (ProcessFile_new _ _ E C) in H. injection H as <-.
        split; simpl.
        -- apply NoDup_app. split; [exact Hnd|]. split; [|apply NoDup_singleton].
           intros x Hx ->%list_elem_of_singleton.
           apply Hled in Hx. congruence.
        -- intros path'. unfold inLedger. simpl.
           rewrite inLedger_insert, elem_of_app, list_elem_of_singleton.
           specialize (Hled path'). unfold inLedger in Hled. tauto.
  - revert H. unfold processor.receive.
    destruct (sent (workChan s) !! received (workChan s)); intros [= <- <-];
      split; assumption.
  - revert H. unfold processor.Stop.
    destruct (closed (workChan s)); [discriminate|]. intros [= <-].
    split; assumption.
  - split; assumption.
Qed.

(** The ledger is never pruned. *)
Lemma step_inLedger path s s' :
  step s s' → inLedger path s = true → inLedger path s' = true.
Proof.
  intros Hstep Hin. destruct Hstep as [path' s s' H|r s s' H|s s' H|evs s].
  - destruct (inLedger path' s) eqn:E.
    + rewrite (ProcessFile_known _ _ E) in H. by injection H as <-.
    + destruct (closed (workChan s)) eqn:C.
      * exfalso. revert H. unfold inLedger in E.
        unfold processor.ProcessFile, bind, tell, emit. simpl.
        rewrite E. simpl. by rewrite C.
      * rewrite (ProcessFile_new _ _ E C) in H. injection H as <-.
        unfold inLedger. simpl. apply inLedger_insert. by right.
  - revert H. unfold processor.receive.
    destruct (sent (workChan s) !! received (workChan s)); by intros [= <- <-].
  - revert H. unfold processor.Stop.
    destruct (closed (workChan s)); [discriminate|]. by intros [= <-].
  - exact Hin.
Qed.

Lemma NewCSVProcessor_invariant : invariant processor.NewCSVProcessor.
Proof.
  split; simpl; [apply NoDup_nil_2|].
  intros path. unfold inLedger. simpl. rewrite lookup_empty, elem_of_nil.
  simpl. split; [discriminate|tauto].
Qed.

Lemma rtc_step_invariant s s' : rtc step s s' → invariant s → invariant s'.
Proof. induction 1; eauto using step_invariant. Qed.

Lemma rtc_step_inLedger path s s' :
  rtc step s s' → inLedger path s = true → inLedger path s' = true.
Proof. induction 1; eauto using step_inLedger. Qed.

Lemma invariant_enqueued path s :
  invariant s → inLedger path s = true → enqueued path s = 1%nat.
Proof.
  intros [Hnd Hled] Hin. unfold enqueued.
  apply NoDup_ListNoDup in Hnd.
  apply (proj1 (NoDup_count_occ' string_dec _) Hnd).
  apply list_elem_of_In, Hled, Hin.
Qed.

End DispatchQueue.

(** C4. Submitting is idempotent per path: once a submission of a path has
    returned, the path has exactly one enqueued task, and every later
    submission of it, whatever happened in between, returns without touching
    the ledger or the channel; the ledger, a map, holds the path once. *)
Theorem ProcessFile_idempotent (s s1 : State) (path : string) :
  QueueSpec.reachable s →
  processor.ProcessFile path s = Ok tt s1 →
  QueueSpec.enqueued path s1 = 1%nat ∧
  ∀ s2, rtc QueueSpec.step s1 s2 →
    processor.ProcessFile path s2 = Ok tt (extend s2 [EvProcessFile path]) ∧
    processedFiles s2 !! path = Some true ∧
    QueueSpec.enqueued path s2 = 1%nat.
Proof.
  intros Hreach Hsubmit.
  pose proof (rtc_step_invariant _ _ Hreach NewCSVProcessor_invariant) as Hinv.
  pose proof (step_invariant _ _ (QueueSpec.step_submit _ _ _ Hsubmit) Hinv) as Hinv1.
  pose proof (ProcessFile_records _ _ _ Hsubmit) as Hin1.
  split; [by apply invariant_enqueued|].
  intros s2 Hsteps.
  pose proof (rtc_step_invariant _ _ Hsteps Hinv1) as Hinv2.
  pose proof (rtc_step_inLedger _ _ _ Hsteps Hin1) as Hin2.
  split; [by apply ProcessFile_known|].
  split; [|by apply invariant_enqueued].
  unfold QueueSpec.inLedger in Hin2.
  destruct (processedFiles s2 !! path) as [[]|]; simpl in Hin2; congruence.
Qed.

Lemma ProcessFile_idempotent_witness :
  QueueSpec.reachable processor.NewCSVProcessor ∧
  processor.ProcessFile "/data/watch/20240101_120000.csv" processor.NewCSVProcessor
  = Ok tt {| trace := [EvProcessFile "/data/watch/20240101_120000.csv"];
             processedFiles := {["/data/watch/20240101_120000.csv" := true]};
             workChan := {| sent := ["/data/watch/20240101_120000.csv"];
                            received := 0; closed := false |} |} ∧
  QueueSpec.enqueued "/data/watch/20240101_120000.csv"
    {| trace := [EvProcessFile "/data/watch/20240101_120000.csv"];
       processedFiles := {["/data/watch/20240101_120000.csv" := true]};
       workChan := {| sent := ["/data/watch/20240101_120000.csv"];
                      received := 0; closed := false |} |} = 1%nat ∧
  ∀ s2,
    rtc QueueSpec.step
      {| trace := [EvProcessFile "/data/watch/20240101_120000.csv"];
         processedFiles := {["/data/watch/20240101_120000.csv" := true]};
         workChan := {| sent := ["/data/watch/20240101_120000.csv"];
                        received := 0; closed := false |} |} s2 →
    processor.ProcessFile "/data/watch/20240101_120000.csv" s2
    = Ok tt (extend s2 [EvProcessFile "/data/watch/20240101_120000.csv"]) ∧
    processedFiles s2 !! "/data/watch/20240101_120000.csv" = Some true ∧
    QueueSpec.enqueued "/data/watch/20240101_120000.csv" s2 = 1%nat.
Proof.
  assert (QueueSpec.reachable processor.NewCSVProcessor) as H by apply rtc_refl.
  split; [exact H|]. split; [reflexivity|].
  exact (ProcessFile_idempotent processor.NewCSVProcessor _
           "/data/watch/20240101_120000.csv" H eq_refl).
Defined.

(** ** The retry loop of the Remote Update Client *)

Section Retry.
Import Go api RetrySpec.
Context (env : Env) (c : MagentoClient) {A : Type} (decode : string → error + A).

Lemma failed_DoResponse status body :
  failed (DoResponse status body) ↔ notSuccessful status = true.
Proof.
  unfold failed, notSuccessful. rewrite orb_true_iff, Z.ltb_lt, Z.geb_le. lia.
Qed.

Lemma count_Do_emit_Do s req :
  count_Do (trace (emit (EvDo req) s)) = S (count_Do (trace s)).
Proof.
  unfold emit, extend; cbn [trace]. rewrite count_Do_app.
  change (count_Do [EvDo req]) with 1%nat. lia.
Qed.

Lemma count_Do_emit_Sleep s d :
  count_Do (trace (emit (EvSleep d) s)) = count_Do (trace s).
Proof.
  unfold emit, extend; cbn [trace]. rewrite count_Do_app.
  change (count_Do [EvSleep d]) with 0%nat. lia.
Qed.

Lemma steps_cons_Do req evs : steps (EvDo req :: evs) = Attempt :: steps evs.
Proof. reflexivity. Qed.

Lemma steps_cons_Sleep d evs : steps (EvSleep d :: evs) = Sleep d :: steps evs.
Proof. reflexivity. Qed.

Lemma schedule_SS b attempt n :
  schedule b attempt (S (S n)) =
  Attempt :: Sleep (int_mul b attempt) :: schedule b (attempt + 1) (S n).
Proof. reflexivity. Qed.

(** One iteration of the loop, on an attempt that fails while attempts
    remain: the sleep, and the next iteration on some request. *)
Lemma doRequest_loop_retry n attempts req s :
  attempts + 1 < maxRetries c →
  failed (http_Do env (count_Do (trace s)) req) →
  ∃ req',
    doRequest_loop env c decode (S n) attempts req s =
    doRequest_loop env c decode n (attempts + 1) req'
      (extend s [EvDo req; EvSleep (int_mul (backoff c) (attempts + 1))]).
Proof.
  intros Hlt Hfail. cbn [doRequest_loop]. unfold bind at 1, httpClient_Do.
  apply Z.ltb_lt in Hlt.
  destruct (http_Do env (count_Do (trace s)) req) as [err|status body].
  - rewrite Hlt. unfold bind, time_Sleep, tell, emit.
    rewrite extend_extend. eauto.
  - apply failed_DoResponse in Hfail. rewrite Hfail, Hlt.
    unfold bind, time_Sleep, tell, emit. rewrite extend_extend. eauto.
Qed.

(** Every attempt fails: the loop uses up its iterations. *)
Lemma doRequest_loop_exhausted n : ∀ attempts req s,
  Z.of_nat (S n) = maxRetries c - attempts →
  (∀ i r, (i ≤ n)%nat → failed (http_Do env (count_Do (trace s) + i) r)) →
  ∃ e evs,
    doRequest_loop env c decode (S n) attempts req s = Ok (inl e) (extend s evs) ∧
    TransportError e ∧
    steps evs = schedule (backoff c) (attempts + 1) (S n).
Proof.
  induction n as [|n IH]; intros attempts req s Hn Hfail.
  - pose proof (Hfail 0%nat req ltac:(lia)) as H0.
    rewrite Nat.add_0_r in H0.
    assert ((attempts + 1 <? maxRetries c) = false) as Hlast by (apply Z.ltb_ge; lia).
    cbn [doRequest_loop]. unfold bind, httpClient_Do, emit.
    destruct (http_Do env (count_Do (trace s)) req) as [err|status body].
    + rewrite Hlast. eexists _, [EvDo req]. by repeat split.
    + apply failed_DoResponse in H0. rewrite H0, Hlast.
      eexists _, [EvDo req]. by repeat split.
  - pose proof (Hfail 0%nat req ltac:(lia)) as H0.
    rewrite Nat.add_0_r in H0.
    destruct (doRequest_loop_retry (S n) attempts req s ltac:(lia) H0) as [req' ->].
    destruct (IH (attempts + 1) req'
                (extend s [EvDo req; EvSleep (int_mul (backoff c) (attempts + 1))]))
      as (e & evs & Hrun & He & Hsteps).
    + lia.
    + intros i r Hi. unfold extend; cbn [trace]. rewrite count_Do_app.
      change (count_Do [EvDo req; EvSleep _]) with 1%nat.
      replace (count_Do (trace s) + 1 + i)%nat with (count_Do (trace s) + S i)%nat by lia.
      apply Hfail. lia.
    + exists e, ([EvDo req; EvSleep (int_mul (backoff c) (attempts + 1))] ++ evs)%list.
      rewrite Hrun, extend_extend. repeat split; [exact He|].
      cbn [app]. by rewrite steps_cons_Do, steps_cons_Sleep, Hsteps, schedule_SS.
Qed.

(** The first [k] attempts fail and the next one succeeds: the loop
    returns what the response decodes to, after [k + 1] attempts. *)
Lemma doRequest_loop_succeeds k : ∀ n attempts req s status body,
  Z.of_nat (S n) = maxRetries c - attempts →
  (k ≤ n)%nat →
  (∀ i r, (i < k)%nat → failed (http_Do env (count_Do (trace s) + i) r)) →
  (∀ r, http_Do env (count_Do (trace s) + k) r = DoResponse status body) →
  200 ≤ status ≤ 299 →
  ∃ evs,
    doRequest_loop env c decode (S n) attempts req s = Ok (decode body) (extend s evs) ∧
    steps evs = schedule (backoff c) (attempts + 1) (S k).
Proof.
  induction k as [|k IH]; intros n attempts req s status body Hn Hk Hfail Hok Hstatus.
  - specialize (Hok req). rewrite Nat.add_0_r in Hok.
    cbn [doRequest_loop]. unfold bind, httpClient_Do, emit. rewrite Hok.
    assert (notSuccessful status = false) as ->.
    { unfold notSuccessful. apply orb_false_iff.
      rewrite Z.ltb_ge, Z.geb_leb, Z.leb_gt. lia. }
    exists [EvDo req]. by split.
  - destruct n as [|n]; [lia|].
    pose proof (Hfail 0%nat req ltac:(lia)) as H0.
    rewrite Nat.add_0_r in H0.
    destruct (doRequest_loop_retry (S n) attempts req s ltac:(lia) H0) as [req' ->].
    destruct (IH n (attempts + 1) req'
                (extend s [EvDo req; EvSleep (int_mul (backoff c) (attempts + 1))])
                status body)
      as (evs & Hrun & Hsteps).
    + lia.
    + lia.
    + intros i r Hi. unfold extend; cbn [trace]. rewrite count_Do_app.
      change (count_Do [EvDo req; EvSleep _]) with 1%nat.
      replace (count_Do (trace s) + 1 + i)%nat with (count_Do (trace s) + S i)%nat by lia.
      apply Hfail. lia.
    + intros r. unfold extend; cbn [trace]. rewrite count_Do_app.
      change (count_Do [EvDo req; EvSleep _]) with 1%nat.
      replace (count_Do (trace s) + 1 + k)%nat with (count_Do (trace s) + S k)%nat by lia.
      apply Hok.
    + exact Hstatus.
    + exists ([EvDo req; EvSleep (int_mul (backoff c) (attempts + 1))] ++ evs)%list.
      rewrite Hrun, extend_extend. split; [reflexivity|].
      cbn [app]. by rewrite steps_cons_Do, steps_cons_Sleep, Hsteps, schedule_SS.
Qed.

(** The schedule has as many attempts as asked. *)
Lemma schedule_attempts backoff n : ∀ attempt,
  length (List.filter (fun st => match st with Attempt => true | _ => false end)
            (schedule backoff attempt n)) = n.
Proof.
  induction n as [|n IH]; intros attempt; [reflexivity|].
  cbn [schedule]. destruct n as [|n]; [reflexivity|].
  cbn [List.filter length]. by rewrite IH.
Qed.

Lemma steps_count_Do evs :
  length (List.filter (fun st => match st with Attempt => true | _ => false end)
            (steps evs)) = count_Do evs.
Proof.
  unfold steps, count_Do.
  induction evs as [|[] evs IH]; simpl; auto.
Qed.

End Retry.

(** A product of durations that does not overflow is the exact product. *)
Lemma int_mul_exact (a b : Z) :
  - 2 ^ 63 ≤ a * b < 2 ^ 63 → Go.int_mul a b = a * b.
Proof.
  intros H. unfold Go.int_mul, Go.wrap64.
  rewrite Z.mod_small; lia.
Qed.

(** As long as the products fit in a [time.Duration], the sleeps are
    [backoff], [2 * backoff], ... exactly. *)
Lemma schedule_linear (backoff : Z) (n : nat) : ∀ attempt,
  0 ≤ backoff → 0 < attempt →
  backoff * (attempt + Z.of_nat n - 1) < 2 ^ 63 →
  RetrySpec.schedule backoff attempt n = RetrySpec.linear backoff attempt n.
Proof.
  induction n as [|n IH]; intros attempt Hb Ha Hfit; [reflexivity|].
  cbn [RetrySpec.schedule RetrySpec.linear]. destruct n as [|n]; [reflexivity|].
  rewrite int_mul_exact by nia.
  rewrite IH; [reflexivity | lia | lia | ].
  replace (attempt + 1 + Z.of_nat (S n) - 1) with (attempt + Z.of_nat (S (S n)) - 1) by lia.
  exact Hfit.
Qed.

(** C2. When every attempt of an operation fails (transport error, or
    status outside 200-299), [doRequest] makes exactly [maxRetries]
    attempts, sleeps [backoff * attemptNumber] after each of them but the
    last, and returns a transport error.  When an attempt succeeds after
    [k] failed ones, [doRequest] returns what the response decodes to,
    having made [k + 1] attempts and no more.  The sleeps are products of
    [time.Duration]s; they are [backoff], [2 * backoff], ... exactly when
    [backoff * maxRetries] fits in a [time.Duration]. *)
Theorem doRequest_retries (env : Env) (c : api.MagentoClient) (A : Type)
    (decode : string → Go.error + A) (req : Request) (s : State) :
  0 ≤ api.maxRetries c →
  let sent := count_Do (trace s) in
  ((∀ i r, Z.of_nat i < api.maxRetries c → RetrySpec.failed (http_Do env (sent + i) r)) →
   ∃ e evs,
     api.doRequest env c decode req s = Ok (inl e) (extend s evs) ∧
     RetrySpec.TransportError e ∧
     RetrySpec.steps evs =
       RetrySpec.schedule (api.backoff c) 1 (Z.to_nat (api.maxRetries c)) ∧
     Z.of_nat (count_Do evs) = api.maxRetries c)
  ∧
  (∀ k status body,
     Z.of_nat k < api.maxRetries c →
     (∀ i r, (i < k)%nat → RetrySpec.failed (http_Do env (sent + i) r)) →
     (∀ r, http_Do env (sent + k) r = DoResponse status body) →
     200 ≤ status ≤ 299 →
     ∃ evs,
       api.doRequest env c decode req s = Ok (decode body) (extend s evs) ∧
       RetrySpec.steps evs = RetrySpec.schedule (api.backoff c) 1 (S k) ∧
       count_Do evs = S k)
  ∧
  (0 ≤ api.backoff c → api.backoff c * api.maxRetries c < 2 ^ 63 →
   ∀ n, Z.of_nat n ≤ api.maxRetries c →
     RetrySpec.schedule (api.backoff c) 1 n = RetrySpec.linear (api.backoff c) 1 n).
Proof.
  intros Hmax sent. unfold api.doRequest. rewrite Z.sub_0_r.
  split; [|split].
  3:{ intros Hb Hfit n Hn. apply schedule_linear; [done | lia | nia]. }
  - intros Hfail.
    destruct (Z.to_nat (api.maxRetries c)) as [|n] eqn:En.
    + exists (Go.errorString "max retries exceeded"), [].
      rewrite extend_nil. repeat split. cbn. lia.
    + destruct (doRequest_loop_exhausted env c decode n 0 req s ltac:(lia))
        as (e & evs & Hrun & He & Hsteps).
      { intros i r Hi. apply Hfail. lia. }
      exists e, evs. repeat split; try assumption.
      rewrite <- steps_count_Do, Hsteps, schedule_attempts. lia.
  - intros k status body Hk Hfail Hok Hstatus.
    destruct (Z.to_nat (api.maxRetries c)) as [|n] eqn:En; [lia|].
    destruct (doRequest_loop_succeeds env c decode k n 0 req s status body)
      as (evs & Hrun & Hsteps); try assumption; try lia.
    exists evs. repeat split; try assumption.
    by rewrite <- steps_count_Do, Hsteps, schedule_attempts.
Qed.

Lemma doRequest_retries_witness :
  0 ≤ api.maxRetries Demo.client ∧
  (∃ e evs,
     api.doRequest Demo.down Demo.client Demo.decode_orders Demo.get
       processor.NewCSVProcessor = Ok (inl e) (extend processor.NewCSVProcessor evs) ∧
     RetrySpec.TransportError e ∧
     RetrySpec.steps evs =
       [RetrySpec.Attempt; RetrySpec.Sleep 1000000000;
        RetrySpec.Attempt; RetrySpec.Sleep 2000000000; RetrySpec.Attempt] ∧
     Z.of_nat (count_Do evs) = 3) ∧
  (∃ evs,
     api.doRequest Demo.flaky Demo.client Demo.decode_orders Demo.get
       processor.NewCSVProcessor =
       Ok (Demo.decode_orders "ok") (extend processor.NewCSVProcessor evs) ∧
     RetrySpec.steps evs =
       [RetrySpec.Attempt; RetrySpec.Sleep 1000000000; RetrySpec.Attempt] ∧
     count_Do evs = 2%nat).
Proof.
  assert (0 ≤ api.maxRetries Demo.client) as H by (simpl; lia).
  split; [exact H|]. split.
  - apply (proj1 (doRequest_retries Demo.down Demo.client _ Demo.decode_orders
                    Demo.get processor.NewCSVProcessor H)).
    intros i r _. exact I.
  - apply (proj1 (proj2 (doRequest_retries Demo.flaky Demo.client _ Demo.decode_orders
                    Demo.get processor.NewCSVProcessor H)) 1%nat 200 "ok").
    + simpl. lia.
    + intros i r Hi. assert (i = 0%nat) as -> by lia. simpl. lia.
    + intros r. reflexivity.
    + lia.
Defined.

(** ** The Directory Watcher *)

Section Watcher.
Import Go file WatcherSpec.
Context (env : Env) (w : Watcher).

Lemma count_Stat_extend s evs :
  count_Stat (trace (extend s evs)) = (count_Stat (trace s) + count_Stat evs)%nat.
Proof. unfold extend; cbn [trace]. apply count_Stat_app. Qed.

Lemma isTargetFile_run path s :
  isTargetFile env w path s =
  Ok (target env w (count_Stat (trace s)) path) (extend s [EvStat path]).
Proof.
  unfold isTargetFile, target, Stat, bind, ret, emit.
  destruct (os_Stat env (count_Stat (trace s)) path) as [info|]; [|reflexivity].
  by destruct (IsDir info).
Qed.

(** The three ways [isFileReady] ends, by the two observations. *)
Lemma isFileReady_run path s :
  let n := count_Stat (trace s) in
  isFileReady env w path s =
  match os_Stat env n path with
  | None => Ok false (extend s [EvStat path])
  | Some initialInfo =>
      match os_Stat env (S n) path with
      | None => Ok false (extend s [EvStat path; EvSleep (1 * Second); EvStat path])
      | Some currentInfo =>
          Ok ((Size initialInfo =? Size currentInfo)
              && (ModTime initialInfo =? ModTime currentInfo))
             (extend s [EvStat path; EvSleep (1 * Second); EvStat path])
      end
  end.
Proof.
  intros n. subst n.
  unfold isFileReady, Stat, bind, ret, time_Sleep, tell, emit.
  destruct (os_Stat env (count_Stat (trace s)) path) as [i1|]; [|reflexivity].
  rewrite !extend_extend, count_Stat_extend.
  change (count_Stat ([EvStat path] ++ [EvSleep (1 * Second)])) with 1%nat.
  rewrite Nat.add_1_r.
  destruct (os_Stat env (S (count_Stat (trace s))) path) as [i2|]; reflexivity.
Qed.

Lemma isFileReady_true path s s' :
  isFileReady env w path s = Ok true s' →
  stable (os_Stat env (count_Stat (trace s)) path)
         (os_Stat env (S (count_Stat (trace s))) path) ∧
  s' = extend s [EvStat path; EvSleep (1 * Second); EvStat path].
Proof.
  rewrite isFileReady_run. cbv zeta.
  destruct (os_Stat env (count_Stat (trace s)) path) as [i1|]; [|discriminate].
  destruct (os_Stat env (S (count_Stat (trace s))) path) as [i2|]; [|discriminate].
  intros [= Heq <-]. apply andb_true_iff in Heq as [H1%Z.eqb_eq H2%Z.eqb_eq].
  split; [|reflexivity]. by exists i1, i2.
Qed.

Lemma isFileReady_unstable path s :
  ¬ stable (os_Stat env (count_Stat (trace s)) path)
           (os_Stat env (S (count_Stat (trace s))) path) →
  ∃ evs, isFileReady env w path s = Ok false (extend s evs) ∧ dispatched evs = [].
Proof.
  intros Hns. rewrite isFileReady_run. cbv zeta.
  destruct (os_Stat env (count_Stat (trace s)) path) as [i1|] eqn:E1; [|by eexists].
  destruct (os_Stat env (S (count_Stat (trace s))) path) as [i2|] eqn:E2; [|by eexists].
  destruct ((Size i1 =? Size i2) && (ModTime i1 =? ModTime i2)) eqn:E; [|by eexists].
  apply andb_true_iff in E as [H1%Z.eqb_eq H2%Z.eqb_eq].
  exfalso. apply Hns. by exists i1, i2.
Qed.

(** What [ProcessFile] adds to the trace, whether it returns or panics. *)
Lemma ProcessFile_trace path s :
  trace (state_of (processor.ProcessFile path s)) = (trace s ++ [EvProcessFile path])%list.
Proof.
  unfold processor.ProcessFile, bind, tell, emit. simpl.
  destruct (default false (processedFiles s !! path)); [reflexivity|].
  destruct (closed (workChan s)); reflexivity.
Qed.

(** A detection cycle either ends without a call of the processor, or
    saw a stable file and hands it over after the five effects of the
    cycle. *)
Lemma handleEvent_cases event s :
  let n := count_Stat (trace s) in
  (∃ evs, handleEvent env w event s = Ok tt (extend s evs) ∧ dispatched evs = [] ∧
          ¬ (evs = cycle (Name event) ∧
             stable (os_Stat env (S n) (Name event)) (os_Stat env (S (S n)) (Name event))))
  ∨
  (stable (os_Stat env (S n) (Name event)) (os_Stat env (S (S n)) (Name event)) ∧
   handleEvent env w event s =
     processor.ProcessFile (Name event) (extend s (cycle (Name event)))).
Proof.
  intros n. unfold handleEvent, bind.
  destruct (Z.land (Op event) (Z.lor Create Write) =? 0).
  { left. exists []. rewrite extend_nil. repeat split. intros [[=] _]. }
  rewrite isTargetFile_run.
  destruct (target env w (count_Stat (trace s)) (Name event)); cbn [negb].
  2:{ left. eexists. repeat split. intros [[=] _]. }
  unfold time_Sleep, tell, emit. rewrite extend_extend.
  set (s1 := extend s _).
  assert (count_Stat (trace s1) = S n) as Hn1.
  { unfold s1. rewrite count_Stat_extend. subst n.
    change (count_Stat ([EvStat (Name event)] ++ [EvSleep (500 * Millisecond)]))
      with 1%nat. lia. }
  rewrite isFileReady_run. cbv zeta. rewrite Hn1.
  destruct (os_Stat env (S n) (Name event)) as [i1|] eqn:E1.
  2:{ left. unfold s1. rewrite extend_extend. eexists. repeat split.
      intros [[=] _]. }
  destruct (os_Stat env (S (S n)) (Name event)) as [i2|] eqn:E2.
  2:{ left. unfold s1. rewrite extend_extend. eexists. repeat split.
      intros [_ (? & ? & _ & [=] & _)]. }
  destruct ((Size i1 =? Size i2) && (ModTime i1 =? ModTime i2)) eqn:E; cbn [negb].
  - right. apply andb_true_iff in E as [H1%Z.eqb_eq H2%Z.eqb_eq].
    split; [by exists i1, i2|]. unfold s1. by rewrite extend_extend.
  - left. unfold s1. rewrite extend_extend. eexists. repeat split.
    intros [_ (? & ? & [= <-] & [= <-] & Hsz & Hmt)].
    apply andb_false_iff in E as [E%Z.eqb_neq|E%Z.eqb_neq]; contradiction.
Qed.

End Watcher.

(** C8. In a detection cycle, let the two observations of [isFileReady] be
    the stats number [n + 1] and [n + 2].  If they differ in size or in
    modification time, [handleEvent] returns without calling the processor.
    And whenever [handleEvent] calls the processor, it is on the path of the
    event, after both stats succeeded with equal size and modification
    time, one second apart. *)
Theorem unstable_file_not_dispatched (env : Env) (w : file.Watcher)
    (event : file.FsEvent) (s : State) :
  let n := count_Stat (trace s) in
  let first := os_Stat env (S n) (file.Name event) in
  let second := os_Stat env (S (S n)) (file.Name event) in
  (∀ info1 info2,
     first = Some info1 → second = Some info2 →
     Size info1 ≠ Size info2 ∨ ModTime info1 ≠ ModTime info2 →
     ∃ evs, file.handleEvent env w event s = Ok tt (extend s evs) ∧
            WatcherSpec.dispatched evs = []) ∧
  (∀ evs path,
     trace (state_of (file.handleEvent env w event s)) = (trace s ++ evs)%list →
     path ∈ WatcherSpec.dispatched evs →
     path = file.Name event ∧
     WatcherSpec.stable first second ∧
     evs = (WatcherSpec.cycle (file.Name event) ++ [EvProcessFile (file.Name event)])%list).
Proof.
  intros n first second.
  destruct (handleEvent_cases env w event s) as [(evs' & Hrun & Hd & _)|[Hstable Hrun]];
    fold n in Hrun; rewrite Hrun.
  - split.
    + intros. by exists evs'.
    + intros evs path Htr Hin. cbn [state_of] in Htr.
      unfold extend in Htr; cbn [trace] in Htr. apply app_inv_head in Htr as <-.
      rewrite Hd in Hin. by apply elem_of_nil in Hin.
  - fold n first second in Hstable. split.
    + intros info1 info2 H1 H2 Hdiff. exfalso.
      destruct Hstable as (i1 & i2 & E1 & E2 & Hsz & Hmt).
      rewrite H1 in E1. rewrite H2 in E2.
      injection E1 as <-. injection E2 as <-. tauto.
    + intros evs path Htr Hin.
      rewrite ProcessFile_trace in Htr. unfold extend in Htr; cbn [trace] in Htr.
      rewrite <- app_assoc in Htr. apply app_inv_head in Htr as <-.
      split; [|split; [exact Hstable | reflexivity]].
      unfold WatcherSpec.dispatched in Hin. rewrite omap_app in Hin.
      cbn in Hin. by apply list_elem_of_singleton in Hin.
Qed.

(** ** Paths and file names *)

Section Paths.
Import Go WatcherSpec.

Lemma append_cons a s t : String a s +:+ t = String a (s +:+ t).
Proof. reflexivity. Qed.

Lemma append_nil_l s : "" +:+ s = s.
Proof. reflexivity. Qed.

Lemma append_nil_r s : s +:+ "" = s.
Proof.
  induction s as [|a s IH]; [reflexivity|]. by rewrite append_cons, IH.
Qed.

Lemma append_assoc s1 s2 s3 : (s1 +:+ s2) +:+ s3 = s1 +:+ (s2 +:+ s3).
Proof.
  induction s1 as [|a s1 IH]; [reflexivity|]. by rewrite !append_cons, IH.
Qed.

Lemma rev_app_append s1 : ∀ s2, String.rev_app s1 s2 = String.rev s1 +:+ s2.
Proof.
  unfold String.rev. induction s1 as [|a s1 IH]; intros s2; [reflexivity|].
  cbn [String.rev_app].
  rewrite (IH (String a s2)), (IH (String a "")), append_assoc. reflexivity.
Qed.

Lemma rev_cons a s : String.rev (String a s) = String.rev s +:+ String a "".
Proof. unfold String.rev at 1. cbn [String.rev_app]. apply rev_app_append. Qed.

Lemma rev_append s1 s2 : String.rev (s1 +:+ s2) = String.rev s2 +:+ String.rev s1.
Proof.
  induction s1 as [|a s1 IH].
  - rewrite append_nil_l. change (String.rev "") with "". by rewrite append_nil_r.
  - by rewrite append_cons, !rev_cons, IH, append_assoc.
Qed.

Lemma rev_involutive s : String.rev (String.rev s) = s.
Proof.
  induction s as [|a s IH]; [reflexivity|].
  by rewrite rev_cons, rev_append, IH.
Qed.

Lemma rev_empty s : String.rev s = "" → s = "".
Proof. intros H. by rewrite <- (rev_involutive s), H. Qed.

Lemma hasSlash_append s1 s2 : hasSlash (s1 +:+ s2) = hasSlash s1 || hasSlash s2.
Proof.
  induction s1 as [|a s1 IH]; [reflexivity|].
  rewrite append_cons. cbn [hasSlash]. by rewrite IH, orb_assoc.
Qed.

Lemma hasSlash_rev s : hasSlash (String.rev s) = hasSlash s.
Proof.
  induction s as [|a s IH]; [reflexivity|].
  rewrite rev_cons, hasSlash_append, IH. cbn [hasSlash].
  rewrite orb_false_r. apply orb_comm.
Qed.

Lemma untilSlash_append s rest :
  hasSlash s = false → untilSlash (s +:+ "/" +:+ rest) = s.
Proof.
  induction s as [|a s IH]; [reflexivity|].
  rewrite append_cons. cbn [hasSlash untilSlash].
  intros [Ha Hs]%orb_false_iff. rewrite Ha. f_equal. auto.
Qed.

Lemma fromSlash_append s rest :
  hasSlash s = false → fromSlash (s +:+ "/" +:+ rest) = "/" +:+ rest.
Proof.
  induction s as [|a s IH]; [reflexivity|].
  rewrite append_cons. cbn [hasSlash fromSlash].
  intros [Ha Hs]%orb_false_iff. rewrite Ha. auto.
Qed.

(** A path made of a directory, a separator and a name splits there. *)
Lemma Split_cat dir file :
  hasSlash file = false → Split (dir +:+ "/" +:+ file) = (dir +:+ "/", file).
Proof.
  intros Hfile. unfold Split.
  rewrite !rev_append. change (String.rev "/") with "/". rewrite append_assoc.
  rewrite untilSlash_append, fromSlash_append by (by rewrite hasSlash_rev).
  rewrite rev_involutive. change "/" with (String.rev "/") at 1.
  by rewrite <- rev_append, rev_involutive.
Qed.

Lemma cleanGlobPath_dir dir : dir ≠ "" → cleanGlobPath (dir +:+ "/") = dir.
Proof.
  intros Hdir. unfold cleanGlobPath.
  destruct dir as [|a dir]; [done|]. rewrite append_cons.
  assert (String.eqb (String a (dir +:+ "/")) "" = false) as -> by reflexivity.
  assert (String.eqb (String a (dir +:+ "/")) "/" = false) as ->.
  { apply String.eqb_neq. intros H. injection H as _ H.
    destruct dir; discriminate H. }
  rewrite <- append_cons, rev_append. change (String.rev "/") with "/".
  change ("/" +:+ String.rev (String a dir)) with (String "/" (String.rev (String a dir))).
  cbv iota. apply rev_involutive.
Qed.

(** The base name of such a path is the name. *)
Lemma Base_cat dir name :
  name ≠ "" → hasSlash name = false → Base (dir +:+ "/" +:+ name) = name.
Proof.
  intros Hne Hname. unfold Base.
  assert (String.eqb (dir +:+ "/" +:+ name) "" = false) as ->.
  { apply String.eqb_neq. intros H. destruct dir; discriminate H. }
  rewrite !rev_append. change (String.rev "/") with "/". rewrite append_assoc.
  assert (hasSlash (String.rev name) = false) as Hrev by (by rewrite hasSlash_rev).
  assert (dropSlashes (String.rev name +:+ "/" +:+ String.rev dir)
          = String.rev name +:+ "/" +:+ String.rev dir) as ->.
  { destruct (String.rev name) as [|a r] eqn:E.
    - by apply rev_empty in E.
    - rewrite append_cons. cbn [hasSlash dropSlashes] in *.
      apply orb_false_iff in Hrev as [-> _]. reflexivity. }
  rewrite untilSlash_append, rev_involutive by done.
  apply String.eqb_neq in Hne. by rewrite Hne.
Qed.

(** *** [filepath.Clean] and [filepath.Join] on a clean directory *)

Lemma elements_nonempty path : elements path ≠ [].
Proof.
  destruct path as [|c path]; [done|]. cbn [elements].
  destruct (Ascii.eqb c "/"); [done|]. by destruct (elements path).
Qed.

Lemma elements_cat a b : elements (a +:+ "/" +:+ b) = (elements a ++ elements b)%list.
Proof.
  induction a as [|c a IH]; [reflexivity|].
  rewrite append_cons. cbn [elements]. rewrite IH.
  destruct (Ascii.eqb c "/"); [reflexivity|].
  pose proof (elements_nonempty a) as Ha.
  destruct (elements a) as [|e es]; [done|]. reflexivity.
Qed.

Lemma elements_plain name : hasSlash name = false → elements name = [name].
Proof.
  induction name as [|c name IH]; [reflexivity|]. cbn [hasSlash elements].
  intros [-> Hname]%orb_false_iff. by rewrite IH.
Qed.

Lemma joinElements_snoc es e :
  es ≠ [] → joinElements (es ++ [e]) = joinElements es +:+ "/" +:+ e.
Proof.
  induction es as [|x es IH]; [done|]. intros _.
  destruct es as [|y es]; [reflexivity|].
  change (joinElements ((x :: y :: es) ++ [e]))
    with (x +:+ "/" +:+ joinElements ((y :: es) ++ [e])).
  rewrite IH by done.
  change (joinElements (x :: y :: es)) with (x +:+ "/" +:+ joinElements (y :: es)).
  by rewrite !append_assoc.
Qed.

(** The name of an entry of a directory: not empty, no separator, and
    neither [.] nor [..]. *)
Lemma Clean_cat dir name :
  Clean dir = dir → dir ≠ "." → dir ≠ "/" →
  plainName name → name ≠ "." → name ≠ ".." →
  Clean (dir +:+ "/" +:+ name) = dir +:+ "/" +:+ name.
Proof.
  intros Hclean Hdot Hroot [Hne Hslash] Hn1 Hn2.
  destruct dir as [|c dir]; [discriminate Hclean|].
  unfold Clean in *. rewrite append_cons.
  rewrite <- append_cons, elements_cat, (elements_plain name Hslash), fold_left_app.
  set (rooted := Ascii.eqb c "/") in *.
  set (out := fold_left (cleanStep rooted) (elements (String c dir)) []) in *.
  cbn [fold_left]. unfold cleanStep.
  apply String.eqb_neq in Hne, Hn1, Hn2. rewrite Hne, Hn1, Hn2. cbn [orb].
  cbn [List.rev].
  destruct rooted.
  - destruct (List.rev out) as [|x xs] eqn:E.
    { exfalso. apply Hroot. rewrite <- Hclean. reflexivity. }
    rewrite joinElements_snoc by done. rewrite <- Hclean.
    by rewrite !append_assoc.
  - destruct (List.rev out) as [|x xs] eqn:E.
    { exfalso. apply Hdot. by rewrite <- Hclean. }
    rewrite joinElements_snoc by done. rewrite <- Hclean.
    destruct ((x :: xs) ++ [name])%list eqn:E'; [by destruct xs|]. reflexivity.
Qed.

Lemma Join_cat dir name :
  Clean dir = dir → dir ≠ "." → dir ≠ "/" →
  plainName name → name ≠ "." → name ≠ ".." →
  Join dir name = dir +:+ "/" +:+ name.
Proof.
  intros Hclean Hdot Hroot Hplain Hn1 Hn2. unfold Join.
  destruct dir as [|c dir]; [discriminate Hclean|].
  cbn [String.eqb negb]. by apply Clean_cat.
Qed.

(** [Join] ignores an empty element and cleans what it is given. *)
Lemma Join_cleans :
  Join "" "a.csv" = "a.csv" ∧
  Join "./failed" "a.csv" = "failed/a.csv" ∧
  Join "/data/failed/" "a.csv" = "/data/failed/a.csv" ∧
  Join "/data//failed" "a.csv" = "/data/failed/a.csv" ∧
  Join "/data/failed/.." "a.csv" = "/data/a.csv" ∧
  Join "/" "a.csv" = "/a.csv" ∧
  Join "." "a.csv" = "a.csv".
Proof. repeat split; vm_compute; reflexivity. Qed.

(** A pattern of literal characters matches itself only. *)
Lemma Match_literal pattern : ∀ name,
  hasStar pattern = false → Match pattern name = String.eqb name pattern.
Proof.
  induction pattern as [|p pattern IH]; intros name Hp.
  - by destruct name.
  - cbn [hasStar] in Hp. apply orb_false_iff in Hp as [Hp Hrest].
    cbn [Match]. rewrite Hp. destruct name as [|c name]; [reflexivity|].
    cbn [String.eqb]. rewrite IH by done. rewrite (Ascii.eqb_sym p c).
    by destruct (Ascii.eqb c p).
Qed.

Lemma Match_star_nil pattern :
  Match (String "*" pattern) "" = Match pattern "" || false.
Proof. reflexivity. Qed.

Lemma Match_star_cons pattern c name :
  Match (String "*" pattern) (String c name) =
  Match pattern (String c name)
  || (if Ascii.eqb c "/" then false else Match (String "*" pattern) name).
Proof. reflexivity. Qed.

(** On a name without separator, [*] followed by literal characters
    matches the names that end with these characters. *)
Lemma Match_star_suffix suffix : ∀ name,
  hasStar suffix = false → hasSlash name = false →
  Match (String "*" suffix) name = HasSuffix name suffix.
Proof.
  induction name as [|c name IH]; intros Hs Hn.
  - rewrite Match_star_nil, Match_literal by done. reflexivity.
  - cbn [hasSlash] in Hn. apply orb_false_iff in Hn as [Hc Hn].
    rewrite Match_star_cons, Match_literal, Hc, IH by done. reflexivity.
Qed.

End Paths.

(** ** The operations of the client return *)

Section ClientRuns.
Import Go model api RetrySpec.
Context (env : Env) (c : MagentoClient).

Lemma sameButBody_refl req : sameButBody req req.
Proof. by repeat split. Qed.

Lemma sameButBody_trans req1 req2 req3 :
  sameButBody req1 req2 → sameButBody req2 req3 → sameButBody req1 req3.
Proof.
  intros (M1 & U1 & H1 & B1 & S1) (M2 & U2 & H2 & B2 & S2).
  repeat split; try congruence.
  - intros Hb. specialize (B1 Hb). subst req2. auto.
  - auto.
Qed.

(** The loop always returns; its effects are round trips and sleeps, and
    every request it sends is the given one, up to the body. *)
Lemma doRequest_loop_runs {A} (decode : string → error + A) n :
  ∀ attempts req s,
  ∃ r evs,
    doRequest_loop env c decode n attempts req s = Ok r (extend s evs) ∧
    forallb isNet evs = true ∧
    Forall (sameButBody req) (requests evs) ∧
    head (requests evs) = match n with O => None | S _ => Some req end.
Proof.
  induction n as [|n IH]; intros attempts req s.
  - exists (inl (errorString "max retries exceeded")), [].
    rewrite extend_nil. by repeat split.
  - cbn [doRequest_loop]. unfold bind at 1, httpClient_Do, emit.
    assert (∀ req',
      sameButBody req req' →
      ∃ r evs,
        (time_Sleep (int_mul (backoff c) (attempts + 1)) ;;;
         doRequest_loop env c decode n (attempts + 1) req') (extend s [EvDo req])
        = Ok r (extend s evs) ∧
        forallb isNet evs = true ∧
        Forall (sameButBody req) (requests evs) ∧
        head (requests evs) = Some req) as Hretry.
    { intros req' Hsame.
      destruct (IH (attempts + 1) req'
                  (extend s [EvDo req; EvSleep (int_mul (backoff c) (attempts + 1))]))
        as (r & evs & Hrun & Hnet & Hreqs & _).
      exists r, ([EvDo req; EvSleep (int_mul (backoff c) (attempts + 1))] ++ evs)%list.
      unfold bind, time_Sleep, tell, emit. rewrite !extend_extend. cbn [app].
      rewrite Hrun, extend_extend. repeat split.
      - exact Hnet.
      - cbn. constructor; [apply sameButBody_refl|].
        eapply Forall_impl; [exact Hreqs|].
        intros x Hx. by apply (sameButBody_trans req req' x). }
    destruct (http_Do env (count_Do (trace s)) req) as [err|status body].
    + destruct (attempts + 1 <? maxRetries c).
      * apply Hretry, sameButBody_refl.
      * eexists _, [EvDo req]. repeat split.
        cbn. constructor; [apply sameButBody_refl|constructor].
    + destruct (notSuccessful status).
      * destruct (attempts + 1 <? maxRetries c).
        -- apply Hretry. destruct (Body req) eqn:Hb; [|apply sameButBody_refl].
           repeat split; cbn; [congruence|eauto].
        -- eexists _, [EvDo req]. repeat split.
           cbn. constructor; [apply sameButBody_refl|constructor].
      * eexists _, [EvDo req]. repeat split.
        cbn. constructor; [apply sameButBody_refl|constructor].
Qed.

Lemma doRequest_runs {A} (decode : string → error + A) req s :
  ∃ r evs,
    doRequest env c decode req s = Ok r (extend s evs) ∧
    forallb isNet evs = true ∧
    Forall (sameButBody req) (requests evs) ∧
    (∀ first, head (requests evs) = Some first → first = req).
Proof.
  unfold doRequest.
  destruct (doRequest_loop_runs decode (Z.to_nat (maxRetries c - 0)) 0 req s)
    as (r & evs & Hrun & Hnet & Hreqs & Hhead).
  exists r, evs. repeat split; try assumption.
  intros first Hfirst. rewrite Hfirst in Hhead.
  destruct (Z.to_nat (maxRetries c - 0)); congruence.
Qed.

Lemma sameButBody_no_body req req' :
  Body req = None → sameButBody req req' → req' = req.
Proof. intros Hb (_ & _ & _ & H & _). auto. Qed.

Lemma GetOrderByIncrementID_runs incrementID s :
  ∃ r evs,
    GetOrderByIncrementID env c incrementID s = Ok r (extend s evs) ∧
    forallb isNet evs = true ∧
    Forall (eq (orderRequest env c incrementID)) (requests evs).
Proof.
  unfold GetOrderByIncrementID, http_NewRequest. cbv zeta.
  destruct (url_Parse_ok env _).
  2:{ eexists _, []. rewrite extend_nil. by repeat split. }
  unfold bind.
  destruct (doRequest_runs (json_Decode_orders env)
              (orderRequest env c incrementID) s)
    as (r & evs & Hrun & Hnet & Hreqs & _).
  unfold orderRequest in Hrun. rewrite Hrun.
  assert (Forall (eq (orderRequest env c incrementID)) (requests evs)) as Heq.
  { eapply Forall_impl; [exact Hreqs|]. intros x Hx. symmetry.
    by apply (sameButBody_no_body (orderRequest env c incrementID)). }
  destruct r as [err|response]; [by eexists _, evs|].
  destruct ((Orders_Total response =? 0) || (len (Orders_Items response) =? 0)) eqn:E;
    [by eexists _, evs|].
  apply orb_false_iff in E as [_ E]. unfold len in E.
  destruct (Orders_Items response) as [|order items]; [discriminate E|].
  by eexists _, evs.
Qed.

Lemma GetShipmentsByOrderID_runs orderID s :
  ∃ r evs,
    GetShipmentsByOrderID env c orderID s = Ok r (extend s evs) ∧
    forallb isNet evs = true ∧
    Forall (eq (shipmentsRequest env c orderID)) (requests evs).
Proof.
  unfold GetShipmentsByOrderID, http_NewRequest. cbv zeta.
  destruct (url_Parse_ok env _).
  2:{ eexists _, []. rewrite extend_nil. by repeat split. }
  unfold bind.
  destruct (doRequest_runs (json_Decode_shipments env)
              (shipmentsRequest env c orderID) s)
    as (r & evs & Hrun & Hnet & Hreqs & _).
  unfold shipmentsRequest in Hrun. rewrite Hrun.
  assert (Forall (eq (shipmentsRequest env c orderID)) (requests evs)) as Heq.
  { eapply Forall_impl; [exact Hreqs|]. intros x Hx. symmetry.
    by apply (sameButBody_no_body (shipmentsRequest env c orderID)). }
  destruct r as [err|response]; [by eexists _, evs|].
  destruct ((Shipments_Total response =? 0) || (len (Shipments_Items response) =? 0));
    by eexists _, evs.
Qed.

(** The append sends nothing if the entry cannot be marshalled or the
    request cannot be built; otherwise its first request carries the
    entry, with the shipment as parent, and all its requests are POSTs to
    the track endpoint. *)
Lemma AddTrackingToShipment_runs shipmentID track s :
  ∃ r evs,
    AddTrackingToShipment env c shipmentID track s = Ok r (extend s evs) ∧
    forallb isNet evs = true ∧
    ∀ req, req ∈ requests evs →
      ∃ body,
        json_Marshal_entity env
          {| Track_OrderID := Track_OrderID track;
             Track_ParentID := shipmentID;
             Track_TrackNumber := Track_TrackNumber track;
             Track_Title := Track_Title track;
             Track_CarrierCode := Track_CarrierCode track |} = inr body ∧
        sameButBody (trackRequest c body) req ∧
        head (requests evs) = Some (trackRequest c body).
Proof.
  unfold AddTrackingToShipment. cbv zeta.
  destruct (json_Marshal_entity env _) as [err|body] eqn:Hbody.
  { eexists _, []. rewrite extend_nil. repeat split.
    intros req Hreq. by apply elem_of_nil in Hreq. }
  unfold http_NewRequest.
  destruct (url_Parse_ok env _).
  2:{ eexists _, []. rewrite extend_nil. repeat split.
      intros req Hreq. by apply elem_of_nil in Hreq. }
  unfold bind.
  destruct (doRequest_runs (json_Decode_any env) (trackRequest c body) s)
    as (r & evs & Hrun & Hnet & Hreqs & Hhead).
  unfold trackRequest in Hrun. rewrite Hrun.
  assert (∀ req, req ∈ requests evs →
            ∃ body', @inr error string body = inr body' ∧ sameButBody (trackRequest c body') req ∧
                     head (requests evs) = Some (trackRequest c body')) as Hall.
  { intros req Hreq. exists body. split; [reflexivity|]. split.
    - by apply (proj1 (Forall_forall _ _) Hreqs).
    - destruct (requests evs) as [|first rest] eqn:E; [by apply elem_of_nil in Hreq|].
      cbn. f_equal. by apply Hhead. }
  destruct r as [err|[]]; by eexists _, evs.
Qed.




End ClientRuns.

(** ** The request of a retry *)

(** C3. A retry after an out-of-range status is not issued with the same
    request.  When the first attempt of a request with a body is answered
    with an unsuccessful status and attempts remain, the request that
    [doRequest] hands to [httpClient.Do] next has the body of that response
    as its [Body], while its [ContentLength] and its [GetBody] are still
    the ones that [http.NewRequest] recorded for the original body. *)
Theorem retry_body_is_response_body (env : Env) (c : api.MagentoClient) {A : Type}
    (decode : string → Go.error + A) (req : Request) (s : State)
    (original : string) (status : Z) (response : string) :
  Body req = Some original →
  1 < api.maxRetries c →
  http_Do env (count_Do (trace s)) req = DoResponse status response →
  api.notSuccessful status = true →
  ∃ r evs rest,
    api.doRequest env c decode req s = Ok r (extend s evs) ∧
    RetrySpec.requests evs
    = req
      :: {| Method := Method req; URL := URL req; Header := Header req;
            Body := Some response;
            ContentLength := ContentLength req; GetBody := GetBody req |}
      :: rest.
Proof.
  intros Hbody Hmax Hout Hstatus. unfold api.doRequest. rewrite Z.sub_0_r.
  destruct (Z.to_nat (api.maxRetries c)) as [|[|n]] eqn:Hn; [lia | lia |].
  remember (S n) as m eqn:Hm. cbn [api.doRequest_loop].
  unfold bind at 1, api.httpClient_Do, emit.
  rewrite Hout, Hstatus, Hbody.
  assert ((0 + 1 <? api.maxRetries c) = true) as -> by (apply Z.ltb_lt; lia).
  set (retry := {| Method := Method req; URL := URL req; Header := Header req;
                   Body := Some response;
                   ContentLength := ContentLength req; GetBody := GetBody req |}).
  destruct (doRequest_loop_runs env c decode m (0 + 1) retry
              (extend s [EvDo req; EvSleep (Go.int_mul (api.backoff c) (0 + 1))]))
    as (r & evs & Hrun & _ & _ & Hhead).
  unfold bind, time_Sleep, tell, emit. rewrite !extend_extend. cbn [app].
  rewrite Hrun, extend_extend. subst m.
  destruct (RetrySpec.requests evs) as [|first rest] eqn:Hreqs; [discriminate|].
  injection Hhead as ->.
  exists r, ([EvDo req; EvSleep (Go.int_mul (api.backoff c) (0 + 1))] ++ evs)%list, rest.
  split; [reflexivity|].
  change (RetrySpec.requests ([EvDo req; EvSleep (Go.int_mul (api.backoff c) (0 + 1))]
                              ++ evs))
    with (req :: RetrySpec.requests evs).
  by rewrite Hreqs.
Qed.

Lemma retry_body_is_response_body_witness :
  let entry :=
    "entity: order_id=7 parent_id=42 track_number=1ZX23456789 title=UPS carrier_code=ups" in
  let req := RetrySpec.trackRequest Demo.client entry in
  Body req = Some entry ∧
  1 < api.maxRetries Demo.client ∧
  http_Do Demo.flaky (count_Do (trace processor.NewCSVProcessor)) req
  = DoResponse 503 "Service Unavailable" ∧
  api.notSuccessful 503 = true ∧
  (∃ r evs rest,
     api.doRequest Demo.flaky Demo.client (json_Decode_any Demo.flaky) req
       processor.NewCSVProcessor
     = Ok r (extend processor.NewCSVProcessor evs) ∧
     RetrySpec.requests evs
     = req
       :: {| Method := Method req; URL := URL req; Header := Header req;
             Body := Some "Service Unavailable";
             ContentLength := ContentLength req; GetBody := GetBody req |}
       :: rest) ∧
  map (fun r => (Body r, ContentLength r, GetBody r))
    (RetrySpec.requests (trace (state_of
       (api.AddTrackingToShipment Demo.flaky Demo.client 42 Demo.track
          processor.NewCSVProcessor))))
  = [(Some entry, 83, Some entry); (Some "Service Unavailable", 83, Some entry)] ∧
  Z.of_nat (String.length "Service Unavailable") = 19.
Proof.
  intros entry req.
  assert (1 < api.maxRetries Demo.client) as Hmax by (cbn; lia).
  split; [reflexivity|]. split; [exact Hmax|].
  split; [reflexivity|]. split; [reflexivity|]. split.
  - exact (retry_body_is_response_body Demo.flaky Demo.client
             (json_Decode_any Demo.flaky) req processor.NewCSVProcessor
             entry 503 "Service Unavailable" eq_refl Hmax eq_refl eq_refl).
  - split; vm_compute; reflexivity.
Defined.

(** ** The orchestration of a row *)

Section Row.
Import Go model api processor RetrySpec.
Context (env : Env) (p : CSVProcessor).

(** [processRow] on a row whose four fields are there and valid: the
    three operations in sequence. *)
Lemma processRow_valid row indices o t c ti :
  index row (orderNumber indices) = Some o →
  index row (trackingNumber indices) = Some t →
  index row (carrierCode indices) = Some c →
  index row (title indices) = Some ti →
  let info := {| OrderNumber := o; TrackingNumber := t; CarrierCode := c; Title := ti |} in
  Validate info = None →
  processRow env p row indices =
  (r <- GetOrderByIncrementID env (magentoClient p) o ;;
   match r with
   | inl err => ret (Some (wrapError "failed to get order" err))
   | inr order =>
       r <- GetShipmentsByOrderID env (magentoClient p) (Order_EntityID order) ;;
       match r with
       | inl err => ret (Some (wrapError "failed to get shipments" err))
       | inr [] => ret None
       | inr (shipment :: _) =>
           r <- AddTrackingToShipment env (magentoClient p) (Shipment_EntityID shipment)
                  (trackOf info (Order_EntityID order) 0) ;;
           match r with
           | Some err => ret (Some (wrapError "failed to add tracking" err))
           | None => ret None
           end
       end
   end).
Proof.
  intros Ho Ht Hc Hti info Hvalid. unfold processRow.
  rewrite Ho, Ht, Hc, Hti. fold info. by rewrite Hvalid.
Qed.

(** [processRow] returns on every row that has the four fields. *)
Lemma processRow_runs row indices s :
  is_Some (index row (orderNumber indices)) →
  is_Some (index row (trackingNumber indices)) →
  is_Some (index row (carrierCode indices)) →
  is_Some (index row (title indices)) →
  ∃ r evs,
    processRow env p row indices s = Ok r (extend s evs) ∧
    forallb isNet evs = true.
Proof.
  intros [o Ho] [t Ht] [c Hc] [ti Hti].
  destruct (Validate {| OrderNumber := o; TrackingNumber := t;
                        CarrierCode := c; Title := ti |}) as [err|] eqn:Hvalid.
  { unfold processRow. rewrite Ho, Ht, Hc, Hti, Hvalid.
    eexists _, []. by rewrite extend_nil. }
  rewrite (processRow_valid row indices o t c ti Ho Ht Hc Hti Hvalid).
  unfold bind.
  destruct (GetOrderByIncrementID_runs env (magentoClient p) o s)
    as (r1 & evs1 & -> & Hnet1 & _).
  destruct r1 as [err|order]; [by eexists _, evs1|].
  destruct (GetShipmentsByOrderID_runs env (magentoClient p) (Order_EntityID order)
              (extend s evs1)) as (r2 & evs2 & -> & Hnet2 & _).
  rewrite extend_extend.
  assert (forallb isNet (evs1 ++ evs2) = true) as Hnet12
    by (rewrite forallb_app, Hnet1, Hnet2; reflexivity).
  destruct r2 as [err|[|shipment rest]]; [by eexists _, (evs1 ++ evs2)%list..|].
  destruct (AddTrackingToShipment_runs env (magentoClient p) (Shipment_EntityID shipment)
              (trackOf {| OrderNumber := o; TrackingNumber := t;
                          CarrierCode := c; Title := ti |} (Order_EntityID order) 0)
              (extend s (evs1 ++ evs2))) as (r3 & evs3 & -> & Hnet3 & _).
  rewrite extend_extend.
  assert (forallb isNet ((evs1 ++ evs2) ++ evs3) = true) as Hnet123
    by (rewrite forallb_app, Hnet12, Hnet3; reflexivity).
  destruct r3; by eexists _, ((evs1 ++ evs2) ++ evs3)%list.
Qed.

(** One iteration of the loop of [processCSVFile] on a row that is read
    without error. *)
Lemma rowLoop_processed indices file raw rest n n' row r rowCount errorCount s s' :
  csv.readRecord n raw = (row, None, n') →
  processRow env p row indices (extend s [EvRead file]) = Ok r s' →
  rowLoop env p indices file (raw :: rest) n rowCount errorCount s =
  rowLoop env p indices file rest n' (int_add rowCount 1)
    (match r with Some _ => int_add errorCount 1 | None => errorCount end) s'.
Proof.
  intros Hread Hrow. cbn [rowLoop]. unfold bind at 1, tell, emit.
  rewrite Hread. unfold bind at 1. by rewrite Hrow.
Qed.

(** One iteration on a row that the reader fails to read. *)
Lemma rowLoop_unread indices file raw rest n n' row err rowCount errorCount s :
  csv.readRecord n raw = (row, Some err, n') →
  rowLoop env p indices file (raw :: rest) n rowCount errorCount s =
  rowLoop env p indices file rest n' rowCount (int_add errorCount 1)
    (extend s [EvRead file]).
Proof.
  intros Hread. cbn [rowLoop]. unfold bind at 1, tell, emit. by rewrite Hread.
Qed.

Lemma rowLoop_end indices file n rowCount errorCount s :
  rowLoop env p indices file [] n rowCount errorCount s =
  Ok (rowCount, errorCount) (extend s [EvRead file]).
Proof. reflexivity. Qed.

(** An error of [readRecord] is a parse error, never [io.EOF]. *)
Lemma readRecord_not_EOF n raw row err n' :
  csv.readRecord n raw = (row, Some err, n') → csv.isEOF err = false.
Proof.
  unfold csv.readRecord.
  destruct (n >? 0); [destruct (negb _ && negb _)|destruct (n =? 0)];
    destruct (parseErr raw); intros [= _ <- _]; reflexivity.
Qed.

(** The loop, iteration by iteration, in terms of [reader.Read()]. *)
Lemma rowLoop_Read indices file lines n rowCount errorCount s :
  rowLoop env p indices file lines n rowCount errorCount s =
  (h <- csv.Read {| csv.path := file; csv.FieldsPerRecord := n; csv.pending := lines |} ;;
   let '(row, err, reader) := h in
   match err with
   | Some e =>
       if csv.isEOF e then ret (rowCount, errorCount)
       else rowLoop env p indices file (csv.pending reader) (csv.FieldsPerRecord reader)
              rowCount (int_add errorCount 1)
   | None =>
       r <- processRow env p row indices ;;
       rowLoop env p indices file (csv.pending reader) (csv.FieldsPerRecord reader)
         (int_add rowCount 1)
         (match r with Some _ => int_add errorCount 1 | None => errorCount end)
   end) s.
Proof.
  destruct lines as [|raw rest]; [reflexivity|].
  cbn [rowLoop]. unfold csv.Read, bind at 1 3 4, tell, emit, ret.
  cbn [csv.path csv.FieldsPerRecord csv.pending].
  destruct (csv.readRecord n raw) as [[row err] n'] eqn:Hread.
  cbn [csv.pending csv.FieldsPerRecord].
  destruct err as [err|]; [|reflexivity].
  by rewrite (readRecord_not_EOF n raw row err n' Hread).
Qed.

End Row.



(** ** The comparison of the error rate with the threshold, on [float64] *)

Section Float64.
Import Go ParserSpec.

(** The number of bits of a positive number. *)
Lemma digits2_pos_bounds p :
  2 ^ (Z.pos (digits2_pos p) - 1) <= Z.pos p < 2 ^ Z.pos (digits2_pos p).
Proof.
  induction p as [p IH|p IH|]; cbn [digits2_pos]; [| |simpl; lia].
  - rewrite Pos2Z.inj_succ.
    replace (Z.succ (Z.pos (digits2_pos p)) - 1) with (Z.succ (Z.pos (digits2_pos p) - 1)) by lia.
    rewrite !Z.pow_succ_r by lia. lia.
  - rewrite Pos2Z.inj_succ.
    replace (Z.succ (Z.pos (digits2_pos p)) - 1) with (Z.succ (Z.pos (digits2_pos p) - 1)) by lia.
    rewrite !Z.pow_succ_r by lia. lia.
Qed.

Lemma digits2_pos_unique p d :
  2 ^ (d - 1) <= Z.pos p < 2 ^ d -> 0 < d -> Z.pos (digits2_pos p) = d.
Proof.
  intros [Hlo Hhi] Hd. pose proof (digits2_pos_bounds p) as [Blo Bhi].
  set (k := Z.pos (digits2_pos p)) in *.
  assert (0 < k) by (subst k; lia).
  destruct (Z.lt_trichotomy k d) as [Hlt|[Heq|Hgt]]; [|exact Heq|].
  - exfalso. assert (2 ^ k <= 2 ^ (d - 1)) by (apply Z.pow_le_mono_r; lia). lia.
  - exfalso. assert (2 ^ d <= 2 ^ (k - 1)) by (apply Z.pow_le_mono_r; lia). lia.
Qed.

Lemma iter_xO_spec k : forall m, Z.pos (Pos.iter xO m k) = Z.pos m * 2 ^ Z.pos k.
Proof.
  induction k as [|k IH] using Pos.peano_ind; intros m.
  - simpl. lia.
  - rewrite Pos.iter_succ, Pos2Z.inj_succ, Z.pow_succ_r by lia.
    rewrite Pos2Z.inj_xO, IH. lia.
Qed.

(** A canonical mantissa of 53 bits goes through the rounding unchanged. *)
Lemma binary_round_aux_exact m e :
  Z.pos (digits2_pos m) = 53 -> -1074 <= e <= 971 ->
  binary_round_aux 53 1024 false (Z.pos m) e loc_Exact = S754_finite false m e.
Proof.
  intros Hd He. unfold binary_round_aux, shr_fexp, fexp, emin.
  cbn [Zdigits2 shr_record_of_loc]. rewrite Hd.
  replace (Z.max (53 + e - 53) (3 - 1024 - 53) - e) with 0 by lia.
  cbn [shr shr_m loc_of_shr_record round_nearest_even Zdigits2]. rewrite Hd.
  replace (Z.max (53 + e - 53) (3 - 1024 - 53) - e) with 0 by lia.
  cbn [shr shr_m].
  assert ((e <=? 1024 - 53) = true) as -> by (apply Z.leb_le; lia).
  reflexivity.
Qed.

(** An integer below 2^53 is converted exactly, to a normal number. *)
Lemma float64_of_int_normal n :
  0 < n < 2 ^ 53 ->
  exists m a, float64_of_int n = S754_finite false m (- a) /\
              2 ^ 52 <= Z.pos m < 2 ^ 53 /\ 0 <= a <= 52 /\ Z.pos m = n * 2 ^ a.
Proof.
  intros [Hpos Hlt]. destruct n as [|p|p]; try lia.
  pose proof (digits2_pos_bounds p) as [Blo Bhi].
  set (d := Z.pos (digits2_pos p)) in *.
  assert (0 < d) as Hd0 by (subst d; lia).
  assert (d <= 53) as Hd53.
  { destruct (Z_le_gt_dec d 53) as [|Hgt]; [assumption|exfalso].
    assert (2 ^ 53 <= 2 ^ (d - 1)) by (apply Z.pow_le_mono_r; lia). lia. }
  unfold float64_of_int, binary_normalize, binary_round, fexp, emin.
  fold d. replace (Z.max (d + 0 - 53) (3 - 1024 - 53)) with (d - 53) by lia.
  unfold shl_align.
  destruct (d - 53 - 0) as [|k|k] eqn:Ek; try lia.
  - exists p, 0. assert (d = 53) as Hd by lia.
    rewrite binary_round_aux_exact by (fold d; lia).
    rewrite Hd in *. change (2 ^ (53 - 1)) with (2 ^ 52) in Blo.
    repeat split; try lia.
  - exists (Pos.iter xO p k), (53 - d).
    assert (Z.pos k = 53 - d) as Hk by lia.
    pose proof (iter_xO_spec k p) as Hval. rewrite Hk in Hval.
    assert (2 ^ (d - 1) * 2 ^ (53 - d) = 2 ^ 52) as Hp52.
    { rewrite <- Z.pow_add_r by lia. f_equal. lia. }
    assert (2 ^ d * 2 ^ (53 - d) = 2 ^ 53) as Hp53.
    { rewrite <- Z.pow_add_r by lia. f_equal. lia. }
    assert (0 < 2 ^ (53 - d)) by (apply Z.pow_pos_nonneg; lia).
    assert (2 ^ 52 <= Z.pos (Pos.iter xO p k) < 2 ^ 53) as Hrange by nia.
    rewrite binary_round_aux_exact.
    + replace (- (53 - d)) with (d - 53) by lia.
      repeat split; try lia.
    + apply digits2_pos_unique; [|lia]. change (2 ^ (53 - 1)) with (2 ^ 52). lia.
    + lia.
Qed.

(** The location of a remainder: exact, or below, at or above the half. *)
Lemma new_location_spec D rem :
  0 < D -> 0 <= rem < D ->
  new_location D rem = if rem =? 0 then loc_Exact else loc_Inexact (2 * rem ?= D).
Proof.
  intros HD Hrem. unfold new_location, new_location_even, new_location_odd.
  destruct (Z.even D) eqn:Heven; [reflexivity|].
  destruct (rem =? 0); [reflexivity|]. f_equal.
  assert (Z.odd D = true) as Hodd by (rewrite <- Z.negb_even, Heven; reflexivity).
  apply Z.odd_spec in Hodd as [k Hk].
  destruct (Z.compare_spec (2 * rem + 1) D), (Z.compare_spec (2 * rem) D);
    try reflexivity; lia.
Qed.

(** Rounding a quotient to nearest even, against an even threshold. *)
Lemma rne_lt q D rem T :
  0 < D -> 0 <= rem < D -> Z.even T = true ->
  (round_nearest_even q (new_location D rem) <? T)
  = (2 * (q * D + rem) <? (2 * T - 1) * D).
Proof.
  intros HD Hrem HT. rewrite new_location_spec by assumption.
  apply Z.even_spec in HT as [t Ht].
  apply eq_true_iff_eq. rewrite !Z.ltb_lt.
  destruct (Z.eqb_spec rem 0) as [->|Hne]; cbn [round_nearest_even].
  - split; intros; nia.
  - destruct (Z.compare_spec (2 * rem) D) as [Heq|Hlt|Hgt].
    + destruct (Z.even q) eqn:Hq.
      * apply Z.even_spec in Hq as [k Hk]. split; intros; nia.
      * assert (Z.odd q = true) as Hodd by (rewrite <- Z.negb_even, Hq; reflexivity).
        apply Z.odd_spec in Hodd as [k Hk]. split; intros; nia.
    + split; intros; nia.
    + split; intros; nia.
Qed.

(** One shift to the right before rounding: the quotient by [2 * D]. *)
Lemma shr_1_location q D rem :
  0 < D -> 0 <= rem < D -> 0 < q ->
  shr_m (shr_1 (shr_record_of_loc q (new_location D rem))) = q / 2 /\
  loc_of_shr_record (shr_1 (shr_record_of_loc q (new_location D rem)))
  = new_location (2 * D) (q mod 2 * D + rem).
Proof.
  intros HD Hrem Hq.
  assert (q mod 2 = 0 \/ q mod 2 = 1) as Hb by (pose proof (Z.mod_pos_bound q 2); lia).
  rewrite (new_location_spec (2 * D)) by nia.
  rewrite new_location_spec by assumption.
  destruct q as [|p|p]; try lia.
  destruct p as [p|p|].
  - (* odd *)
    assert (Z.pos p~1 / 2 = Z.pos p /\ Z.pos p~1 mod 2 = 1) as [Hdiv ->].
    { rewrite Pos2Z.inj_xI. split.
      - symmetry. apply (Z.div_unique _ 2 _ 1); lia.
      - symmetry. apply (Z.mod_unique _ 2 (Z.pos p) 1); lia. }
    rewrite Hdiv, Z.mul_1_l.
    assert ((D + rem =? 0) = false) as -> by (apply Z.eqb_neq; lia).
    destruct (Z.eqb_spec rem 0) as [->|Hne].
    + cbn [shr_record_of_loc shr_1 shr_m loc_of_shr_record orb]. split; [reflexivity|].
      f_equal. symmetry. apply Z.compare_eq_iff. lia.
    + destruct (2 * rem ?= D);
        cbn [shr_record_of_loc shr_1 shr_m loc_of_shr_record orb];
        (split; [reflexivity|]); f_equal; symmetry; apply Z.compare_gt_iff; lia.
  - (* even *)
    assert (Z.pos p~0 / 2 = Z.pos p /\ Z.pos p~0 mod 2 = 0) as [Hdiv ->].
    { rewrite Pos2Z.inj_xO. split.
      - symmetry. apply (Z.div_unique _ 2 _ 0); lia.
      - symmetry. apply (Z.mod_unique _ 2 (Z.pos p) 0); lia. }
    rewrite Hdiv, Z.mul_0_l, Z.add_0_l.
    destruct (Z.eqb_spec rem 0) as [->|Hne].
    + cbn [shr_record_of_loc shr_1 shr_m loc_of_shr_record orb]. split; reflexivity.
    + destruct (2 * rem ?= D);
        cbn [shr_record_of_loc shr_1 shr_m loc_of_shr_record orb];
        (split; [reflexivity|]); f_equal; symmetry; apply Z.compare_lt_iff; lia.
  - (* one *)
    change (1 / 2) with 0. change (1 mod 2) with 1. rewrite Z.mul_1_l.
    assert ((D + rem =? 0) = false) as -> by (apply Z.eqb_neq; lia).
    destruct (Z.eqb_spec rem 0) as [->|Hne].
    + cbn [shr_record_of_loc shr_1 shr_m loc_of_shr_record orb]. split; [reflexivity|].
      f_equal. symmetry. apply Z.compare_eq_iff. lia.
    + destruct (2 * rem ?= D);
        cbn [shr_record_of_loc shr_1 shr_m loc_of_shr_record orb];
        (split; [reflexivity|]); f_equal; symmetry; apply Z.compare_gt_iff; lia.
Qed.

Lemma rne_shift_lt q D rem T :
  0 < D -> 0 <= rem < D -> Z.even T = true -> 0 < q ->
  (round_nearest_even
     (shr_m (shr_1 (shr_record_of_loc q (new_location D rem))))
     (loc_of_shr_record (shr_1 (shr_record_of_loc q (new_location D rem)))) <? T)
  = (q * D + rem <? (2 * T - 1) * D).
Proof.
  intros HD Hrem HT Hq.
  destruct (shr_1_location q D rem HD Hrem Hq) as [-> ->].
  pose proof (Z.mod_pos_bound q 2 ltac:(lia)) as Hb.
  pose proof (Z.div_mod q 2 ltac:(lia)) as Hdm.
  rewrite rne_lt; [|lia| |assumption].
  2:{ assert (q mod 2 = 0 \/ q mod 2 = 1) as [-> | ->] by lia; lia. }
  apply eq_true_iff_eq. rewrite !Z.ltb_lt.
  set (h := q / 2) in *. set (b := q mod 2) in *.
  replace (2 * (h * (2 * D) + (b * D + rem))) with (2 * (q * D + rem))
    by (rewrite Hdm; ring).
  replace ((2 * T - 1) * (2 * D)) with (2 * ((2 * T - 1) * D)) by ring.
  lia.
Qed.

(** The order of positive finite numbers, against the threshold. *)
Lemma SFltb_threshold m e :
  SFltb (S754_finite false m e) float64_0_05
  = (e <? -57) || ((e =? -57) && (Z.pos m <? thresholdMantissa)).
Proof.
  unfold SFltb, SFcompare, float64_0_05, thresholdMantissa.
  destruct (Z.compare_spec e (-57)) as [->|Hlt|Hgt].
  - cbn [Z.ltb Z.eqb Z.compare orb andb]. rewrite Pos.compare_cont_spec.
    cbn [Pos.switch_Eq]. unfold Z.ltb. cbn [Z.compare].
    destruct (m ?= 7205759403792794)%positive; reflexivity.
  - assert ((e <? -57) = true) as -> by (apply Z.ltb_lt; lia). reflexivity.
  - assert ((e <? -57) = false) as -> by (apply Z.ltb_ge; lia).
    assert ((e =? -57) = false) as -> by (apply Z.eqb_neq; lia). reflexivity.
Qed.

Lemma shr_record_of_loc_m q loc : shr_m (shr_record_of_loc q loc) = q.
Proof. destruct loc as [|[]]; reflexivity. Qed.

Lemma loc_of_shr_record_of_loc q loc :
  loc_of_shr_record (shr_record_of_loc q loc) = loc.
Proof. destruct loc as [|[]]; reflexivity. Qed.

Lemma round_nearest_even_bounds q loc :
  q <= round_nearest_even q loc <= q + 1.
Proof.
  destruct loc as [|[]]; cbn [round_nearest_even]; try lia.
  destruct (Z.even q); lia.
Qed.

Lemma shr_1_m q loc : 0 < q -> shr_m (shr_1 (shr_record_of_loc q loc)) = q / 2.
Proof.
  intros Hq. destruct q as [|p|p]; try lia.
  assert (forall r s, shr_m (shr_1 {| shr_m := Z.pos p; shr_r := r; shr_s := s |})
                      = Z.pos p / 2) as H.
  { intros r s. destruct p as [p|p|]; cbn [shr_1 shr_m].
    - rewrite Pos2Z.inj_xI. apply (Z.div_unique _ 2 _ 1); lia.
    - rewrite Pos2Z.inj_xO. apply (Z.div_unique _ 2 _ 0); lia.
    - reflexivity. }
  destruct loc as [|[]]; apply H.
Qed.

(** The end of [binary_round_aux]: a rounded mantissa of 53 bits, or the
    power of two above, compared with the threshold. *)
Lemma round_tail_lt mr e :
  2 ^ 52 <= mr <= 2 ^ 53 -> -1074 <= e <= 900 ->
  SFltb (let '(mrs'', e'') := shr_fexp 53 1024 mr e loc_Exact in
         match shr_m mrs'' with
         | Z0 => S754_zero false
         | Zpos m => if e'' <=? 1024 - 53 then S754_finite false m e''
                     else S754_infinity false
         | Zneg _ => S754_nan
         end) float64_0_05
  = (e <? -57) || ((e =? -57) && (mr <? thresholdMantissa)).
Proof.
  intros [Hlo Hhi] He.
  destruct (Z.eq_dec mr (2 ^ 53)) as [->|Hne].
  - unfold shr_fexp, fexp, emin. change (Zdigits2 (2 ^ 53)) with 54.
    replace (Z.max (54 + e - 53) (3 - 1024 - 53) - e) with 1 by lia.
    cbn [shr shr_record_of_loc SpecFloat.iter_pos]. change (2 ^ 53) with 9007199254740992.
    cbn [shr_1 shr_m].
    assert ((e + 1 <=? 1024 - 53) = true) as -> by (apply Z.leb_le; lia).
    rewrite SFltb_threshold.
    change (Z.pos 4503599627370496 <? thresholdMantissa) with true.
    change (9007199254740992 <? thresholdMantissa) with false.
    rewrite andb_true_r, andb_false_r, orb_false_r.
    apply eq_true_iff_eq. rewrite orb_true_iff, !Z.ltb_lt, Z.eqb_eq. lia.
  - destruct mr as [|p|p]; try lia.
    assert (Z.pos (digits2_pos p) = 53) as Hd.
    { apply digits2_pos_unique; [|lia]. change (2 ^ (53 - 1)) with (2 ^ 52). lia. }
    unfold shr_fexp, fexp, emin. cbn [Zdigits2]. rewrite Hd.
    replace (Z.max (53 + e - 53) (3 - 1024 - 53) - e) with 0 by lia.
    cbn [shr shr_record_of_loc shr_m].
    assert ((e <=? 1024 - 53) = true) as -> by (apply Z.leb_le; lia).
    apply SFltb_threshold.
Qed.

Lemma round_aux_lt_53 q e loc :
  2 ^ 52 <= q < 2 ^ 53 -> -1074 <= e <= 900 ->
  SFltb (binary_round_aux 53 1024 false q e loc) float64_0_05
  = (e <? -57) || ((e =? -57) && (round_nearest_even q loc <? thresholdMantissa)).
Proof.
  intros Hq He. unfold binary_round_aux.
  assert (shr_fexp 53 1024 q e loc = (shr_record_of_loc q loc, e)) as ->.
  { destruct q as [|p|p]; try lia.
    assert (Z.pos (digits2_pos p) = 53) as Hd.
    { apply digits2_pos_unique; [|lia]. change (2 ^ (53 - 1)) with (2 ^ 52). lia. }
    unfold shr_fexp, fexp, emin. cbn [Zdigits2]. rewrite Hd.
    replace (Z.max (53 + e - 53) (3 - 1024 - 53) - e) with 0 by lia.
    reflexivity. }
  rewrite shr_record_of_loc_m, loc_of_shr_record_of_loc.
  pose proof (round_nearest_even_bounds q loc).
  apply round_tail_lt; lia.
Qed.

Lemma round_aux_lt_54 q e loc :
  2 ^ 53 <= q < 2 ^ 54 -> -1074 <= e <= 899 ->
  SFltb (binary_round_aux 53 1024 false q e loc) float64_0_05
  = (e + 1 <? -57)
    || ((e + 1 =? -57)
        && (round_nearest_even (shr_m (shr_1 (shr_record_of_loc q loc)))
              (loc_of_shr_record (shr_1 (shr_record_of_loc q loc))) <? thresholdMantissa)).
Proof.
  intros Hq He. unfold binary_round_aux.
  assert (shr_fexp 53 1024 q e loc = (shr_1 (shr_record_of_loc q loc), e + 1)) as ->.
  { destruct q as [|p|p]; try lia.
    assert (Z.pos (digits2_pos p) = 54) as Hd.
    { apply digits2_pos_unique; [|lia]. change (2 ^ (54 - 1)) with (2 ^ 53). lia. }
    unfold shr_fexp, fexp, emin. cbn [Zdigits2]. rewrite Hd.
    replace (Z.max (54 + e - 53) (3 - 1024 - 53) - e) with 1 by lia.
    reflexivity. }
  pose proof (round_nearest_even_bounds (shr_m (shr_1 (shr_record_of_loc q loc)))
                (loc_of_shr_record (shr_1 (shr_record_of_loc q loc)))) as Hb.
  pose proof (shr_1_m q loc ltac:(lia)) as Hm.
  assert (2 ^ 52 <= q / 2 < 2 ^ 53) as Hhalf.
  { split.
    - apply Z.div_le_lower_bound; lia.
    - apply Z.div_lt_upper_bound; lia. }
  apply round_tail_lt; lia.
Qed.

(** The division of two normal numbers: the rounding of the quotient of
    the mantissas, the dividend scaled by 2^53. *)
Lemma SFdiv_normal m1 a1 m2 a2 :
  2 ^ 52 <= Z.pos m1 < 2 ^ 53 -> 2 ^ 52 <= Z.pos m2 < 2 ^ 53 ->
  0 <= a1 <= 52 -> 0 <= a2 <= 52 ->
  float64_div (S754_finite false m1 (- a1)) (S754_finite false m2 (- a2))
  = binary_round_aux 53 1024 false
      (Z.pos m1 * 2 ^ 53 / Z.pos m2) (a2 - a1 - 53)
      (new_location (Z.pos m2) ((Z.pos m1 * 2 ^ 53) mod Z.pos m2)).
Proof.
  intros H1 H2 Ha1 Ha2.
  assert (Z.pos (digits2_pos m1) = 53) as Hd1.
  { apply digits2_pos_unique; [|lia]. change (2 ^ (53 - 1)) with (2 ^ 52). lia. }
  assert (Z.pos (digits2_pos m2) = 53) as Hd2.
  { apply digits2_pos_unique; [|lia]. change (2 ^ (53 - 1)) with (2 ^ 52). lia. }
  unfold float64_div, SFdiv, SFdiv_core_binary, fexp, emin. cbv zeta.
  cbn [Zdigits2 xorb]. rewrite Hd1, Hd2.
  replace (Z.min (Z.max (53 + - a1 - (53 + - a2) - 53) (3 - 1024 - 53)) (- a1 - - a2))
    with (a2 - a1 - 53) by lia.
  replace (- a1 - - a2 - (a2 - a1 - 53)) with 53 by lia.
  cbv iota. rewrite Z.shiftl_mul_pow2 by lia.
  unfold Z.div, Z.modulo.
  destruct (Z.div_eucl (Z.pos m1 * 2 ^ 53) (Z.pos m2)) as [q r]. reflexivity.
Qed.

Lemma pow2_ge a b k : 0 <= b -> 0 <= k -> b + k <= a -> 2 ^ k * 2 ^ b <= 2 ^ a.
Proof.
  intros Hb Hk Hle. rewrite <- Z.pow_add_r by lia. apply Z.pow_le_mono_r; lia.
Qed.

Lemma pow2_le a b k : 0 <= a -> 0 <= b -> 0 <= k -> a <= b + k -> 2 ^ a <= 2 ^ k * 2 ^ b.
Proof.
  intros Ha Hb Hk Hle. rewrite <- Z.pow_add_r by lia. apply Z.pow_le_mono_r; lia.
Qed.

Lemma pow2_eq a b k : 0 <= b -> 0 <= k -> a = b + k -> 2 ^ a = 2 ^ k * 2 ^ b.
Proof. intros Hb Hk ->. rewrite <- Z.pow_add_r by lia. f_equal. lia. Qed.

(** Comparisons of scaled integers. *)
Lemma scaled_lt x y A : 0 < A -> (x * A < y * A <-> x < y).
Proof. intros HA. symmetry. apply Z.mul_lt_mono_pos_r. exact HA. Qed.

(** For counters below 2^53, which [float64] holds exactly, the comparison
    on [float64] is the comparison of the exact quotient with 1/20. *)
Lemma underThreshold_exact e r :
  0 <= e < 2 ^ 53 -> 0 < r < 2 ^ 53 ->
  underThreshold r e = (20 * e <? r).
Proof.
  intros He Hr. unfold underThreshold.
  destruct (float64_of_int_normal r Hr) as (m2 & a2 & -> & Hm2 & Ha2 & Hv2).
  destruct (Z.eq_dec e 0) as [->|Hne].
  { change (float64_of_int 0) with (S754_zero false). cbn.
    symmetry. apply Z.ltb_lt. lia. }
  destruct (float64_of_int_normal e ltac:(lia)) as (m1 & a1 & -> & Hm1 & Ha1 & Hv1).
  rewrite SFdiv_normal by assumption. unfold float64_lt.
  set (N := Z.pos m1 * 2 ^ 53). set (D := Z.pos m2).
  assert (0 < D) as HD by (subst D; lia).
  pose proof (Z.mod_pos_bound N D HD) as Hrem.
  pose proof (Z.div_mod N D ltac:(lia)) as Hdm.
  assert (N / D * D + N mod D = N) as HN by lia.
  assert (0 < 2 ^ a1) as HA1 by (apply Z.pow_pos_nonneg; lia).
  assert (0 < 2 ^ a2) as HA2 by (apply Z.pow_pos_nonneg; lia).
  set (A1 := 2 ^ a1) in *. set (A2 := 2 ^ a2) in *.
  change (2 ^ 52) with 4503599627370496 in *.
  change (2 ^ 53) with 9007199254740992 in *.
  apply eq_true_iff_eq. rewrite Z.ltb_lt.
  destruct (Z_lt_ge_dec (Z.pos m1) (Z.pos m2)) as [Hlt|Hge].
  - (* the quotient has 53 bits *)
    assert (4503599627370496 <= N / D < 9007199254740992) as Hq.
    { split.
      - apply Z.div_le_lower_bound; [exact HD|]. subst N D. lia.
      - apply Z.div_lt_upper_bound; [exact HD|]. subst N D. lia. }
    rewrite round_aux_lt_53
      by (change (2 ^ 52) with 4503599627370496;
          change (2 ^ 53) with 9007199254740992; lia).
    rewrite rne_lt by (try assumption; reflexivity). rewrite HN.
    rewrite orb_true_iff, andb_true_iff, !Z.ltb_lt, Z.eqb_eq.
    assert (2 * N < (2 * thresholdMantissa - 1) * D <-> 5 * Z.pos m1 < 4 * Z.pos m2) as ->.
    { subst N D. unfold thresholdMantissa. lia. }
    destruct (Z.lt_trichotomy (a2 - a1 - 53) (-57)) as [Hc|[Hc|Hc]].
    + (* far below the threshold *)
      pose proof (pow2_ge a1 a2 5 ltac:(lia) ltac:(lia) ltac:(lia)) as Hp.
      fold A1 A2 in Hp. change (2 ^ 5) with 32 in Hp.
      split; [intros _|intros _; left; exact Hc].
      apply (scaled_lt _ _ A2 HA2).
      assert (e * (32 * A2) <= e * A1) by (apply Z.mul_le_mono_nonneg_l; lia).
      lia.
    + (* the exponent of the threshold *)
      pose proof (pow2_eq a1 a2 4 ltac:(lia) ltac:(lia) ltac:(lia)) as Hp.
      fold A1 A2 in Hp. change (2 ^ 4) with 16 in Hp.
      rewrite Hv1, Hv2, Hp.
      replace (5 * (e * (16 * A2))) with (20 * e * (4 * A2)) by ring.
      replace (4 * (r * A2)) with (r * (4 * A2)) by ring.
      rewrite (scaled_lt (20 * e) r (4 * A2)) by lia.
      split; [intros [?|[_ ?]]; [lia|assumption] | intros; right; split; assumption].
    + (* far above the threshold *)
      pose proof (pow2_le a1 a2 3 ltac:(lia) ltac:(lia) ltac:(lia) ltac:(lia)) as Hp.
      fold A1 A2 in Hp. change (2 ^ 3) with 8 in Hp.
      split; [intros [?|[? _]]; lia|]. intros Hlt20. exfalso.
      assert (e * A1 <= e * (8 * A2)) by (apply Z.mul_le_mono_nonneg_l; lia).
      assert (20 * e * A2 < r * A2) by (apply (scaled_lt _ _ A2 HA2); exact Hlt20).
      lia.
  - (* the quotient has 54 bits *)
    assert (9007199254740992 <= N / D < 18014398509481984) as Hq.
    { split.
      - apply Z.div_le_lower_bound; [exact HD|]. subst N D. lia.
      - apply Z.div_lt_upper_bound; [exact HD|]. subst N D. lia. }
    rewrite round_aux_lt_54
      by (change (2 ^ 53) with 9007199254740992;
          change (2 ^ 54) with 18014398509481984; lia).
    rewrite rne_shift_lt by (try assumption; try reflexivity; lia). rewrite HN.
    rewrite orb_true_iff, andb_true_iff, !Z.ltb_lt, Z.eqb_eq.
    assert (N < (2 * thresholdMantissa - 1) * D <-> 5 * Z.pos m1 < 8 * Z.pos m2) as ->.
    { subst N D. unfold thresholdMantissa. lia. }
    destruct (Z.lt_trichotomy (a2 - a1 - 53 + 1) (-57)) as [Hc|[Hc|Hc]].
    + pose proof (pow2_ge a1 a2 6 ltac:(lia) ltac:(lia) ltac:(lia)) as Hp.
      fold A1 A2 in Hp. change (2 ^ 6) with 64 in Hp.
      split; [intros _|intros _; left; exact Hc].
      apply (scaled_lt _ _ A2 HA2).
      assert (e * (64 * A2) <= e * A1) by (apply Z.mul_le_mono_nonneg_l; lia).
      lia.
    + pose proof (pow2_eq a1 a2 5 ltac:(lia) ltac:(lia) ltac:(lia)) as Hp.
      fold A1 A2 in Hp. change (2 ^ 5) with 32 in Hp.
      rewrite Hv1, Hv2, Hp.
      replace (5 * (e * (32 * A2))) with (20 * e * (8 * A2)) by ring.
      replace (8 * (r * A2)) with (r * (8 * A2)) by ring.
      rewrite (scaled_lt (20 * e) r (8 * A2)) by lia.
      split; [intros [?|[_ ?]]; [lia|assumption] | intros; right; split; assumption].
    + pose proof (pow2_le a1 a2 4 ltac:(lia) ltac:(lia) ltac:(lia) ltac:(lia)) as Hp.
      fold A1 A2 in Hp. change (2 ^ 4) with 16 in Hp.
      split; [intros [?|[? _]]; lia|]. intros Hlt20. exfalso.
      assert (e * A1 <= e * (16 * A2)) by (apply Z.mul_le_mono_nonneg_l; lia).
      assert (20 * e * A2 < r * A2) by (apply (scaled_lt _ _ A2 HA2); exact Hlt20).
      lia.
Qed.

End Float64.

(** ** The rows of a file *)

Section File.
Import Go model processor ParserSpec.
Context (env : Env) (p : CSVProcessor).

Lemma wrap64_small z : - 2 ^ 63 ≤ z < 2 ^ 63 → wrap64 z = z.
Proof. intros H. unfold wrap64. rewrite Z.mod_small; lia. Qed.

Lemma wrap64_range z : - 2 ^ 63 ≤ wrap64 z < 2 ^ 63.
Proof.
  unfold wrap64. pose proof (Z.mod_pos_bound (z + 2 ^ 63) (2 ^ 64) ltac:(lia)). lia.
Qed.

Lemma wrap64_add_l a b : wrap64 (wrap64 a + b) = wrap64 (a + b).
Proof.
  unfold wrap64. f_equal.
  replace (((a + 2 ^ 63) mod 2 ^ 64 - 2 ^ 63 + b + 2 ^ 63))
    with ((a + 2 ^ 63) mod 2 ^ 64 + b) by lia.
  rewrite Zplus_mod_idemp_l. f_equal. lia.
Qed.

Lemma index_is_Some {A} (l : list A) i : 0 ≤ i < len l → is_Some (index l i).
Proof.
  intros Hi. unfold index, len in *.
  destruct (i <? 0) eqn:E; [apply Z.ltb_lt in E; lia|].
  apply lookup_lt_is_Some. lia.
Qed.

(** After the header, the reader delivers a row without error exactly
    when the row is readable, and keeps the number of fields of the
    header. *)
Lemma readRecord_data n raw :
  0 < n →
  ∃ err, csv.readRecord n raw = (fields raw, err, n) ∧
         (err = None ↔ readable n raw = true).
Proof.
  intros Hn. unfold csv.readRecord, readable.
  assert ((n >? 0) = true) as -> by (apply Z.gtb_lt; lia).
  destruct (parseErr raw) as [msg|]; simpl.
  - rewrite andb_false_r. eexists. split; [reflexivity|]. split; discriminate.
  - destruct (len (fields raw) =? n); simpl.
    + eexists. split; [reflexivity|]. tauto.
    + eexists. split; [reflexivity|]. split; discriminate.
Qed.

(** The header of a file, read first, is delivered as it is and fixes the
    number of fields. *)
Lemma readRecord_header raw :
  parseErr raw = None →
  csv.readRecord 0 raw = (fields raw, None, len (fields raw)).
Proof. intros H. unfold csv.readRecord. rewrite H. reflexivity. Qed.

(** The loop over the rows returns; [rowCount] counts the readable rows,
    and [errorCount] counts the other rows and some of the readable ones. *)
Lemma rowLoop_runs indices file rows : ∀ n rowCount errorCount s,
  0 < n → inRange n indices →
  - 2 ^ 63 ≤ rowCount < 2 ^ 63 →
  - 2 ^ 63 ≤ errorCount < 2 ^ 63 →
  ∃ k evs,
    Z.of_nat (length rows) - Z.of_nat (length (List.filter (readable n) rows)) ≤ k
      ≤ Z.of_nat (length rows) ∧
    rowLoop env p indices file rows n rowCount errorCount s =
    Ok (wrap64 (rowCount + Z.of_nat (length (List.filter (readable n) rows))),
        wrap64 (errorCount + k))
       (extend s evs).
Proof.
  induction rows as [|raw rows IH]; intros n rowCount errorCount s Hn Hin Hrc Hec.
  - rewrite rowLoop_end. cbn [List.filter length].
    exists 0, [EvRead file]. split; [lia|].
    by rewrite !Z.add_0_r, !wrap64_small.
  - destruct (readRecord_data n raw Hn) as (err & Hread & Herr).
    cbn [List.filter]. destruct err as [err|].
    + assert (readable n raw = false) as ->.
      { destruct (readable n raw); [|reflexivity]. discriminate (proj2 Herr eq_refl). }
      rewrite (rowLoop_unread env p indices file raw rows n n (fields raw) err) by done.
      destruct (IH n rowCount (int_add errorCount 1) (extend s [EvRead file]) Hn Hin Hrc
                  (wrap64_range _)) as (k & evs & Hk & ->).
      rewrite extend_extend. unfold int_add. rewrite wrap64_add_l.
      exists (1 + k), ([EvRead file] ++ evs)%list.
      cbn [length]. rewrite Nat2Z.inj_succ. split; [lia|].
      f_equal. f_equal. f_equal. lia.
    + pose proof (proj1 Herr eq_refl) as Hreadable. rewrite Hreadable.
      unfold readable in Hreadable.
      apply andb_true_iff in Hreadable as [_ Hlen%Z.eqb_eq].
      destruct Hin as (H1 & H2 & H3 & H4).
      destruct (processRow_runs env p (fields raw) indices (extend s [EvRead file]))
        as (r & evs1 & Hrow & _); try (apply index_is_Some; lia).
      rewrite (rowLoop_processed env p indices file raw rows n n (fields raw) r
                 rowCount errorCount s _ Hread Hrow).
      cbn [length]. rewrite !Nat2Z.inj_succ.
      destruct r as [e|].
      * destruct (IH n (int_add rowCount 1) (int_add errorCount 1)
                    (extend (extend s [EvRead file]) evs1) Hn)
          as (k & evs & Hk & ->);
          [unfold inRange; lia | apply wrap64_range | apply wrap64_range |].
        rewrite !extend_extend. unfold int_add. rewrite !wrap64_add_l.
        exists (1 + k), (([EvRead file] ++ evs1) ++ evs)%list. split; [lia|].
        f_equal. f_equal; f_equal; lia.
      * destruct (IH n (int_add rowCount 1) errorCount
                    (extend (extend s [EvRead file]) evs1) Hn)
          as (k & evs & Hk & ->);
          [unfold inRange; lia | apply wrap64_range | exact Hec |].
        rewrite !extend_extend. unfold int_add. rewrite !wrap64_add_l.
        exists k, (([EvRead file] ++ evs1) ++ evs)%list. split; [lia|].
        f_equal. f_equal; f_equal; lia.
Qed.

(** When no row is readable, [rowCount] stays and [errorCount] counts the
    rows; the reader is read once per row and once more for the end. *)
Lemma rowLoop_unreadable indices file rows : ∀ n rowCount errorCount s,
  0 < n →
  forallb (fun raw => negb (readable n raw)) rows = true →
  - 2 ^ 63 ≤ errorCount < 2 ^ 63 →
  rowLoop env p indices file rows n rowCount errorCount s =
  Ok (rowCount, wrap64 (errorCount + Z.of_nat (length rows)))
     (extend s (repeat (EvRead file) (S (length rows)))).
Proof.
  induction rows as [|raw rows IH]; intros n rowCount errorCount s Hn Hall Hec.
  - rewrite rowLoop_end. cbn [length]. by rewrite Z.add_0_r, wrap64_small.
  - cbn [forallb] in Hall. apply andb_true_iff in Hall as [Hraw Hall].
    destruct (readRecord_data n raw Hn) as (err & Hread & Herr).
    destruct err as [err|].
    2:{ rewrite (proj1 Herr eq_refl) in Hraw. discriminate. }
    rewrite (rowLoop_unread env p indices file raw rows n n (fields raw) err) by done.
    rewrite IH by (try done; apply wrap64_range).
    rewrite extend_extend. unfold int_add. rewrite wrap64_add_l.
    cbn [length repeat app]. rewrite Nat2Z.inj_succ.
    replace (errorCount + 1 + Z.of_nat (length rows))
      with (errorCount + Z.succ (Z.of_nat (length rows))) by lia.
    reflexivity.
Qed.

(** [processCSVFile] on a file with a complete header: the loop over the
    rows, then the verdict on the two counters. *)
Lemma processCSVFile_rows filePath header rows s :
  os_Open env filePath = Some (header :: rows) →
  parseErr header = None →
  incomplete (getColumnIndices (fields header)) = false →
  processCSVFile env p filePath s =
  match rowLoop env p (getColumnIndices (fields header)) filePath rows
          (len (fields header)) 0 0 (extend s [EvRead filePath]) with
  | Ok (rowCount, errorCount) s' => Ok (acceptable rowCount errorCount) s'
  | Panic s' => Panic s'
  end.
Proof.
  intros Hopen Hparse Hcomplete. unfold processCSVFile. rewrite Hopen.
  unfold csv.Read, csv.NewReader, bind at 1 2, tell, ret, emit.
  cbn [csv.pending csv.FieldsPerRecord csv.path].
  rewrite (readRecord_header header Hparse).
  unfold incomplete in Hcomplete. rewrite Hcomplete.
  cbn [csv.pending csv.FieldsPerRecord]. unfold bind.
  destruct (rowLoop _ _ _ _ _ _ _ _ _) as [[rowCount errorCount] s'|s']; reflexivity.
Qed.

End File.

(** ** The verdict on a file *)

Section Verdict.
Import Go processor ParserSpec.

Lemma acceptable_spec rowCount errorCount :
  acceptable rowCount errorCount = true ↔
  errorCount = 0 ∨ underThreshold rowCount errorCount = true.
Proof.
  unfold acceptable, underThreshold. by rewrite orb_true_iff, Z.eqb_eq.
Qed.

(** The conversion of a positive integer is never negative, whatever the
    rounding does. *)
Lemma float64_of_int_pos m :
  match float64_of_int (Z.pos m) with
  | S754_zero false | S754_infinity false | S754_finite false _ _ | S754_nan => True
  | _ => False
  end.
Proof.
  unfold float64_of_int, binary_normalize, binary_round, binary_round_aux.
  destruct (shl_align _ _ _) as [mz ez].
  destruct (shr_fexp _ _ _ _ _) as [mrs' e'].
  destruct (shr_fexp _ _ _ _ _) as [mrs'' e''].
  destruct (shr_m mrs''); [exact I| |exact I].
  by destruct (e'' <=? 1024 - 53).
Qed.

(** With errors and no counted row the quotient is not below the
    threshold: the file is judged failed. *)
Lemma acceptable_no_row errorCount :
  0 < errorCount → acceptable 0 errorCount = false.
Proof.
  intros Hpos. unfold acceptable.
  assert ((errorCount =? 0) = false) as -> by (apply Z.eqb_neq; lia).
  destruct errorCount as [|m|m]; try lia.
  pose proof (float64_of_int_pos m) as Hsign.
  cbn [orb]. unfold float64_lt, float64_div.
  change (float64_of_int 0) with (S754_zero false).
  destruct (float64_of_int (Z.pos m)) as [[]|[]| |[] mx ex]; try contradiction;
    reflexivity.
Qed.

(** The verdict in exact terms, for counters below 2^53. *)
Lemma acceptable_exact rowCount errorCount :
  0 ≤ rowCount < 2 ^ 53 → 0 ≤ errorCount < 2 ^ 53 →
  acceptable rowCount errorCount = true ↔
  errorCount = 0 ∨ 20 * errorCount < rowCount.
Proof.
  intros Hr He. destruct (Z.eq_dec errorCount 0) as [->|Hne].
  { split; [by left | reflexivity]. }
  destruct (Z.eq_dec rowCount 0) as [->|Hrow].
  { rewrite acceptable_no_row by lia. split; [discriminate | lia]. }
  rewrite acceptable_spec, underThreshold_exact, Z.ltb_lt by lia. reflexivity.
Qed.

Lemma complete_header header :
  (∀ col, col ∈ requiredColumns → col ∈ header) →
  incomplete (getColumnIndices header) = false.
Proof.
  intros Hall. destruct (incomplete (getColumnIndices header)) eqn:E; [|reflexivity].
  apply getColumnIndices_incomplete in E as (col & Hreq & Hnot).
  destruct Hnot. by apply Hall.
Qed.

Lemma complete_header_fields header :
  incomplete (getColumnIndices header) = false →
  0 < len header ∧ inRange (len header) (getColumnIndices header).
Proof.
  intros H. pose proof (getColumnIndices_in_range header H) as Hr.
  cbv zeta in Hr. split; [lia | exact Hr].
Qed.

End Verdict.

(** C1. On a file with a valid header, [processCSVFile] consumes all the
    rows and returns [true] exactly when [errorCount] is 0 or
    [errorCount / rowCount < 0.05], computed as in the code on [float64];
    [rowCount] is the number of rows read without error.  For a file of
    fewer than 2^53 rows the comparison is exact: the file is judged
    successful exactly when [errorCount] is 0 or
    [20 * errorCount < rowCount].  With 100 rows and 4 errors the file is
    judged successful, with 100 rows and 6 errors it is judged failed, and a
    file without data rows is judged successful. *)
Theorem file_success_policy (env : Env) (p : processor.CSVProcessor)
    (filePath : string) (header : RawRecord) (rows : list RawRecord) (s : State) :
  os_Open env filePath = Some (header :: rows) →
  parseErr header = None →
  (∀ col, col ∈ ParserSpec.requiredColumns → col ∈ fields header) →
  ∃ rowCount errorCount success s',
    processor.rowLoop env p (processor.getColumnIndices (fields header)) filePath rows
      (Go.len (fields header)) 0 0 (extend s [EvRead filePath])
    = Ok (rowCount, errorCount) s' ∧
    rowCount =
      Go.wrap64 (Z.of_nat (length (List.filter
                                     (ParserSpec.readable (Go.len (fields header))) rows))) ∧
    processor.processCSVFile env p filePath s = Ok success s' ∧
    (success = true ↔
       errorCount = 0 ∨ ParserSpec.underThreshold rowCount errorCount = true) ∧
    (Z.of_nat (length rows) < 2 ^ 53 →
     0 ≤ rowCount ∧ 0 ≤ errorCount ∧
     (success = true ↔ errorCount = 0 ∨ 20 * errorCount < rowCount)) ∧
    (rowCount = 100 → errorCount = 4 → success = true) ∧
    (rowCount = 100 → errorCount = 6 → success = false) ∧
    (rows = [] → rowCount = 0 ∧ errorCount = 0 ∧ success = true).
Proof.
  intros Hopen Hparse Hheader.
  pose proof (complete_header _ Hheader) as Hcomplete.
  destruct (complete_header_fields _ Hcomplete) as [Hlen Hrange].
  destruct (rowLoop_runs env p (processor.getColumnIndices (fields header)) filePath rows
              (Go.len (fields header)) 0 0 (extend s [EvRead filePath]) Hlen Hrange
              ltac:(lia) ltac:(lia)) as (k & evs & Hk & Hloop).
  rewrite !Z.add_0_l in Hloop.
  set (readableRows := Z.of_nat (length (List.filter
         (ParserSpec.readable (Go.len (fields header))) rows))) in *.
  assert (0 ≤ readableRows ≤ Z.of_nat (length rows)) as Hreadable.
  { subst readableRows. split; [lia|]. apply inj_le, filter_length_le. }
  eexists (Go.wrap64 readableRows), (Go.wrap64 k),
    (processor.acceptable (Go.wrap64 readableRows) (Go.wrap64 k)), _.
  split; [exact Hloop|]. split; [reflexivity|].
  split; [by rewrite (processCSVFile_rows env p filePath header rows s), Hloop|].
  split; [apply acceptable_spec|].
  split.
  { intros Hsize. rewrite !wrap64_small by lia.
    split; [lia|]. split; [lia|]. apply acceptable_exact; lia. }
  split; [by intros -> ->|]. split; [by intros -> ->|].
  intros ->. rewrite rowLoop_end in Hloop.
  assert (Go.wrap64 k = 0) as -> by congruence.
  assert (Go.wrap64 readableRows = 0) as -> by congruence.
  by repeat split.
Qed.

Lemma file_success_policy_witness :
  os_Open Demo.shop "/data/watch/20240101_120000.csv"
    = Some [Demo.header; {| fields := Demo.row; parseErr := None |}] ∧
  parseErr Demo.header = None ∧
  (∀ col, col ∈ ParserSpec.requiredColumns → col ∈ fields Demo.header) ∧
  ∃ rowCount errorCount success s',
    processor.rowLoop Demo.shop Demo.csvProcessor
      (processor.getColumnIndices (fields Demo.header))
      "/data/watch/20240101_120000.csv" [{| fields := Demo.row; parseErr := None |}]
      (Go.len (fields Demo.header)) 0 0
      (extend processor.NewCSVProcessor [EvRead "/data/watch/20240101_120000.csv"])
    = Ok (rowCount, errorCount) s' ∧
    rowCount = 1 ∧
    processor.processCSVFile Demo.shop Demo.csvProcessor
      "/data/watch/20240101_120000.csv" processor.NewCSVProcessor = Ok success s' ∧
    (success = true ↔
       errorCount = 0 ∨ ParserSpec.underThreshold rowCount errorCount = true) ∧
    (Z.of_nat (length [{| fields := Demo.row; parseErr := None |}]) < 2 ^ 53 →
     0 ≤ rowCount ∧ 0 ≤ errorCount ∧
     (success = true ↔ errorCount = 0 ∨ 20 * errorCount < rowCount)) ∧
    (rowCount = 100 → errorCount = 4 → success = true) ∧
    (rowCount = 100 → errorCount = 6 → success = false) ∧
    ([{| fields := Demo.row; parseErr := None |}] = [] →
     rowCount = 0 ∧ errorCount = 0 ∧ success = true).
Proof.
  assert (∀ col, col ∈ ParserSpec.requiredColumns → col ∈ fields Demo.header) as H
    by (intros col Hcol; exact Hcol).
  repeat (split; [first [reflexivity | exact H]|]).
  exact (file_success_policy Demo.shop Demo.csvProcessor
           "/data/watch/20240101_120000.csv" Demo.header
           [{| fields := Demo.row; parseErr := None |}] processor.NewCSVProcessor
           eq_refl eq_refl H).
Defined.

(** C10. In a file with a valid header, a data row that the reader fails to
    read (malformed, or with a number of fields different from the header)
    adds one to [errorCount] and leaves [rowCount].  So when the file has
    data rows and none of them can be read, [rowCount] is 0, [errorCount]
    is the number of rows, and the file is judged failed. *)
Theorem unread_rows_count_as_errors (env : Env) (p : processor.CSVProcessor)
    (filePath : string) (header : RawRecord) (rows : list RawRecord) (s : State) :
  os_Open env filePath = Some (header :: rows) →
  parseErr header = None →
  (∀ col, col ∈ ParserSpec.requiredColumns → col ∈ fields header) →
  let n := Go.len (fields header) in
  let indices := processor.getColumnIndices (fields header) in
  (∀ raw rest rowCount errorCount s0,
     ParserSpec.readable n raw = false →
     processor.rowLoop env p indices filePath (raw :: rest) n rowCount errorCount s0
     = processor.rowLoop env p indices filePath rest n rowCount
         (Go.int_add errorCount 1) (extend s0 [EvRead filePath])) ∧
  (rows ≠ [] →
   forallb (fun raw => negb (ParserSpec.readable n raw)) rows = true →
   Z.of_nat (length rows) < 2 ^ 63 →
   ∃ s',
     processor.rowLoop env p indices filePath rows n 0 0 (extend s [EvRead filePath])
     = Ok (0, Z.of_nat (length rows)) s' ∧
     0 < Z.of_nat (length rows) ∧
     processor.processCSVFile env p filePath s = Ok false s').
Proof.
  intros Hopen Hparse Hheader n indices.
  pose proof (complete_header _ Hheader) as Hcomplete.
  destruct (complete_header_fields _ Hcomplete) as [Hlen Hrange]. fold n in Hlen.
  split.
  - intros raw rest rowCount errorCount s0 Hraw.
    destruct (readRecord_data n raw Hlen) as (err & Hread & Herr).
    destruct err as [err|].
    + by apply (rowLoop_unread env p indices filePath raw rest n n (fields raw) err).
    + rewrite (proj1 Herr eq_refl) in Hraw. discriminate.
  - intros Hrows Hall Hbound.
    assert (0 < Z.of_nat (length rows)) as Hpos by (destruct rows; [done | cbn; lia]).
    pose proof (rowLoop_unreadable env p indices filePath rows n 0 0
                  (extend s [EvRead filePath]) Hlen Hall ltac:(lia)) as Hloop.
    rewrite Z.add_0_l, wrap64_small in Hloop by lia.
    eexists. split; [exact Hloop|]. split; [exact Hpos|].
    rewrite (processCSVFile_rows env p filePath header rows s Hopen Hparse Hcomplete).
    fold n indices. rewrite Hloop. by rewrite acceptable_no_row.
Qed.

Lemma unread_rows_count_as_errors_witness :
  os_Open Demo.shop "/data/watch/20240101_120001.csv"
    = Some [Demo.header;
            {| fields := ["1000000001"; "1ZX23456789"]; parseErr := None |};
            {| fields := []; parseErr := Some "bare quote in non-quoted field" |}] ∧
  parseErr Demo.header = None ∧
  (∀ col, col ∈ ParserSpec.requiredColumns → col ∈ fields Demo.header) ∧
  ∃ s',
    processor.rowLoop Demo.shop Demo.csvProcessor
      (processor.getColumnIndices (fields Demo.header))
      "/data/watch/20240101_120001.csv"
      [{| fields := ["1000000001"; "1ZX23456789"]; parseErr := None |};
       {| fields := []; parseErr := Some "bare quote in non-quoted field" |}]
      (Go.len (fields Demo.header)) 0 0
      (extend processor.NewCSVProcessor [EvRead "/data/watch/20240101_120001.csv"])
    = Ok (0, 2) s' ∧
    0 < 2 ∧
    processor.processCSVFile Demo.shop Demo.csvProcessor
      "/data/watch/20240101_120001.csv" processor.NewCSVProcessor = Ok false s'.
Proof.
  assert (∀ col, col ∈ ParserSpec.requiredColumns → col ∈ fields Demo.header) as H
    by (intros col Hcol; exact Hcol).
  repeat (split; [first [reflexivity | exact H]|]).
  apply (proj2 (unread_rows_count_as_errors Demo.shop Demo.csvProcessor
                  "/data/watch/20240101_120001.csv" Demo.header
                  [{| fields := ["1000000001"; "1ZX23456789"]; parseErr := None |};
                   {| fields := []; parseErr := Some "bare quote in non-quoted field" |}]
                  processor.NewCSVProcessor eq_refl eq_refl H)).
  - discriminate.
  - reflexivity.
  - cbn. lia.
Defined.

(** * Further properties of the code *)

(** ** The indices of the columns *)

Section Columns.
Import processor CodeSpec.

Lemma setColumn_columnIndex c indices col i :
  columnIndex c (setColumn indices col i)
  = if String.eqb col (columnName c) then i else columnIndex c indices.
Proof.
  unfold setColumn.
  destruct c; cbn [columnName columnIndex];
    repeat match goal with
      | |- context [String.eqb col ?b] =>
          destruct (String.eqb_spec col b); subst; cbn
      end; try reflexivity; discriminate.
Qed.

Lemma rangeHeader_lastPosition c header : ∀ k indices,
  ((columnName c ∉ header) ∧
   columnIndex c (rangeHeader (Z.of_nat k) header indices) = columnIndex c indices) ∨
  (∃ j, header !! j = Some (columnName c) ∧
        (∀ j', (j < j')%nat → header !! j' ≠ Some (columnName c)) ∧
        columnIndex c (rangeHeader (Z.of_nat k) header indices) = Z.of_nat (k + j)).
Proof.
  induction header as [|col rest IH]; intros k indices; cbn [rangeHeader].
  - left. split; [apply not_elem_of_nil | reflexivity].
  - replace (Z.of_nat k + 1) with (Z.of_nat (S k)) by lia.
    destruct (IH (S k) (setColumn indices col (Z.of_nat k)))
      as [[Hnot Heq]|(j & Hj & Hlast & Heq)].
    + rewrite Heq, setColumn_columnIndex.
      destruct (String.eqb_spec col (columnName c)) as [->|Hne].
      * right. exists 0%nat. split; [reflexivity|]. split; [|f_equal; lia].
        intros [|j'] Hj'; [lia|]. cbn. intros Hin. apply Hnot.
        by apply list_elem_of_lookup_2 in Hin.
      * left. split; [|reflexivity]. rewrite elem_of_cons. intros [Heq'|Hin]; [congruence|tauto].
    + right. exists (S j). split; [exact Hj|]. split.
      * intros [|j'] Hj'; [lia|]. cbn. apply Hlast. lia.
      * rewrite Heq. f_equal. lia.
Qed.

End Columns.

(** X1. For each required column, [getColumnIndices] returns the position
    of the last column of the header with that name, and -1 when the header
    has none. *)
Theorem getColumnIndices_last_occurrence (header : list string) (c : CodeSpec.Column) :
  CodeSpec.lastPosition (CodeSpec.columnName c) header
    (CodeSpec.columnIndex c (processor.getColumnIndices header)).
Proof.
  unfold processor.getColumnIndices, CodeSpec.lastPosition.
  pose proof (rangeHeader_lastPosition c header 0
              {| processor.orderNumber := -1; processor.trackingNumber := -1;
                 processor.carrierCode := -1; processor.title := -1 |}) as H.
  change (Z.of_nat 0) with 0 in H.
  destruct H as [[Hnot Heq]|(j & Hj & Hlast & Heq)].
  - left. split; [|exact Hnot]. rewrite Heq. by destruct c.
  - right. rewrite Heq. cbn [Nat.add]. rewrite Nat2Z.id.
    split; [lia|]. split; [exact Hj | exact Hlast].
Qed.

(** ** The cost of the operations of the client *)

Section Cost.
Import Go model api processor RetrySpec CodeSpec.
Context (env : Env).

Lemma spends_ret {A} (a : A) : spends (ret a) 0.
Proof. intros s. exists a, []. by rewrite extend_nil. Qed.

Lemma spends_bind {A B} (m : M A) (k : A → M B) a b :
  spends m a → (∀ x, spends (k x) b) → spends (bind m k) (a + b).
Proof.
  intros Hm Hk s. destruct (Hm s) as (x & evs1 & Hrun1 & Hnet1 & Hc1).
  destruct (Hk x (extend s evs1)) as (y & evs2 & Hrun2 & Hnet2 & Hc2).
  exists y, (evs1 ++ evs2)%list. unfold bind.
  rewrite Hrun1, Hrun2, extend_extend. split; [reflexivity|]. split.
  - rewrite forallb_app, Hnet1, Hnet2. reflexivity.
  - rewrite count_Do_app. lia.
Qed.

Lemma spends_le {A} (m : M A) a b : (a ≤ b)%nat → spends m a → spends m b.
Proof.
  intros Hab Hm s. destruct (Hm s) as (x & evs & Hrun & Hnet & Hc).
  exists x, evs. repeat split; [assumption..|lia].
Qed.

Lemma spends_Do req : spends (httpClient_Do env req) 1.
Proof. intros s. eexists _, [EvDo req]. by repeat split. Qed.

Lemma spends_Sleep d : spends (time_Sleep d) 0.
Proof. intros s. eexists _, [EvSleep d]. by repeat split. Qed.

Lemma doRequest_loop_spends {A} c (decode : string → error + A) n :
  ∀ attempts req, spends (doRequest_loop env c decode n attempts req) n.
Proof.
  induction n as [|n IH]; intros attempts req; cbn [doRequest_loop].
  - apply spends_ret.
  - apply (spends_bind _ _ 1 n); [apply spends_Do|].
    assert (∀ req', spends
              (time_Sleep (int_mul (backoff c) (attempts + 1)) ;;;
               doRequest_loop env c decode n (attempts + 1) req') n) as Hretry.
    { intros req'. apply (spends_bind _ _ 0 n); [apply spends_Sleep|].
      intros _. apply IH. }
    intros [err|status body].
    + destruct (attempts + 1 <? maxRetries c); [apply Hretry|].
      apply (spends_le _ 0); [lia|apply spends_ret].
    + destruct (notSuccessful status).
      * destruct (attempts + 1 <? maxRetries c); [apply Hretry|].
        apply (spends_le _ 0); [lia|apply spends_ret].
      * apply (spends_le _ 0); [lia|apply spends_ret].
Qed.

Lemma doRequest_spends {A} c (decode : string → error + A) req :
  spends (doRequest env c decode req) (maxAttempts c).
Proof.
  unfold doRequest, maxAttempts. rewrite Z.sub_0_r. apply doRequest_loop_spends.
Qed.

Lemma GetOrderByIncrementID_spends c incrementID :
  spends (GetOrderByIncrementID env c incrementID) (maxAttempts c).
Proof.
  unfold GetOrderByIncrementID. cbv zeta.
  destruct (http_NewRequest env _ _ _) as [err|req].
  { apply (spends_le _ 0); [lia|apply spends_ret]. }
  replace (maxAttempts c) with (maxAttempts c + 0)%nat by lia.
  apply spends_bind; [apply doRequest_spends|].
  intros [err|response]; [apply spends_ret|].
  destruct (_ || _) eqn:Hempty; [apply spends_ret|].
  apply orb_false_iff in Hempty as [_ Hlen].
  destruct (Orders_Items response) as [|order items]; [discriminate|].
  apply spends_ret.
Qed.

Lemma GetShipmentsByOrderID_spends c orderID :
  spends (GetShipmentsByOrderID env c orderID) (maxAttempts c).
Proof.
  unfold GetShipmentsByOrderID. cbv zeta.
  destruct (http_NewRequest env _ _ _) as [err|req].
  { apply (spends_le _ 0); [lia|apply spends_ret]. }
  replace (maxAttempts c) with (maxAttempts c + 0)%nat by lia.
  apply spends_bind; [apply doRequest_spends|].
  intros [err|response]; [apply spends_ret|].
  destruct (_ || _); apply spends_ret.
Qed.

Lemma AddTrackingToShipment_spends c shipmentID track :
  spends (AddTrackingToShipment env c shipmentID track) (maxAttempts c).
Proof.
  unfold AddTrackingToShipment. cbv zeta.
  destruct (json_Marshal_entity env _) as [err|body].
  { apply (spends_le _ 0); [lia|apply spends_ret]. }
  destruct (http_NewRequest env _ _ _) as [err|req].
  { apply (spends_le _ 0); [lia|apply spends_ret]. }
  replace (maxAttempts c) with (maxAttempts c + 0)%nat by lia.
  apply spends_bind; [apply doRequest_spends|].
  intros [err|?]; apply spends_ret.
Qed.

(** A row that has the four fields costs three operations at most, and
    none when its record is invalid. *)
Lemma processRow_spends p row indices info :
  recordOf indices row = Some info →
  spends (processRow env p row indices)
    (if bool_decide (is_Some (Validate info)) then 0
     else 3 * maxAttempts (magentoClient p)).
Proof.
  unfold recordOf, processRow. intros Hrec.
  destruct (index row (orderNumber indices)) as [o|]; [|discriminate].
  destruct (index row (trackingNumber indices)) as [t|]; [|discriminate].
  destruct (index row (carrierCode indices)) as [cc|]; [|discriminate].
  destruct (index row (title indices)) as [ti|]; [|discriminate].
  injection Hrec as <-. cbv zeta.
  destruct (Validate _) as [err|] eqn:Hvalid.
  { rewrite bool_decide_true by eauto. apply spends_ret. }
  rewrite bool_decide_false by (intros [? ?]; discriminate).
  set (m := maxAttempts (magentoClient p)).
  replace (3 * m)%nat with (m + (m + (m + 0)))%nat by lia.
  apply spends_bind; [apply GetOrderByIncrementID_spends|].
  intros [err|order]; [apply (spends_le _ 0); [lia|apply spends_ret]|].
  apply spends_bind; [apply GetShipmentsByOrderID_spends|].
  intros [err|shipments]; [apply (spends_le _ 0); [lia|apply spends_ret]|].
  destruct shipments as [|shipment ?]; [apply (spends_le _ 0); [lia|apply spends_ret]|].
  apply spends_bind; [apply AddTrackingToShipment_spends|].
  intros [err|]; apply spends_ret.
Qed.

End Cost.

(** ** The requests of the client *)

(** X2. [doRequest] returns from every state and for every behaviour of the
    remote service, without panic.  Its only effects are round trips and
    sleeps; it makes at most [maxRetries] round trips; every request it
    sends has the method, the URL and the headers of the given one, and is
    the given one when that has no body. *)
Theorem doRequest_bounded (env : Env) (c : api.MagentoClient) {A : Type}
    (decode : string → Go.error + A) (req : Request) (s : State) :
  ∃ r evs,
    api.doRequest env c decode req s = Ok r (extend s evs) ∧
    forallb RetrySpec.isNet evs = true ∧
    (count_Do evs ≤ CodeSpec.maxAttempts c)%nat ∧
    Forall (RetrySpec.sameButBody req) (RetrySpec.requests evs).
Proof.
  destruct (doRequest_runs env c decode req s) as (r & evs & Hrun & Hnet & Hreqs & _).
  destruct (doRequest_spends env c decode req s) as (r' & evs' & Hrun' & _ & Hcount).
  rewrite Hrun in Hrun'. apply Ok_extend_inj in Hrun' as [_ <-].
  by exists r, evs.
Qed.

(** X3. A client whose [maxRetries] is zero or negative never contacts the
    service: [doRequest] returns the error "max retries exceeded" at once,
    with no effect at all. *)
Theorem doRequest_without_attempts (env : Env) (c : api.MagentoClient) {A : Type}
    (decode : string → Go.error + A) (req : Request) (s : State) :
  api.maxRetries c ≤ 0 →
  api.doRequest env c decode req s
  = Ok (inl (Go.errorString "max retries exceeded")) s.
Proof.
  intros Hmax. unfold api.doRequest.
  replace (Z.to_nat (api.maxRetries c - 0)) with 0%nat by lia. reflexivity.
Qed.

Lemma doRequest_without_attempts_witness :
  api.maxRetries Examples.idleClient ≤ 0 ∧
  api.doRequest Demo.shop Examples.idleClient (json_Decode_any Demo.shop) Demo.get
    processor.NewCSVProcessor
  = Ok (inl (Go.errorString "max retries exceeded")) processor.NewCSVProcessor.
Proof.
  split; [cbn; lia|]. apply doRequest_without_attempts. cbn. lia.
Defined.

(** X4. The two lookups, of an order by its number and of the shipments of
    an order, return from every state without panic; each makes at most
    [maxRetries] round trips, and every request it sends, retries included,
    is the same authorized GET request. *)
Theorem lookups_resend_one_request (env : Env) (c : api.MagentoClient)
    (incrementID : string) (orderID : Z) (s : State) :
  (∃ r evs,
     api.GetOrderByIncrementID env c incrementID s = Ok r (extend s evs) ∧
     forallb RetrySpec.isNet evs = true ∧
     (count_Do evs ≤ CodeSpec.maxAttempts c)%nat ∧
     Forall (eq (RetrySpec.orderRequest env c incrementID)) (RetrySpec.requests evs)) ∧
  (∃ r evs,
     api.GetShipmentsByOrderID env c orderID s = Ok r (extend s evs) ∧
     forallb RetrySpec.isNet evs = true ∧
     (count_Do evs ≤ CodeSpec.maxAttempts c)%nat ∧
     Forall (eq (RetrySpec.shipmentsRequest env c orderID)) (RetrySpec.requests evs)) ∧
  Method (RetrySpec.orderRequest env c incrementID) = "GET" ∧
  Method (RetrySpec.shipmentsRequest env c orderID) = "GET" ∧
  Header (RetrySpec.orderRequest env c incrementID) !! "Authorization"
    = Some ("Bearer " +:+ api.token c) ∧
  Header (RetrySpec.shipmentsRequest env c orderID) !! "Authorization"
    = Some ("Bearer " +:+ api.token c).
Proof.
  split; [|split].
  - destruct (GetOrderByIncrementID_runs env c incrementID s)
      as (r & evs & Hrun & Hnet & Hreqs).
    destruct (GetOrderByIncrementID_spends env c incrementID s)
      as (r' & evs' & Hrun' & _ & Hcount).
    rewrite Hrun in Hrun'. apply Ok_extend_inj in Hrun' as [_ <-]. by exists r, evs.
  - destruct (GetShipmentsByOrderID_runs env c orderID s)
      as (r & evs & Hrun & Hnet & Hreqs).
    destruct (GetShipmentsByOrderID_spends env c orderID s)
      as (r' & evs' & Hrun' & _ & Hcount).
    rewrite Hrun in Hrun'. apply Ok_extend_inj in Hrun' as [_ <-]. by exists r, evs.
  - unfold RetrySpec.orderRequest, RetrySpec.shipmentsRequest, api.authorize,
      api.Header_Set. cbn [Method Header].
    repeat split; (rewrite lookup_insert_ne by done); by rewrite lookup_insert.
Qed.

(** X5. [AddTrackingToShipment] returns from every state without panic and
    makes at most [maxRetries] round trips.  Every request it sends is an
    authorized POST to the track endpoint with a body, and the first one
    carries the given entry with the identifier of the shipment as parent;
    when the entry cannot be marshalled nothing is sent. *)
Theorem AddTrackingToShipment_requests (env : Env) (c : api.MagentoClient)
    (shipmentID : Z) (track : model.MagentoTrack) (s : State) :
  let entity :=
    {| model.Track_OrderID := model.Track_OrderID track;
       model.Track_ParentID := shipmentID;
       model.Track_TrackNumber := model.Track_TrackNumber track;
       model.Track_Title := model.Track_Title track;
       model.Track_CarrierCode := model.Track_CarrierCode track |} in
  ∃ r evs,
    api.AddTrackingToShipment env c shipmentID track s = Ok r (extend s evs) ∧
    forallb RetrySpec.isNet evs = true ∧
    (count_Do evs ≤ CodeSpec.maxAttempts c)%nat ∧
    Forall (fun req =>
              Method req = "POST" ∧
              URL req = api.baseURL c +:+ "/shipment/track" ∧
              Header req !! "Authorization" = Some ("Bearer " +:+ api.token c) ∧
              is_Some (Body req)) (RetrySpec.requests evs) ∧
    (∀ first, head (RetrySpec.requests evs) = Some first →
       ∃ body, Body first = Some body ∧ json_Marshal_entity env entity = inr body) ∧
    (∀ err, json_Marshal_entity env entity = inl err → evs = []).
Proof.
  intros entity.
  destruct (AddTrackingToShipment_runs env c shipmentID track s)
    as (r & evs & Hrun & Hnet & Hreqs).
  destruct (AddTrackingToShipment_spends env c shipmentID track s)
    as (r' & evs' & Hrun' & _ & Hcount).
  rewrite Hrun in Hrun'. apply Ok_extend_inj in Hrun' as [_ <-]. exists r, evs. repeat split; try assumption.
  - apply Forall_forall. intros req Hreq.
    destruct (Hreqs req Hreq) as (body & _ & (HM & HU & HH & _ & HB) & _).
    rewrite HM, HU, HH. unfold RetrySpec.trackRequest, api.authorize, api.Header_Set.
    cbn [Method URL Header Body].
    split; [reflexivity|]. split; [reflexivity|]. split.
    + rewrite lookup_insert_ne by done. by rewrite lookup_insert.
    + apply HB. cbn. eauto.
  - intros first Hfirst.
    assert (first ∈ RetrySpec.requests evs) as Hin.
    { destruct (RetrySpec.requests evs); [discriminate|].
      injection Hfirst as ->. apply elem_of_cons. by left. }
    destruct (Hreqs first Hin) as (body & Hbody & _ & Hhead).
    rewrite Hhead in Hfirst. injection Hfirst as <-. by exists body.
  - intros err Herr. fold entity in Hreqs.
    unfold api.AddTrackingToShipment in Hrun. cbv zeta in Hrun. fold entity in Hrun.
    rewrite Herr in Hrun. unfold ret in Hrun.
    rewrite <- (extend_nil s) in Hrun at 1. by apply Ok_extend_inj in Hrun as [_ <-].
Qed.

(** ** The effects of a file *)

Section FileEffects.
Import Go model api processor ParserSpec RetrySpec CodeSpec.
Context (env : Env) (p : CSVProcessor).

Lemma count_Read_app tr1 tr2 :
  count_Read (tr1 ++ tr2) = (count_Read tr1 + count_Read tr2)%nat.
Proof. unfold count_Read. by rewrite List.filter_app, length_app. Qed.

Lemma isNet_isFileEffect evs :
  forallb isNet evs = true → forallb isFileEffect evs = true ∧ count_Read evs = 0%nat.
Proof.
  induction evs as [|ev evs IH]; [done|]. cbn [forallb].
  intros [Hev Hevs]%andb_true_iff. destruct (IH Hevs) as [IH1 IH2].
  unfold isFileEffect at 1. rewrite Hev, orb_true_r, IH1.
  split; [reflexivity|]. destruct ev; try discriminate; exact IH2.
Qed.

Lemma rows_partition n indices rows :
  (unreadableRows n rows + invalidRows n indices rows + validRows n indices rows
   = length rows)%nat ∧
  (readableRows n rows = invalidRows n indices rows + validRows n indices rows)%nat.
Proof.
  unfold unreadableRows, invalidRows, validRows, readableRows.
  induction rows as [|raw rows [IH1 IH2]]; [done|]. cbn [List.filter length].
  destruct (readable n raw), (invalidRow indices raw); cbn [negb andb length]; lia.
Qed.

(** A readable row of a file with a complete header has the four fields. *)
Lemma readable_recordOf n indices raw :
  inRange n indices → readable n raw = true →
  is_Some (recordOf indices (fields raw)).
Proof.
  intros (H1 & H2 & H3 & H4) [_ Hlen%Z.eqb_eq]%andb_true_iff. unfold recordOf.
  destruct (index_is_Some (fields raw) (orderNumber indices)) as [o ->]; [lia|].
  destruct (index_is_Some (fields raw) (trackingNumber indices)) as [t ->]; [lia|].
  destruct (index_is_Some (fields raw) (carrierCode indices)) as [cc ->]; [lia|].
  destruct (index_is_Some (fields raw) (title indices)) as [ti ->]; [lia|].
  eauto.
Qed.

(** A row with an invalid record is refused before any operation. *)
Lemma processRow_invalid row indices info err s :
  recordOf indices row = Some info → Validate info = Some err →
  processRow env p row indices s
  = Ok (Some (wrapError "invalid tracking info" err)) s.
Proof.
  unfold recordOf, processRow. intros Hrec Hvalid.
  destruct (index row (orderNumber indices)) as [o|]; [|discriminate].
  destruct (index row (trackingNumber indices)) as [t|]; [|discriminate].
  destruct (index row (carrierCode indices)) as [cc|]; [|discriminate].
  destruct (index row (title indices)) as [ti|]; [|discriminate].
  injection Hrec as <-. cbv zeta. by rewrite Hvalid.
Qed.

(** The loop over the rows: the two counters, the reads and the round
    trips. *)
Lemma rowLoop_effects indices file rows : ∀ n rowCount errorCount s,
  0 < n → inRange n indices →
  - 2 ^ 63 ≤ rowCount < 2 ^ 63 →
  - 2 ^ 63 ≤ errorCount < 2 ^ 63 →
  ∃ k evs,
    rowLoop env p indices file rows n rowCount errorCount s
    = Ok (wrap64 (rowCount + Z.of_nat (readableRows n rows)),
          wrap64 (errorCount + Z.of_nat k))
         (extend s evs) ∧
    (unreadableRows n rows + invalidRows n indices rows ≤ k ≤ length rows)%nat ∧
    forallb isFileEffect evs = true ∧
    count_Read evs = S (length rows) ∧
    (count_Do evs ≤ validRows n indices rows * (3 * maxAttempts (magentoClient p)))%nat.
Proof.
  unfold unreadableRows, invalidRows, validRows, readableRows.
  set (B := (3 * maxAttempts (magentoClient p))%nat).
  induction rows as [|raw rows IH]; intros n rowCount errorCount s Hn Hin Hrc Hec.
  - rewrite rowLoop_end. cbn [List.filter length].
    exists 0%nat, [EvRead file]. rewrite !Z.add_0_r, !wrap64_small by assumption.
    repeat split; cbn; lia.
  - destruct (readRecord_data n raw Hn) as (err & Hread & Herr).
    cbn [List.filter]. destruct err as [err|].
    + assert (readable n raw = false) as ->.
      { destruct (readable n raw); [|reflexivity]. discriminate (proj2 Herr eq_refl). }
      rewrite (rowLoop_unread env p indices file raw rows n n (fields raw) err) by done.
      destruct (IH n rowCount (int_add errorCount 1) (extend s [EvRead file]) Hn Hin Hrc
                  (wrap64_range _)) as (k & evs & -> & Hk & Heff & Hreads & Hdo).
      rewrite extend_extend. unfold int_add. rewrite wrap64_add_l.
      exists (S k), ([EvRead file] ++ evs)%list. cbn [negb andb length].
      split; [f_equal; f_equal; f_equal; lia|].
      split; [lia|]. split; [exact Heff|].
      rewrite count_Read_app, count_Do_app, Hreads.
      split; [reflexivity | exact Hdo].
    + pose proof (proj1 Herr eq_refl) as Hreadable. rewrite Hreadable.
      destruct (readable_recordOf n indices raw Hin Hreadable) as [info Hinfo].
      cbn [negb andb].
      destruct (Validate info) as [verr|] eqn:Hvalid.
      * assert (invalidRow indices raw = true) as ->.
        { unfold invalidRow. rewrite Hinfo, Hvalid. apply bool_decide_true. eauto. }
        cbn [negb length].
        pose proof (processRow_invalid (fields raw) indices info verr
                      (extend s [EvRead file]) Hinfo Hvalid) as Hrow.
        rewrite (rowLoop_processed env p indices file raw rows n n (fields raw) _
                   rowCount errorCount s _ Hread Hrow).
        destruct (IH n (int_add rowCount 1) (int_add errorCount 1)
                    (extend s [EvRead file]) Hn Hin (wrap64_range _) (wrap64_range _))
          as (k & evs & -> & Hk & Heff & Hreads & Hdo).
        rewrite extend_extend. unfold int_add. rewrite !wrap64_add_l.
        exists (S k), ([EvRead file] ++ evs)%list.
        split; [f_equal; f_equal; f_equal; lia|].
        split; [lia|]. split; [exact Heff|].
        rewrite count_Read_app, count_Do_app, Hreads.
        split; [reflexivity | exact Hdo].
      * assert (invalidRow indices raw = false) as ->.
        { unfold invalidRow. rewrite Hinfo, Hvalid. apply bool_decide_false.
          intros [? ?]; discriminate. }
        cbn [negb length].
        destruct (processRow_spends env p (fields raw) indices info Hinfo
                    (extend s [EvRead file])) as (r & evs1 & Hrow & Hnet1 & Hdo1).
        rewrite Hvalid, bool_decide_false in Hdo1 by (intros [? ?]; discriminate).
        fold B in Hdo1.
        destruct (isNet_isFileEffect evs1 Hnet1) as [Heff1 Hreads1].
        rewrite (rowLoop_processed env p indices file raw rows n n (fields raw) r
                   rowCount errorCount s _ Hread Hrow).
        destruct r as [e|].
        -- destruct (IH n (int_add rowCount 1) (int_add errorCount 1)
                       (extend (extend s [EvRead file]) evs1) Hn Hin
                       (wrap64_range _) (wrap64_range _))
             as (k & evs & -> & Hk & Heff & Hreads & Hdo).
           rewrite !extend_extend. unfold int_add. rewrite !wrap64_add_l.
           exists (S k), (([EvRead file] ++ evs1) ++ evs)%list.
           split; [f_equal; f_equal; f_equal; lia|].
           split; [lia|].
           rewrite !forallb_app, Heff1, Heff, !count_Read_app, !count_Do_app,
             Hreads, Hreads1.
           split; [reflexivity|]. split; [reflexivity|].
           change (count_Do [EvRead file]) with 0%nat. lia.
        -- destruct (IH n (int_add rowCount 1) errorCount
                       (extend (extend s [EvRead file]) evs1) Hn Hin
                       (wrap64_range _) Hec)
             as (k & evs & -> & Hk & Heff & Hreads & Hdo).
           rewrite !extend_extend. unfold int_add. rewrite !wrap64_add_l.
           exists k, (([EvRead file] ++ evs1) ++ evs)%list.
           split; [f_equal; f_equal; f_equal; lia|].
           split; [lia|].
           rewrite !forallb_app, Heff1, Heff, !count_Read_app, !count_Do_app,
             Hreads, Hreads1.
           split; [reflexivity|]. split; [reflexivity|].
           change (count_Do [EvRead file]) with 0%nat. lia.
Qed.

End FileEffects.

(** [processCSVFile] by the file it is given: no file, an empty file, a
    header that is malformed or incomplete, and the loop over the rows. *)
Lemma processCSVFile_cases (env : Env) (p : processor.CSVProcessor)
    (filePath : string) (s : State) :
  processor.processCSVFile env p filePath s =
  match os_Open env filePath with
  | None => Ok false s
  | Some [] => Ok false (extend s [EvRead filePath])
  | Some (header :: rows) =>
      if bool_decide (parseErr header = None)
         && negb (ParserSpec.incomplete (processor.getColumnIndices (fields header)))
      then
        match processor.rowLoop env p (processor.getColumnIndices (fields header))
                filePath rows (Go.len (fields header)) 0 0
                (extend s [EvRead filePath]) with
        | Ok (rowCount, errorCount) s' => Ok (processor.acceptable rowCount errorCount) s'
        | Panic s' => Panic s'
        end
      else Ok false (extend s [EvRead filePath])
  end.
Proof.
  destruct (os_Open env filePath) as [[|header rows]|] eqn:Hopen.
  - unfold processor.processCSVFile. by rewrite Hopen.
  - destruct (parseErr header) as [msg|] eqn:Hparse.
    { rewrite bool_decide_false by discriminate. cbn [andb].
      unfold processor.processCSVFile. rewrite Hopen.
      unfold csv.Read, csv.NewReader, bind, tell, ret, emit.
      cbn [csv.pending csv.FieldsPerRecord csv.path].
      unfold csv.readRecord. by rewrite Hparse. }
    rewrite bool_decide_true by reflexivity. cbn [andb].
    destruct (ParserSpec.incomplete (processor.getColumnIndices (fields header)))
      eqn:Hcomplete; cbn [negb].
    { unfold processor.processCSVFile. rewrite Hopen.
      unfold csv.Read, csv.NewReader, bind, tell, ret, emit.
      cbn [csv.pending csv.FieldsPerRecord csv.path].
      rewrite (readRecord_header header Hparse).
      unfold ParserSpec.incomplete in Hcomplete. by rewrite Hcomplete. }
    exact (processCSVFile_rows env p filePath header rows s Hopen Hparse Hcomplete).
  - unfold processor.processCSVFile. by rewrite Hopen.
Qed.

(** [processCSVFile] returns on every file, and leaves the ledger and the
    queue alone. *)
Lemma processCSVFile_runs (env : Env) (p : processor.CSVProcessor)
    (filePath : string) (s : State) :
  ∃ success evs, processor.processCSVFile env p filePath s = Ok success (extend s evs).
Proof.
  rewrite processCSVFile_cases.
  destruct (os_Open env filePath) as [[|header rows]|];
    [by eexists _, [_] | | eexists _, []; by rewrite extend_nil].
  destruct (bool_decide _ && negb _) eqn:Hheader; [|by eexists _, [_]].
  apply andb_true_iff in Hheader as [_ Hcomplete%negb_true_iff].
  destruct (complete_header_fields _ Hcomplete) as [Hlen Hrange].
  destruct (rowLoop_effects env p (processor.getColumnIndices (fields header)) filePath
              rows (Go.len (fields header)) 0 0 (extend s [EvRead filePath])
              Hlen Hrange ltac:(lia) ltac:(lia)) as (k & evs & -> & _).
  rewrite extend_extend. by eexists _, _.
Qed.

(** X6. [processCSVFile] returns on every file, readable or not, and for
    every behaviour of the remote service, without panic.  It leaves the
    ledger and the queue of the processor as they are; its only effects are
    reads of the file, round trips and sleeps.  It reads at most once per
    line and once more for the end of the file, and makes at most
    [3 * maxRetries] round trips per data row. *)
Theorem processCSVFile_bounded (env : Env) (p : processor.CSVProcessor)
    (filePath : string) (s : State) :
  let lines := default [] (os_Open env filePath) in
  ∃ success evs,
    processor.processCSVFile env p filePath s = Ok success (extend s evs) ∧
    forallb CodeSpec.isFileEffect evs = true ∧
    (CodeSpec.count_Read evs ≤ S (length lines))%nat ∧
    (count_Do evs
     ≤ pred (length lines) * (3 * CodeSpec.maxAttempts (processor.magentoClient p)))%nat.
Proof.
  intros lines. subst lines. rewrite processCSVFile_cases.
  destruct (os_Open env filePath) as [[|header rows]|];
    cbn [default from_option id length pred].
  - exists false, [EvRead filePath]. repeat split; cbn; lia.
  - destruct (bool_decide _ && negb _) eqn:Hheader.
    2:{ exists false, [EvRead filePath]. repeat split; cbn; lia. }
    apply andb_true_iff in Hheader as [_ Hcomplete%negb_true_iff].
    destruct (complete_header_fields _ Hcomplete) as [Hlen Hrange].
    destruct (rowLoop_effects env p (processor.getColumnIndices (fields header)) filePath
                rows (Go.len (fields header)) 0 0 (extend s [EvRead filePath])
                Hlen Hrange ltac:(lia) ltac:(lia))
      as (k & evs & -> & Hk & Heff & Hreads & Hdo).
    rewrite extend_extend.
    exists (processor.acceptable
              (Go.wrap64 (0 + Z.of_nat (CodeSpec.readableRows (Go.len (fields header)) rows)))
              (Go.wrap64 (0 + Z.of_nat k))),
      ([EvRead filePath] ++ evs)%list.
    split; [reflexivity|]. split; [exact Heff|].
    rewrite count_Read_app, count_Do_app, Hreads. split; [cbn; lia|].
    change (count_Do [EvRead filePath]) with 0%nat.
    destruct (rows_partition (Go.len (fields header))
                (processor.getColumnIndices (fields header)) rows) as [Hsum _].
    cbn [Nat.add]. etransitivity; [exact Hdo|].
    apply Nat.mul_le_mono_r. lia.
  - exists false, []. rewrite extend_nil. repeat split; cbn; lia.
Qed.

(** X7. On a file with a complete header and fewer than 2^63 rows, when the
    rows are consumed [rowCount] is the number of rows the reader delivered
    and [errorCount] counts every row it did not deliver, every delivered
    row with an invalid record, and no more than all the rows.  The file is
    read once per line and once more for its end, and round trips are made
    only for delivered rows with a valid record, at most [3 * maxRetries]
    for each. *)
Theorem file_counters (env : Env) (p : processor.CSVProcessor)
    (filePath : string) (header : RawRecord) (rows : list RawRecord) (s : State) :
  os_Open env filePath = Some (header :: rows) →
  parseErr header = None →
  ParserSpec.incomplete (processor.getColumnIndices (fields header)) = false →
  Z.of_nat (length rows) < 2 ^ 63 →
  let n := Go.len (fields header) in
  let indices := processor.getColumnIndices (fields header) in
  ∃ errors evs,
    processor.rowLoop env p indices filePath rows n 0 0 (extend s [EvRead filePath])
    = Ok (Z.of_nat (CodeSpec.readableRows n rows), Z.of_nat errors)
         (extend s (EvRead filePath :: evs)) ∧
    processor.processCSVFile env p filePath s
    = Ok (processor.acceptable (Z.of_nat (CodeSpec.readableRows n rows)) (Z.of_nat errors))
         (extend s (EvRead filePath :: evs)) ∧
    (CodeSpec.unreadableRows n rows + CodeSpec.invalidRows n indices rows ≤ errors
     ≤ length rows)%nat ∧
    CodeSpec.count_Read (EvRead filePath :: evs) = (length rows + 2)%nat ∧
    (count_Do evs
     ≤ CodeSpec.validRows n indices rows
       * (3 * CodeSpec.maxAttempts (processor.magentoClient p)))%nat.
Proof.
  intros Hopen Hparse Hcomplete Hbound n indices.
  rewrite (processCSVFile_rows env p filePath header rows s Hopen Hparse Hcomplete).
  destruct (complete_header_fields _ Hcomplete) as [Hlen Hrange].
  destruct (rowLoop_effects env p indices filePath rows n 0 0 (extend s [EvRead filePath])
              Hlen Hrange ltac:(lia) ltac:(lia))
    as (k & evs & Hloop & Hk & Heff & Hreads & Hdo).
  destruct (rows_partition n indices rows) as [Hsum Hreadable].
  rewrite !Z.add_0_l, extend_extend in Hloop. cbn [app] in Hloop.
  rewrite !wrap64_small in Hloop by lia.
  exists k, evs. fold n indices. rewrite Hloop.
  split; [reflexivity|]. split; [reflexivity|]. split; [exact Hk|].
  split; [|exact Hdo].
  change (EvRead filePath :: evs) with ([EvRead filePath] ++ evs)%list.
  rewrite count_Read_app, Hreads. cbn. lia.
Qed.

Lemma file_counters_witness :
  let filePath := "/data/watch/20240101_120000.csv" in
  let rows := [{| fields := Demo.row; parseErr := None |}] in
  let n := Go.len (fields Demo.header) in
  let indices := processor.getColumnIndices (fields Demo.header) in
  let s := processor.NewCSVProcessor in
  os_Open Demo.shop filePath = Some (Demo.header :: rows) ∧
  parseErr Demo.header = None ∧
  ParserSpec.incomplete indices = false ∧
  Z.of_nat (length rows) < 2 ^ 63 ∧
  ∃ errors evs,
    processor.rowLoop Demo.shop Demo.csvProcessor indices filePath rows n 0 0
      (extend s [EvRead filePath])
    = Ok (Z.of_nat (CodeSpec.readableRows n rows), Z.of_nat errors)
         (extend s (EvRead filePath :: evs)) ∧
    processor.processCSVFile Demo.shop Demo.csvProcessor filePath s
    = Ok (processor.acceptable (Z.of_nat (CodeSpec.readableRows n rows))
            (Z.of_nat errors))
         (extend s (EvRead filePath :: evs)) ∧
    (CodeSpec.unreadableRows n rows + CodeSpec.invalidRows n indices rows ≤ errors
     ≤ length rows)%nat ∧
    CodeSpec.count_Read (EvRead filePath :: evs) = (length rows + 2)%nat ∧
    (count_Do evs
     ≤ CodeSpec.validRows n indices rows
       * (3 * CodeSpec.maxAttempts (processor.magentoClient Demo.csvProcessor)))%nat.
Proof.
  intros filePath rows n indices s.
  assert (Z.of_nat (length rows) < 2 ^ 63) as Hbound by (cbn; lia).
  repeat (split; [first [reflexivity | exact Hbound]|]).
  exact (file_counters Demo.shop Demo.csvProcessor filePath Demo.header rows s
           eq_refl eq_refl eq_refl Hbound).
Defined.

Section Verdicts.
Import Go processor ParserSpec CodeSpec.

Lemma filter_all {A} (f : A → bool) (l : list A) :
  forallb f l = true → length (List.filter f l) = length l.
Proof.
  induction l as [|x l IH]; [done|]. cbn [forallb List.filter].
  intros [-> Hl]%andb_true_iff. cbn [length]. by rewrite IH.
Qed.

End Verdicts.

(** X8. On a file with a complete header whose rows are all delivered by
    the reader but all carry an invalid record, no request is sent to the
    remote service: every row is counted both as a row and as an error, and
    the file is judged failed. *)
Theorem invalid_rows_fail_without_request (env : Env) (p : processor.CSVProcessor)
    (filePath : string) (header : RawRecord) (rows : list RawRecord) (s : State) :
  os_Open env filePath = Some (header :: rows) →
  parseErr header = None →
  ParserSpec.incomplete (processor.getColumnIndices (fields header)) = false →
  let n := Go.len (fields header) in
  let indices := processor.getColumnIndices (fields header) in
  rows ≠ [] →
  Z.of_nat (length rows) < 2 ^ 53 →
  forallb (fun raw => ParserSpec.readable n raw && CodeSpec.invalidRow indices raw) rows
    = true →
  ∃ evs,
    processor.rowLoop env p indices filePath rows n 0 0 (extend s [EvRead filePath])
    = Ok (Z.of_nat (length rows), Z.of_nat (length rows)) (extend s evs) ∧
    processor.processCSVFile env p filePath s = Ok false (extend s evs) ∧
    count_Do evs = 0%nat.
Proof.
  intros Hopen Hparse Hcomplete n indices Hrows Hbound Hall.
  rewrite (processCSVFile_rows env p filePath header rows s Hopen Hparse Hcomplete).
  destruct (complete_header_fields _ Hcomplete) as [Hlen Hrange].
  destruct (rowLoop_effects env p indices filePath rows n 0 0 (extend s [EvRead filePath])
              Hlen Hrange ltac:(lia) ltac:(lia))
    as (k & evs & Hloop & Hk & Heff & Hreads & Hdo).
  destruct (rows_partition n indices rows) as [Hsum Hreadable].
  assert (CodeSpec.invalidRows n indices rows = length rows) as Hinvalid
    by (apply filter_all, Hall).
  assert (k = length rows) as -> by lia.
  assert (CodeSpec.readableRows n rows = length rows) as Hr by lia.
  assert (CodeSpec.validRows n indices rows = 0%nat) as Hv by lia.
  rewrite Hr, !Z.add_0_l, extend_extend in Hloop.
  rewrite !wrap64_small in Hloop by lia.
  exists ([EvRead filePath] ++ evs)%list. fold n indices. rewrite Hloop.
  split; [reflexivity|]. split.
  - f_equal. apply not_true_is_false. intros Hacc.
    apply acceptable_exact in Hacc; [|lia..].
    destruct rows; [done|]. cbn [length] in Hacc. lia.
  - rewrite count_Do_app, Hv in *. cbn in *. lia.
Qed.

Lemma invalid_rows_fail_without_request_witness :
  let filePath := "/data/watch/20240101_120003.csv" in
  let rows := [Examples.blankRow; Examples.blankRow] in
  let n := Go.len (fields Demo.header) in
  let indices := processor.getColumnIndices (fields Demo.header) in
  let s := processor.NewCSVProcessor in
  os_Open Examples.blanks filePath = Some (Demo.header :: rows) ∧
  parseErr Demo.header = None ∧
  ParserSpec.incomplete indices = false ∧
  rows ≠ [] ∧
  Z.of_nat (length rows) < 2 ^ 53 ∧
  forallb (fun raw => ParserSpec.readable n raw && CodeSpec.invalidRow indices raw) rows
    = true ∧
  ∃ evs,
    processor.rowLoop Examples.blanks Demo.csvProcessor indices filePath rows n 0 0
      (extend s [EvRead filePath])
    = Ok (Z.of_nat (length rows), Z.of_nat (length rows)) (extend s evs) ∧
    processor.processCSVFile Examples.blanks Demo.csvProcessor filePath s
    = Ok false (extend s evs) ∧
    count_Do evs = 0%nat.
Proof.
  intros filePath rows n indices s.
  assert (rows ≠ []) as Hrows by discriminate.
  assert (Z.of_nat (length rows) < 2 ^ 53) as Hbound by (cbn; lia).
  assert (forallb (fun raw => ParserSpec.readable n raw
                              && CodeSpec.invalidRow indices raw) rows = true) as Hall
    by (vm_compute; reflexivity).
  repeat (split; [first [reflexivity | exact Hbound | exact Hrows | exact Hall]|]).
  exact (invalid_rows_fail_without_request Examples.blanks Demo.csvProcessor filePath
           Demo.header rows s eq_refl eq_refl eq_refl Hrows Hbound Hall).
Defined.

(** X9. The verdict on a file is monotone: for counters below 2^53, a file
    that is judged successful is still judged successful with fewer errors
    or with more rows. *)
Theorem verdict_monotone (rowCount rowCount' errorCount errorCount' : Z) :
  0 ≤ rowCount ≤ rowCount' → rowCount' < 2 ^ 53 →
  0 ≤ errorCount' ≤ errorCount → errorCount < 2 ^ 53 →
  processor.acceptable rowCount errorCount = true →
  processor.acceptable rowCount' errorCount' = true.
Proof.
  intros Hr Hr' He He' Hacc.
  apply acceptable_exact in Hacc; [|lia..].
  apply acceptable_exact; lia.
Qed.

Lemma verdict_monotone_witness :
  0 ≤ 100 ≤ 120 ∧ 120 < 2 ^ 53 ∧ 0 ≤ 3 ≤ 4 ∧ 4 < 2 ^ 53 ∧
  processor.acceptable 100 4 = true ∧
  processor.acceptable 120 3 = true.
Proof.
  assert (processor.acceptable 100 4 = true) as Hacc by (vm_compute; reflexivity).
  repeat (split; [first [lia | exact Hacc]|]).
  apply (verdict_monotone 100 120 4 3); [lia | lia | lia | lia | exact Hacc].
Defined.

(** X10. The threshold of 5% is strict and the comparison on [float64] is
    exact at the boundary: for counters below 2^53, a file with errors
    whose error rate is exactly 5% is judged failed, one more row makes it
    successful, and a file with errors and at most 20 counted rows is
    always judged failed. *)
Theorem verdict_boundary (rowCount errorCount : Z) :
  0 < errorCount → 20 * errorCount + 1 < 2 ^ 53 →
  processor.acceptable (20 * errorCount) errorCount = false ∧
  processor.acceptable (20 * errorCount + 1) errorCount = true ∧
  (0 ≤ rowCount ≤ 20 → processor.acceptable rowCount errorCount = false).
Proof.
  intros He Hbound. split; [|split].
  - apply not_true_is_false. intros Hacc.
    apply acceptable_exact in Hacc; lia.
  - apply acceptable_exact; lia.
  - intros Hr. apply not_true_is_false. intros Hacc.
    apply acceptable_exact in Hacc; lia.
Qed.

Lemma verdict_boundary_witness :
  0 < 5 ∧ 20 * 5 + 1 < 2 ^ 53 ∧
  processor.acceptable (20 * 5) 5 = false ∧
  processor.acceptable (20 * 5 + 1) 5 = true ∧
  (0 ≤ 20 ≤ 20 → processor.acceptable 20 5 = false).
Proof.
  split; [lia|]. split; [lia|]. apply (verdict_boundary 20 5); lia.
Defined.

(** ** The watcher and the queue *)

Section Watching.
Import Go processor file QueueSpec WatcherSpec CodeSpec.
Context (env : Env) (w : Watcher).

Lemma dispatched_app evs1 evs2 :
  dispatched (evs1 ++ evs2) = (dispatched evs1 ++ dispatched evs2)%list.
Proof. unfold dispatched. apply omap_app. Qed.

Lemma hands_ret {A} (a : A) : hands (ret a) [].
Proof.
  intros s. exists []. cbn. rewrite app_nil_r.
  split; [reflexivity|]. split; [constructor|]. split; [reflexivity|].
  intros a' s' Hrun. inversion Hrun; subst. reflexivity.
Qed.

Lemma hands_bind {A B} (m : M A) (k : A → M B) l1 l2 :
  hands m l1 → (∀ x, hands (k x) l2) → hands (bind m k) (l1 ++ l2).
Proof.
  intros Hm Hk s. destruct (Hm s) as (evs1 & Htr1 & Hsub1 & Hdo1 & Hstep1).
  unfold bind. destruct (m s) as [x s1|s1] eqn:Hrun.
  - destruct (Hk x s1) as (evs2 & Htr2 & Hsub2 & Hdo2 & Hstep2).
    exists (evs1 ++ evs2)%list. cbn [state_of] in Htr1.
    rewrite Htr2, Htr1, app_assoc, dispatched_app, count_Do_app, Hdo1, Hdo2.
    split; [reflexivity|]. split; [by apply sublist_app|]. split; [reflexivity|].
    intros b s' Hrun2. etransitivity; [by eapply Hstep1 | by eapply Hstep2].
  - exists evs1. split; [exact Htr1|]. split; [by apply sublist_inserts_r|].
    split; [exact Hdo1|]. discriminate.
Qed.

Lemma hands_sublist {A} (m : M A) l1 l2 : sublist l1 l2 → hands m l1 → hands m l2.
Proof.
  intros Hl Hm s. destruct (Hm s) as (evs & Htr & Hsub & Hdo & Hstep).
  exists evs. split; [exact Htr|]. split; [by etransitivity|]. by split.
Qed.

Lemma hands_Stat path : hands (Stat env path) [].
Proof.
  intros s. exists [EvStat path].
  split; [reflexivity|]. split; [constructor|]. split; [reflexivity|].
  intros a s' Hrun. inversion Hrun; subst.
  apply rtc_once, (step_effects [EvStat path]).
Qed.

Lemma hands_Sleep d : hands (time_Sleep d) [].
Proof.
  intros s. exists [EvSleep d].
  split; [reflexivity|]. split; [constructor|]. split; [reflexivity|].
  intros a s' Hrun. inversion Hrun; subst.
  apply rtc_once, (step_effects [EvSleep d]).
Qed.

Lemma hands_ProcessFile path : hands (ProcessFile path) [path].
Proof.
  intros s. exists [EvProcessFile path]. split; [apply ProcessFile_trace|].
  split; [reflexivity|]. split; [reflexivity|].
  intros [] s' Hrun. by apply rtc_once, (step_submit path).
Qed.

Lemma hands_isTargetFile path : hands (isTargetFile env w path) [].
Proof.
  unfold isTargetFile. apply (hands_bind _ _ [] []); [apply hands_Stat|].
  intros [info|]; [|apply hands_ret]. destruct (IsDir info); apply hands_ret.
Qed.

Lemma hands_isFileReady path : hands (isFileReady env w path) [].
Proof.
  unfold isFileReady. apply (hands_bind _ _ [] []); [apply hands_Stat|].
  intros [initialInfo|]; [|apply hands_ret].
  apply (hands_bind _ _ [] []); [apply hands_Sleep|]. intros _.
  apply (hands_bind _ _ [] []); [apply hands_Stat|].
  intros [currentInfo|]; apply hands_ret.
Qed.

Lemma hands_handleEvent event :
  hands (handleEvent env w event) (if createOrWrite event then [Name event] else []).
Proof.
  unfold handleEvent, createOrWrite.
  destruct (Z.land (Op event) (Z.lor Create Write) =? 0); cbn [negb];
    [apply hands_ret|].
  apply (hands_bind _ _ [] [Name event]); [apply hands_isTargetFile|].
  intros target. destruct target; cbn [negb].
  2:{ apply (hands_sublist _ []); [apply sublist_nil_l | apply hands_ret]. }
  apply (hands_bind _ _ [] [Name event]); [apply hands_Sleep|]. intros _.
  apply (hands_bind _ _ [] [Name event]); [apply hands_isFileReady|].
  intros ready. destruct ready; cbn [negb]; [apply hands_ProcessFile|].
  apply (hands_sublist _ []); [apply sublist_nil_l | apply hands_ret].
Qed.

Lemma hands_rangeFiles files : hands (rangeFiles env w files) files.
Proof.
  induction files as [|file rest IH]; cbn [rangeFiles]; [apply hands_ret|].
  apply (hands_bind _ _ [] (file :: rest)); [apply hands_isTargetFile|].
  intros target. apply (hands_bind _ _ [file] rest); [|intros _; exact IH].
  destruct target.
  2:{ apply (hands_sublist _ []); [apply sublist_nil_l | apply hands_ret]. }
  apply (hands_bind _ _ [] [file]); [apply hands_isFileReady|].
  intros ready. destruct ready; [apply hands_ProcessFile|].
  apply (hands_sublist _ []); [apply sublist_nil_l | apply hands_ret].
Qed.

Lemma hands_processExistingFiles : hands (processExistingFiles env w) (globbed env w).
Proof.
  unfold processExistingFiles, globbed.
  destruct (Glob env _) as [err|files]; [apply hands_ret | apply hands_rangeFiles].
Qed.

Lemma hands_watchLoop msgs :
  hands (watchLoop env w msgs) (map Name (List.filter createOrWrite (handled msgs))).
Proof.
  induction msgs as [|msg rest IH]; cbn [watchLoop handled]; [apply hands_ret|].
  destruct msg as [|event| |err|]; try apply hands_ret; [|exact IH].
  cbn [List.filter].
  destruct (createOrWrite event) eqn:Hop.
  - cbn [map]. apply (hands_bind _ _ [Name event]); [|intros _; exact IH].
    pose proof (hands_handleEvent event) as H. by rewrite Hop in H.
  - apply (hands_bind _ _ []); [|intros _; exact IH].
    pose proof (hands_handleEvent event) as H. by rewrite Hop in H.
Qed.

(** The loop is the handling of the events received before the stop signal
    or the closing of a channel, one after the other. *)
Lemma watchLoop_handleAll msgs s :
  watchLoop env w msgs s = (handleAll env w (handled msgs) ;;; ret (ending msgs)) s.
Proof.
  revert s. induction msgs as [|msg rest IH]; intros s; [reflexivity|].
  destruct msg as [|event| |err|]; try reflexivity.
  - cbn [watchLoop handled ending handleAll]. unfold bind.
    destruct (handleEvent env w event s) as [[] s1|s1]; [|reflexivity].
    rewrite IH. reflexivity.
  - cbn [watchLoop handled ending]. apply IH.
Qed.

End Watching.

(** X11. [watchLoop] is the handling, by [handleEvent] and in the order
    received, of every event that its [select] receives before the stop
    signal or the closing of a channel, and of nothing after it; an error
    of the notifier is skipped and does not end the loop; the loop has
    returned exactly when a stop signal or a closing was received.  Whether
    it returns or panics, the loop only extends the trace, makes no round
    trip to the remote service, and hands to the processor only names of
    create or write events it handled, in the order of these events and at
    most once for each event. *)
Theorem watchLoop_dispatches (env : Env) (w : file.Watcher)
    (received : list file.selected) (s : State) :
  file.watchLoop env w received s
  = (CodeSpec.handleAll env w (CodeSpec.handled received) ;;;
     ret (CodeSpec.ending received)) s ∧
  (∀ err rest,
     file.watchLoop env w (file.SelError err :: rest) s = file.watchLoop env w rest s) ∧
  (∀ event rest,
     file.watchLoop env w (file.SelEvent event :: rest) s
     = (file.handleEvent env w event ;;; file.watchLoop env w rest) s) ∧
  ∃ evs,
    trace (state_of (file.watchLoop env w received s)) = (trace s ++ evs)%list ∧
    sublist (WatcherSpec.dispatched evs)
      (map file.Name (List.filter CodeSpec.createOrWrite (CodeSpec.handled received))) ∧
    count_Do evs = 0%nat.
Proof.
  split; [apply watchLoop_handleAll|]. split; [reflexivity|]. split; [reflexivity|].
  destruct (hands_watchLoop env w received s) as (evs & Htr & Hsub & Hdo & _).
  by exists evs.
Qed.

(** X12. In any world, also one whose files change during the sweep,
    [processExistingFiles] hands to the processor only files that
    [filepath.Glob] returned for the pattern [filepath.Join(dir, "*.csv")],
    in the order of that list and at most once each; it makes no round trip
    to the remote service.  What [Glob] returns for a directory with a
    metacharacter, [ErrBadPattern] included, is the answer of the world. *)
Theorem sweep_dispatches_globbed (env : Env) (w : file.Watcher) (s : State) :
  ∃ evs,
    trace (state_of (file.processExistingFiles env w s)) = (trace s ++ evs)%list ∧
    sublist (WatcherSpec.dispatched evs) (CodeSpec.globbed env w) ∧
    count_Do evs = 0%nat.
Proof.
  destruct (hands_processExistingFiles env w s) as (evs & Htr & Hsub & Hdo & _).
  by exists evs.
Qed.

(** ** The workers and the queue *)

Section Workers.
Import Go processor QueueSpec CodeSpec.
Context (env : Env) (p : CSVProcessor).

Lemma worker_run n : ∀ s,
  ∃ moves status s',
    worker env p n s = Ok (moves, status) s' ∧
    map fst moves = take n (chan_buffer (workChan s)) ∧
    chan_buffer (workChan s') = drop n (chan_buffer (workChan s)) ∧
    sent (workChan s') = sent (workChan s) ∧
    closed (workChan s') = closed (workChan s) ∧
    processedFiles s' = processedFiles s ∧
    Forall (fun move => snd move ∈ destinations p (fst move)) moves ∧
    status = (if (n <=? length (chan_buffer (workChan s)))%nat then WorkerRunning
              else if closed (workChan s) then WorkerStopped else WorkerWaiting) ∧
    rtc step s s'.
Proof.
  induction n as [|n IH]; intros s.
  - exists [], WorkerRunning, s. cbn [worker]. rewrite take_0, drop_0.
    repeat (split; [first [reflexivity | constructor]|]). reflexivity.
  - cbn [worker]. unfold bind at 1, receive, chan_buffer.
    destruct (sent (workChan s) !! received (workChan s)) as [filePath|] eqn:Hnext.
    + set (s1 := {| trace := trace s; processedFiles := processedFiles s;
                    workChan := {| sent := sent (workChan s);
                                   received := S (received (workChan s));
                                   closed := closed (workChan s) |} |}).
      assert (step s s1) as Hstep1.
      { apply (step_receive (Some filePath)). unfold receive. by rewrite Hnext. }
      destruct (processCSVFile_runs env p filePath s1) as (success & evs & Hfile).
      unfold bind at 1. rewrite Hfile.
      destruct (IH (extend s1 evs))
        as (moves & status & s' & Hrun & Hsrc & Hbuf & Hsent & Hclosed & Hled
            & Hdest & Hstatus & Hsteps).
      unfold bind, ret. rewrite Hrun. cbn [fst snd].
      rewrite (drop_S _ _ _ Hnext).
      unfold chan_buffer in Hsrc, Hbuf, Hstatus. cbn [extend workChan s1 sent received] in *.
      eexists _, status, s'. split; [reflexivity|].
      cbn [map fst take drop length]. rewrite Hsrc.
      split; [reflexivity|]. split; [exact Hbuf|]. split; [exact Hsent|].
      split; [exact Hclosed|]. split; [exact Hled|]. split.
      { constructor; [|exact Hdest]. cbn [fst snd]. unfold destinations.
        destruct success; cbn [negb]; [apply elem_of_cons; by left|].
        apply elem_of_cons; right. apply elem_of_cons; by left. }
      split; [exact Hstatus|].
      eapply rtc_l; [exact Hstep1|]. eapply rtc_l; [apply (step_effects evs)|].
      exact Hsteps.
    + apply lookup_ge_None in Hnext. rewrite drop_ge by lia.
      eexists [], _, s. split; [reflexivity|]. cbn [take drop length map].
      rewrite drop_ge by lia.
      repeat (split; [first [reflexivity | constructor]|]). reflexivity.
Qed.

End Workers.

Lemma reachable_steps s s' :
  QueueSpec.reachable s → rtc QueueSpec.step s s' → QueueSpec.reachable s'.
Proof.
  unfold QueueSpec.reachable. intros Hreach Hsteps.
  induction Hsteps as [|x y z Hstep _ IH]; [exact Hreach|].
  apply IH. eapply rtc_r; eassumption.
Qed.

(** X13. A worker that runs [n] iterations of its loop takes from the
    channel the [n] oldest pending paths, in the order they were sent, and
    moves each of them once, under its base name, to the processed or to
    the failed directory.  It never panics and never changes the ledger or
    what was sent.  It is still in its loop when [n] paths were pending;
    otherwise it has drained the channel and stopped, if the channel is
    closed, or waits.  When the invariant of the queue holds, no file is
    processed twice. *)
Theorem worker_drains_queue (env : Env) (p : processor.CSVProcessor) (n : nat)
    (s : State) :
  let pending := chan_buffer (workChan s) in
  ∃ moves status s',
    processor.worker env p n s = Ok (moves, status) s' ∧
    map fst moves = take n pending ∧
    chan_buffer (workChan s') = drop n pending ∧
    sent (workChan s') = sent (workChan s) ∧
    processedFiles s' = processedFiles s ∧
    Forall (fun move => snd move ∈ CodeSpec.destinations p (fst move)) moves ∧
    status = (if (n <=? length pending)%nat then processor.WorkerRunning
              else if closed (workChan s) then processor.WorkerStopped
                   else processor.WorkerWaiting) ∧
    (QueueSpec.invariant s → NoDup (map fst moves)).
Proof.
  intros pending.
  destruct (worker_run env p n s)
    as (moves & status & s' & Hrun & Hsrc & Hbuf & Hsent & _ & Hled & Hdest & Hstatus & _).
  exists moves, status, s'. repeat (split; [assumption|]).
  intros [Hnd _]. rewrite Hsrc.
  assert (sublist (take n (chan_buffer (workChan s))) (sent (workChan s))) as Hsub
    by (etransitivity; [apply sublist_take | apply sublist_drop]).
  eapply sublist_NoDup; eassumption.
Qed.

(** X14. The watcher and the workers keep the invariant of the queue: from
    a state the processor can reach, every state in which [handleEvent],
    [processExistingFiles], [watchLoop] or [worker] returns is again one
    the processor can reach; there no path was sent twice on the channel,
    and the ledger holds exactly the paths that were sent. *)
Theorem pipeline_keeps_queue_invariant (env : Env) (w : file.Watcher)
    (p : processor.CSVProcessor) (s : State) :
  QueueSpec.reachable s →
  ∀ s',
    (∃ event, file.handleEvent env w event s = Ok tt s') ∨
    file.processExistingFiles env w s = Ok tt s' ∨
    (∃ received status, file.watchLoop env w received s = Ok status s') ∨
    (∃ n result, processor.worker env p n s = Ok result s') →
    QueueSpec.reachable s' ∧ QueueSpec.invariant s'.
Proof.
  intros Hreach s' Hrun.
  assert (rtc QueueSpec.step s s') as Hsteps.
  { destruct Hrun as [[event Hrun]|[Hrun|[(received & status & Hrun)|(n & result & Hrun)]]].
    - destruct (hands_handleEvent env w event s) as (_ & _ & _ & _ & H). eauto.
    - destruct (hands_processExistingFiles env w s) as (_ & _ & _ & _ & H). eauto.
    - destruct (hands_watchLoop env w received s) as (_ & _ & _ & _ & H). eauto.
    - destruct (worker_run env p n s) as (moves & status & s1 & Hrun1 & H).
      rewrite Hrun1 in Hrun. injection Hrun as _ <-. apply H. }
  assert (QueueSpec.reachable s') as Hreach'
    by exact (reachable_steps s s' Hreach Hsteps).
  split; [exact Hreach'|].
  exact (rtc_step_invariant _ _ Hreach' NewCSVProcessor_invariant).
Qed.

Lemma pipeline_keeps_queue_invariant_witness :
  QueueSpec.reachable processor.NewCSVProcessor ∧
  ∀ s',
    (∃ event, file.handleEvent Demo.inbox Demo.csvWatcher event
                processor.NewCSVProcessor = Ok tt s') ∨
    file.processExistingFiles Demo.inbox Demo.csvWatcher processor.NewCSVProcessor
      = Ok tt s' ∨
    (∃ received status, file.watchLoop Demo.inbox Demo.csvWatcher received
                          processor.NewCSVProcessor = Ok status s') ∨
    (∃ n result, processor.worker Demo.inbox Demo.csvProcessor n
                   processor.NewCSVProcessor = Ok result s') →
    QueueSpec.reachable s' ∧ QueueSpec.invariant s'.
Proof.
  assert (QueueSpec.reachable processor.NewCSVProcessor) as Hreach by apply rtc_refl.
  split; [exact Hreach|].
  exact (pipeline_keeps_queue_invariant Demo.inbox Demo.csvWatcher Demo.csvProcessor
           processor.NewCSVProcessor Hreach).
Defined.

(** X15. Once [Stop] has closed the channel, a second [Stop] panics, and so
    does the submission of a path that is not in the ledger: it panics on
    the send, after it has recorded the path in the ledger, so that the
    path is marked as processed although it was never enqueued.  The
    submission of a path that is in the ledger still returns and changes
    nothing but the trace. *)
Theorem stopped_processor_panics (s s1 : State) (path : string) :
  processor.Stop s = Ok tt s1 →
  processor.Stop s1 = Panic s1 ∧
  (QueueSpec.inLedger path s = true →
   processor.ProcessFile path s1 = Ok tt (extend s1 [EvProcessFile path])) ∧
  (QueueSpec.inLedger path s = false →
   ∃ s2,
     processor.ProcessFile path s1 = Panic s2 ∧
     QueueSpec.inLedger path s2 = true ∧
     workChan s2 = workChan s1 ∧
     sent (workChan s2) = sent (workChan s)).
Proof.
  unfold processor.Stop. destruct (closed (workChan s)) eqn:Hopen; [discriminate|].
  intros [= <-]. cbn [workChan closed]. split; [reflexivity|]. split.
  - intros Hin. by apply ProcessFile_known.
  - intros Hnew. unfold QueueSpec.inLedger in Hnew.
    unfold processor.ProcessFile, bind, tell, emit, extend.
    cbn [processedFiles workChan closed trace]. rewrite Hnew.
    eexists. split; [reflexivity|]. split; [|by split].
    unfold QueueSpec.inLedger. cbn [processedFiles]. by rewrite lookup_insert_eq.
Qed.

Lemma stopped_processor_panics_witness :
  let stopped :=
    {| trace := []; processedFiles := ∅;
       workChan := {| sent := []; received := 0; closed := true |} |} in
  processor.Stop processor.NewCSVProcessor = Ok tt stopped ∧
  processor.Stop stopped = Panic stopped ∧
  (QueueSpec.inLedger "/data/watch/20240101_120000.csv" processor.NewCSVProcessor = true →
   processor.ProcessFile "/data/watch/20240101_120000.csv" stopped
   = Ok tt (extend stopped [EvProcessFile "/data/watch/20240101_120000.csv"])) ∧
  (QueueSpec.inLedger "/data/watch/20240101_120000.csv" processor.NewCSVProcessor = false →
   ∃ s2,
     processor.ProcessFile "/data/watch/20240101_120000.csv" stopped = Panic s2 ∧
     QueueSpec.inLedger "/data/watch/20240101_120000.csv" s2 = true ∧
     workChan s2 = workChan stopped ∧
     sent (workChan s2) = sent (workChan processor.NewCSVProcessor)).
Proof.
  intros stopped. split; [reflexivity|].
  exact (stopped_processor_panics processor.NewCSVProcessor stopped
           "/data/watch/20240101_120000.csv" eq_refl).
Defined.

Section Skipping.
Import file CodeSpec.

Lemma createOrWrite_bits event :
  createOrWrite event = Z.testbit (Op event) 0 || Z.testbit (Op event) 1.
Proof.
  unfold createOrWrite. change (Z.lor Create Write) with 3.
  destruct (Z.testbit (Op event) 0) eqn:H0, (Z.testbit (Op event) 1) eqn:H1;
    cbn [orb].
  1-3: apply negb_true_iff, Z.eqb_neq; intros Hz.
  1-2: apply (f_equal (fun z => Z.testbit z 0)) in Hz;
       rewrite Z.land_spec, H0 in Hz; discriminate.
  1: apply (f_equal (fun z => Z.testbit z 1)) in Hz;
     rewrite Z.land_spec, H1 in Hz; discriminate.
  apply negb_false_iff, Z.eqb_eq, Z.bits_inj'. intros n Hn.
  rewrite Z.land_spec, Z.bits_0.
  destruct (Z.eq_dec n 0) as [->|Hn0]; [by rewrite H0|].
  destruct (Z.eq_dec n 1) as [->|Hn1]; [by rewrite H1|].
  change 3 with (Z.ones 2). rewrite Z.ones_spec_high by lia. apply andb_false_r.
Qed.

End Skipping.

(** X16. [handleEvent] looks at an event exactly when its operation has the
    create or the write bit.  An event with neither bit, such as a removal,
    a rename or a change of mode, has no effect at all: the file is not
    even examined.  An event with one of them whose file cannot be examined,
    is a directory, or has a name that does not match the pattern costs one
    [os.Stat] and nothing else. *)
Theorem handleEvent_skips (env : Env) (w : file.Watcher) (event : file.FsEvent)
    (s : State) :
  (Z.testbit (file.Op event) 0 = false ∧ Z.testbit (file.Op event) 1 = false →
   file.handleEvent env w event s = Ok tt s) ∧
  (Z.testbit (file.Op event) 0 = true ∨ Z.testbit (file.Op event) 1 = true →
   WatcherSpec.target env w (count_Stat (trace s)) (file.Name event) = false →
   file.handleEvent env w event s = Ok tt (extend s [EvStat (file.Name event)])).
Proof.
  pose proof (createOrWrite_bits event) as Hbits.
  unfold CodeSpec.createOrWrite in Hbits. split.
  - intros [H0 H1]. rewrite H0, H1 in Hbits. apply negb_false_iff in Hbits.
    unfold file.handleEvent. by rewrite Hbits.
  - intros Hop Htarget.
    assert (Z.testbit (file.Op event) 0 || Z.testbit (file.Op event) 1 = true) as Hor
      by (apply orb_true_iff; exact Hop).
    rewrite Hor in Hbits. apply negb_true_iff in Hbits.
    unfold file.handleEvent. rewrite Hbits.
    unfold bind. by rewrite isTargetFile_run, Htarget.
Qed.

(** X17. One iteration of a worker on a pending file: the worker receives
    the oldest pending path, processes the file, which always returns, and
    moves it under its base name to the processed directory when the file
    was judged successful and to the failed directory otherwise.  A file
    that cannot be opened goes to the failed directory with no other
    effect. *)
Theorem worker_moves_by_verdict (env : Env) (p : processor.CSVProcessor)
    (s : State) (filePath : string) :
  sent (workChan s) !! received (workChan s) = Some filePath →
  ∃ success evs s1,
    processor.receive s = Ok (Some filePath) s1 ∧
    processor.processCSVFile env p filePath s1 = Ok success (extend s1 evs) ∧
    processor.worker env p 1 s
    = Ok ([(filePath,
            Go.Join (if success then processor.ProcessedDir p else processor.FailedDir p)
              (Go.Base filePath))],
          processor.WorkerRunning)
         (extend s1 evs) ∧
    (os_Open env filePath = None → success = false ∧ evs = []).
Proof.
  intros Hnext.
  set (s1 := {| trace := trace s; processedFiles := processedFiles s;
                workChan := {| sent := sent (workChan s);
                               received := S (received (workChan s));
                               closed := closed (workChan s) |} |}).
  assert (processor.receive s = Ok (Some filePath) s1) as Hrecv
    by (unfold processor.receive; by rewrite Hnext).
  destruct (processCSVFile_runs env p filePath s1) as (success & evs & Hfile).
  exists success, evs, s1. split; [exact Hrecv|]. split; [exact Hfile|]. split.
  - cbn [processor.worker]. unfold bind. rewrite Hrecv, Hfile. unfold ret.
    cbn [fst snd]. by destruct success.
  - intros Hopen. unfold processor.processCSVFile in Hfile. rewrite Hopen in Hfile.
    unfold ret in Hfile. rewrite <- (extend_nil s1) in Hfile at 1.
    by apply Ok_extend_inj in Hfile as [<- <-].
Qed.

Lemma worker_moves_by_verdict_witness :
  sent (workChan Examples.oneWaiting) !! received (workChan Examples.oneWaiting)
    = Some "/data/watch/20240101_120002.csv" ∧
  ∃ success evs s1,
    processor.receive Examples.oneWaiting
    = Ok (Some "/data/watch/20240101_120002.csv") s1 ∧
    processor.processCSVFile Demo.shop Demo.csvProcessor
      "/data/watch/20240101_120002.csv" s1 = Ok success (extend s1 evs) ∧
    processor.worker Demo.shop Demo.csvProcessor 1 Examples.oneWaiting
    = Ok ([("/data/watch/20240101_120002.csv",
            Go.Join (if success then processor.ProcessedDir Demo.csvProcessor
                     else processor.FailedDir Demo.csvProcessor)
              (Go.Base "/data/watch/20240101_120002.csv"))],
          processor.WorkerRunning)
         (extend s1 evs) ∧
    (os_Open Demo.shop "/data/watch/20240101_120002.csv" = None →
     success = false ∧ evs = []).
Proof.
  split; [reflexivity|].
  exact (worker_moves_by_verdict Demo.shop Demo.csvProcessor Examples.oneWaiting
           "/data/watch/20240101_120002.csv" eq_refl).
Defined.

(** ** The result of a request *)

Section Result.
Import Go api RetrySpec.
Context (env : Env) (c : MagentoClient).

(** What [doRequest] makes of the answer to its last round trip. *)
Lemma doRequest_loop_result {A} (decode : string → error + A) n :
  ∀ attempts req s,
  attempts + Z.of_nat (S n) = maxRetries c →
  ∃ r evs lastReq,
    doRequest_loop env c decode (S n) attempts req s = Ok r (extend s evs) ∧
    last (requests evs) = Some lastReq ∧
    (1 ≤ count_Do evs)%nat ∧
    r = match http_Do env (pred (count_Do (trace s) + count_Do evs)) lastReq with
        | DoError err => inl (requestFailedError (maxRetries c) err)
        | DoResponse status body =>
            if notSuccessful status then inl (apiError status body) else decode body
        end.
Proof.
  induction n as [|n IH]; intros attempts req s Hleft.
  - cbn [doRequest_loop]. unfold bind at 1, httpClient_Do, emit.
    assert ((attempts + 1 <? maxRetries c) = false) as -> by (apply Z.ltb_ge; lia).
    replace (attempts + 1) with (maxRetries c) by lia.
    exists (match http_Do env (count_Do (trace s)) req with
            | DoError err => inl (requestFailedError (maxRetries c) err)
            | DoResponse status body =>
                if notSuccessful status then inl (apiError status body) else decode body
            end), [EvDo req], req.
    change (count_Do [EvDo req]) with 1%nat.
    replace (pred (count_Do (trace s) + 1)) with (count_Do (trace s)) by lia.
    split; [|by repeat split].
    destruct (http_Do env (count_Do (trace s)) req) as [err|status body];
      [reflexivity|]. by destruct (notSuccessful status).
  - remember (S n) as m eqn:Hm. cbn [doRequest_loop].
    unfold bind at 1, httpClient_Do, emit.
    assert ((attempts + 1 <? maxRetries c) = true) as -> by (apply Z.ltb_lt; lia).
    assert (∀ req',
      ∃ r evs lastReq,
        (time_Sleep (int_mul (backoff c) (attempts + 1)) ;;;
         doRequest_loop env c decode m (attempts + 1) req') (extend s [EvDo req])
        = Ok r (extend s evs) ∧
        last (requests evs) = Some lastReq ∧
        (2 ≤ count_Do evs)%nat ∧
        r = match http_Do env (pred (count_Do (trace s) + count_Do evs)) lastReq with
            | DoError err => inl (requestFailedError (maxRetries c) err)
            | DoResponse status body =>
                if notSuccessful status then inl (apiError status body)
                else decode body
            end) as Hretry.
    { intros req'. subst m.
      destruct (IH (attempts + 1) req'
                  (extend s [EvDo req; EvSleep (int_mul (backoff c) (attempts + 1))])
                  ltac:(lia))
        as (r & evs & lastReq & Hrun & Hlast & Hcount & Hr).
      exists r, ([EvDo req; EvSleep (int_mul (backoff c) (attempts + 1))] ++ evs)%list,
        lastReq.
      unfold bind, time_Sleep, tell, emit. rewrite !extend_extend. cbn [app].
      rewrite Hrun, extend_extend. split; [reflexivity|].
      cbn [extend trace] in Hr. rewrite count_Do_app in Hr.
      change (count_Do [EvDo req; EvSleep (int_mul (backoff c) (attempts + 1))])
        with 1%nat in Hr.
      change (EvDo req :: EvSleep (int_mul (backoff c) (attempts + 1)) :: evs)
        with ([EvDo req; EvSleep (int_mul (backoff c) (attempts + 1))] ++ evs)%list.
      rewrite count_Do_app.
      change (count_Do [EvDo req; EvSleep (int_mul (backoff c) (attempts + 1))])
        with 1%nat.
      split.
      { change (requests ([EvDo req; EvSleep (int_mul (backoff c) (attempts + 1))]
                          ++ evs))
          with (req :: requests evs).
        destruct (requests evs) as [|first rest] eqn:E; [discriminate|].
        exact Hlast. }
      split; [lia|].
      replace (pred (count_Do (trace s) + (1 + count_Do evs)))
        with (pred (count_Do (trace s) + 1 + count_Do evs)) by lia.
      exact Hr. }
    destruct (http_Do env (count_Do (trace s)) req) as [err|status body] eqn:Hout.
    + destruct (Hretry req) as (r & evs & lastReq & Hrun & Hlast & Hcount & Hr).
      exists r, evs, lastReq. repeat split; [assumption | assumption | lia | assumption].
    + destruct (notSuccessful status) eqn:Hst.
      * destruct (Hretry (match Body req with
                          | Some _ => {| Method := Method req; URL := URL req;
                                         Header := Header req; Body := Some body;
                                         ContentLength := ContentLength req;
                                         GetBody := GetBody req |}
                          | None => req
                          end)) as (r & evs & lastReq & Hrun & Hlast & Hcount & Hr).
        exists r, evs, lastReq.
        repeat split; [assumption | assumption | lia | assumption].
      * exists (decode body), [EvDo req], req.
        change (count_Do [EvDo req]) with 1%nat.
        replace (pred (count_Do (trace s) + 1)) with (count_Do (trace s)) by lia.
        rewrite Hout, Hst. by repeat split.
Qed.

End Result.

(** X18. With at least one attempt allowed, the result of [doRequest] is
    determined by the answer to the last round trip it made: what a
    successful response decodes to, an API error with the status and the
    body of an unsuccessful response, or a request error with [maxRetries]
    and the cause of a transport error.  In particular the error
    "max retries exceeded" is returned only by a client that is allowed no
    attempt. *)
Theorem doRequest_result_is_last_outcome (env : Env) (c : api.MagentoClient)
    {A : Type} (decode : string → Go.error + A) (req : Request) (s : State) :
  0 < api.maxRetries c →
  ∃ r evs lastReq,
    api.doRequest env c decode req s = Ok r (extend s evs) ∧
    last (RetrySpec.requests evs) = Some lastReq ∧
    (1 ≤ count_Do evs)%nat ∧
    r = match http_Do env (pred (count_Do (trace s) + count_Do evs)) lastReq with
        | DoError err => inl (Go.requestFailedError (api.maxRetries c) err)
        | DoResponse status body =>
            if api.notSuccessful status then inl (Go.apiError status body)
            else decode body
        end.
Proof.
  intros Hmax. unfold api.doRequest. rewrite Z.sub_0_r.
  destruct (Z.to_nat (api.maxRetries c)) as [|n] eqn:Hn; [lia|].
  apply doRequest_loop_result. lia.
Qed.

Lemma doRequest_result_is_last_outcome_witness :
  0 < api.maxRetries Demo.client ∧
  ∃ r evs lastReq,
    api.doRequest Demo.flaky Demo.client (json_Decode_any Demo.flaky) Demo.get
      processor.NewCSVProcessor
    = Ok r (extend processor.NewCSVProcessor evs) ∧
    last (RetrySpec.requests evs) = Some lastReq ∧
    (1 ≤ count_Do evs)%nat ∧
    r = match http_Do Demo.flaky
                (pred (count_Do (trace processor.NewCSVProcessor) + count_Do evs))
                lastReq with
        | DoError err => inl (Go.requestFailedError (api.maxRetries Demo.client) err)
        | DoResponse status body =>
            if api.notSuccessful status then inl (Go.apiError status body)
            else json_Decode_any Demo.flaky body
        end.
Proof.
  assert (0 < api.maxRetries Demo.client) as Hmax by (cbn; lia).
  split; [exact Hmax|].
  exact (doRequest_result_is_last_outcome Demo.flaky Demo.client
           (json_Decode_any Demo.flaky) Demo.get processor.NewCSVProcessor Hmax).
Defined.

(** ** The life cycle of the watcher *)

Section Lifecycle.
Import file CodeSpec.
Context (fs : Notifier) (w : Watcher).
Hypothesis closed_refuses : ∀ dir, is_Some (watcher_Add fs true dir).

Lemma Start_lifecycle l :
  l ∈ lifecycleStates w → snd (Start fs w l) ∈ lifecycleStates w.
Proof.
  unfold lifecycleStates. rewrite !elem_of_cons, elem_of_nil.
  intros [->|[->|[->|[]]]]; unfold Start, NewWatcher;
    cbn [isRunning stopClosed notifierClosed added launched].
  - destruct (os_MkdirAll fs (Directory w)); [by left|].
    destruct (watcher_Add fs false (Directory w)); cbn [snd app]; [by left|].
    right; by left.
  - right; by left.
  - destruct (os_MkdirAll fs (Directory w)); [right; right; by left|].
    destruct (closed_refuses (Directory w)) as [err ->]. right; right; by left.
Qed.

Lemma Stop_lifecycle l :
  l ∈ lifecycleStates w → ∃ l', Stop l = Some l' ∧ l' ∈ lifecycleStates w.
Proof.
  unfold lifecycleStates. rewrite !elem_of_cons, elem_of_nil.
  intros [->|[->|[->|[]]]]; unfold Stop, NewWatcher; cbn [isRunning stopClosed negb];
    eexists; (split; [reflexivity|]); rewrite !elem_of_cons.
  - by left.
  - right; right; by left.
  - right; right; by left.
Qed.

Lemma calls_lifecycle cs : ∀ l,
  l ∈ lifecycleStates w → ∃ l', calls fs w cs l = Some l' ∧ l' ∈ lifecycleStates w.
Proof.
  induction cs as [|c rest IH]; intros l Hl; cbn [calls]; [by exists l|].
  destruct c.
  - apply IH, Start_lifecycle, Hl.
  - destruct (Stop_lifecycle l Hl) as (l' & -> & Hl'). by apply IH.
Qed.

End Lifecycle.

(** X19. With a notifier that refuses a directory once it is closed, no
    sequence of [Start] and [Stop] on a new watcher panics, and the watcher
    is always fresh, running or stopped: [stopChan] is closed at most once,
    the two goroutines are launched at most once, a [Start] on a running
    watcher and a [Stop] on a watcher that is not running do nothing, and a
    stopped watcher never runs again. *)
Theorem watcher_lifecycle (fs : file.Notifier) (w : file.Watcher)
    (cs : list CodeSpec.call) :
  (∀ dir, is_Some (file.watcher_Add fs true dir)) →
  ∃ l,
    CodeSpec.calls fs w cs file.NewWatcher = Some l ∧
    l ∈ CodeSpec.lifecycleStates w ∧
    (file.isRunning l = true → file.Start fs w l = (None, l)) ∧
    (file.isRunning l = false → file.Stop l = Some l) ∧
    (file.stopClosed l = true → ∀ cs' l',
       CodeSpec.calls fs w cs' l = Some l' → l' = l).
Proof.
  intros Hrefuses.
  destruct (calls_lifecycle fs w Hrefuses cs file.NewWatcher) as (l & Hrun & Hl).
  { apply elem_of_cons. by left. }
  exists l. split; [exact Hrun|]. split; [exact Hl|]. split; [|split].
  - intros Hr. unfold file.Start. by rewrite Hr.
  - intros Hr. unfold file.Stop. by rewrite Hr.
  - intros Hclosed.
    assert (file.isRunning l = false ∧ file.notifierClosed l = true) as [Hr Hn].
    { revert Hl Hclosed. unfold CodeSpec.lifecycleStates.
      rewrite !elem_of_cons, elem_of_nil. intros [->|[->|[->|[]]]]; cbn; by intros. }
    induction cs' as [|c rest IH]; intros l'; cbn [CodeSpec.calls].
    + by intros [= <-].
    + destruct c.
      * unfold file.Start. rewrite Hr, Hn.
        destruct (file.os_MkdirAll fs (file.Directory w)); [exact (IH l')|].
        destruct (Hrefuses (file.Directory w)) as [err ->]. exact (IH l').
      * unfold file.Stop. rewrite Hr. exact (IH l').
Qed.

Lemma watcher_lifecycle_witness :
  (∀ dir, is_Some (file.watcher_Add Examples.strictNotifier true dir)) ∧
  ∃ l,
    CodeSpec.calls Examples.strictNotifier Demo.csvWatcher
      [CodeSpec.CallStart; CodeSpec.CallStop; CodeSpec.CallStart; CodeSpec.CallStop]
      file.NewWatcher = Some l ∧
    l ∈ CodeSpec.lifecycleStates Demo.csvWatcher ∧
    (file.isRunning l = true → file.Start Examples.strictNotifier Demo.csvWatcher l
                               = (None, l)) ∧
    (file.isRunning l = false → file.Stop l = Some l) ∧
    (file.stopClosed l = true → ∀ cs' l',
       CodeSpec.calls Examples.strictNotifier Demo.csvWatcher cs' l = Some l' → l' = l).
Proof.
  assert (∀ dir, is_Some (file.watcher_Add Examples.strictNotifier true dir)) as H
    by (intros dir; cbn; eauto).
  split; [exact H|].
  exact (watcher_lifecycle Examples.strictNotifier Demo.csvWatcher
           [CodeSpec.CallStart; CodeSpec.CallStop; CodeSpec.CallStart; CodeSpec.CallStop]
           H).
Defined.

(** X20. The second [Stop] is safe only because the notifier refuses a
    directory once it is closed: with a notifier that accepts it, a watcher
    that is started, stopped and started again runs with [stopChan]
    closed, and the next [Stop] panics on closing it again. *)
Theorem watcher_restart_panics (fs : file.Notifier) (w : file.Watcher) :
  file.os_MkdirAll fs (file.Directory w) = None →
  (∀ closed, file.watcher_Add fs closed (file.Directory w) = None) →
  ∃ l,
    CodeSpec.calls fs w [CodeSpec.CallStart; CodeSpec.CallStop; CodeSpec.CallStart]
      file.NewWatcher = Some l ∧
    file.isRunning l = true ∧ file.stopClosed l = true ∧
    file.Stop l = None ∧
    length (file.launched l) = 4%nat.
Proof.
  intros Hmkdir Hadd.
  assert (∀ l, file.isRunning l = false →
            file.Start fs w l
            = (None,
               {| file.isRunning := true;
                  file.stopClosed := file.stopClosed l;
                  file.notifierClosed := file.notifierClosed l;
                  file.added := file.added l ++ [file.Directory w];
                  file.launched :=
                    file.launched l ++ [file.GoWatchLoop; file.GoProcessExistingFiles] |}))
    as Hstart.
  { intros l Hl. unfold file.Start. by rewrite Hl, Hmkdir, Hadd. }
  cbn [CodeSpec.calls]. rewrite (Hstart file.NewWatcher eq_refl). cbn [snd].
  unfold file.Stop at 1. cbn [file.isRunning file.stopClosed file.NewWatcher negb].
  rewrite Hstart by reflexivity. cbn [snd].
  eexists. split; [reflexivity|]. by repeat split.
Qed.

Lemma watcher_restart_panics_witness :
  file.os_MkdirAll Examples.laxNotifier (file.Directory Demo.csvWatcher) = None ∧
  (∀ closed, file.watcher_Add Examples.laxNotifier closed (file.Directory Demo.csvWatcher)
             = None) ∧
  ∃ l,
    CodeSpec.calls Examples.laxNotifier Demo.csvWatcher
      [CodeSpec.CallStart; CodeSpec.CallStop; CodeSpec.CallStart] file.NewWatcher
    = Some l ∧
    file.isRunning l = true ∧ file.stopClosed l = true ∧
    file.Stop l = None ∧
    length (file.launched l) = 4%nat.
Proof.
  assert (∀ closed, file.watcher_Add Examples.laxNotifier closed
                      (file.Directory Demo.csvWatcher) = None) as H
    by (intros closed; reflexivity).
  split; [reflexivity|]. split; [exact H|].
  exact (watcher_restart_panics Examples.laxNotifier Demo.csvWatcher eq_refl H).
Defined.

(** ** The startup sweep and the configured pattern *)

Section Sweep.
Import Go file WatcherSpec CodeSpec.
Context (env : Env) (w : Watcher).

(** In a plainly written directory, the sweep goes through the entries
    whose name ends in [.csv]. *)
Lemma Glob_sweep :
  plainDirectory (Directory w) →
  Glob env (Join (Directory w) "*.csv") =
  inr (map (Join (Directory w))
         (List.filter (Match "*.csv") (os_ReadDir env (Directory w)))).
Proof.
  intros (Hclean & Hdot & Hroot & Hmeta).
  assert (Directory w ≠ "") as Hdir by (intros H; by rewrite H in Hclean).
  rewrite (Join_cat (Directory w) "*.csv") by done.
  unfold Glob. rewrite Split_cat by reflexivity.
  rewrite cleanGlobPath_dir by done. by rewrite Hmeta.
Qed.

Lemma globbed_csv path :
  plainDirectory (Directory w) →
  (∀ n, n ∈ os_ReadDir env (Directory w) → entryName n) →
  path ∈ globbed env w →
  ∃ n, n ∈ os_ReadDir env (Directory w) ∧ HasSuffix n ".csv" = true ∧
       path = Directory w +:+ "/" +:+ n.
Proof.
  intros Hdir Hentries. unfold globbed. rewrite (Glob_sweep Hdir).
  rewrite list_elem_of_In, in_map_iff.
  intros (n & <- & [Hn%list_elem_of_In Hmatch]%filter_In).
  destruct Hdir as (Hclean & Hdot & Hroot & _).
  destruct (Hentries n Hn) as ([Hne Hslash] & Hn1 & Hn2).
  exists n. split; [exact Hn|]. split.
  - by rewrite <- (Match_star_suffix ".csv" n).
  - by apply Join_cat.
Qed.

(** A create or write event on a target that is stable is handed to the
    processor after the effects of the detection cycle. *)
Lemma handleEvent_dispatches event s :
  let n := count_Stat (trace s) in
  createOrWrite event = true →
  target env w n (Name event) = true →
  stable (os_Stat env (S n) (Name event)) (os_Stat env (S (S n)) (Name event)) →
  handleEvent env w event s
  = processor.ProcessFile (Name event) (extend s (cycle (Name event))).
Proof.
  intros n Hop Htarget Hstable.
  unfold handleEvent, bind. unfold createOrWrite in Hop.
  apply negb_true_iff in Hop. rewrite Hop, isTargetFile_run.
  fold n. rewrite Htarget. cbn [negb].
  unfold time_Sleep, tell, emit. rewrite extend_extend.
  set (s1 := extend s _).
  assert (count_Stat (trace s1) = S n) as Hn1.
  { unfold s1. rewrite count_Stat_extend. subst n.
    change (count_Stat ([EvStat (Name event)] ++ [EvSleep (500 * Millisecond)]))
      with 1%nat. lia. }
  rewrite isFileReady_run. cbv zeta. rewrite Hn1.
  destruct Hstable as (i1 & i2 & -> & -> & Hsize & Hmod).
  rewrite Hsize, Hmod, !Z.eqb_refl. cbn [andb negb].
  unfold s1. by rewrite extend_extend.
Qed.

End Sweep.

(** C9. The startup sweep does not emit every present file that matches
    the configured pattern.  In a plainly written watched directory, a
    file whose name does not end in [.csv] is never handed to the processor
    by [processExistingFiles], in any world and from any state: also when
    the directory lists it, its name matches the configured pattern and it
    is a regular file that nobody is writing.  The same file is handed to
    the processor by [handleEvent] on a create or write event, when it is a
    target and its two observations agree. *)
Theorem startup_sweep_skips_other_extensions (env : Env) (w : file.Watcher)
    (name : string) (s : State) :
  WatcherSpec.plainDirectory (file.Directory w) →
  (∀ n, n ∈ os_ReadDir env (file.Directory w) → WatcherSpec.entryName n) →
  WatcherSpec.entryName name →
  Go.HasSuffix name ".csv" = false →
  let path := Go.Join (file.Directory w) name in
  Go.Base path = name ∧
  (∃ evs,
     trace (state_of (file.processExistingFiles env w s)) = (trace s ++ evs)%list ∧
     path ∉ WatcherSpec.dispatched evs) ∧
  (∀ op,
     let event := {| file.Name := path; file.Op := op |} in
     let n := count_Stat (trace s) in
     CodeSpec.createOrWrite event = true →
     WatcherSpec.target env w n path = true →
     WatcherSpec.stable (os_Stat env (S n) path) (os_Stat env (S (S n)) path) →
     ∃ evs,
       trace (state_of (file.handleEvent env w event s)) = (trace s ++ evs)%list ∧
       WatcherSpec.dispatched evs = [path]).
Proof.
  intros Hdir Hentries ([Hne Hslash] & Hn1 & Hn2) Hsuffix path.
  assert (path = file.Directory w +:+ "/" +:+ name) as Hpath.
  { destruct Hdir as (Hclean & Hdot & Hroot & _). by apply Join_cat. }
  split; [|split].
  - rewrite Hpath. by apply Base_cat.
  - destruct (hands_processExistingFiles env w s) as (evs & Htr & Hsub & _).
    exists evs. split; [exact Htr|]. intros Hin.
    assert (path ∈ CodeSpec.globbed env w) as Hglob.
    { eapply elem_of_sublist; eassumption. }
    destruct (globbed_csv env w path Hdir Hentries Hglob) as (n & _ & Hcsv & Heq).
    rewrite Hpath in Heq. apply (inj _), (inj _) in Heq. subst n.
    by rewrite Hcsv in Hsuffix.
  - intros op event n Hop Htarget Hstable.
    rewrite (handleEvent_dispatches env w event s Hop Htarget Hstable).
    rewrite ProcessFile_trace. cbn [extend trace file.Name event].
    exists (WatcherSpec.cycle path ++ [EvProcessFile path])%list.
    split; [by rewrite app_assoc|]. reflexivity.
Qed.

Lemma startup_sweep_skips_other_extensions_witness :
  let path := "/data/watch/20240101_120000.txt" in
  WatcherSpec.plainDirectory (file.Directory Demo.txtWatcher) ∧
  (∀ n, n ∈ os_ReadDir Demo.inbox (file.Directory Demo.txtWatcher) →
        WatcherSpec.entryName n) ∧
  WatcherSpec.entryName "20240101_120000.txt" ∧
  Go.HasSuffix "20240101_120000.txt" ".csv" = false ∧
  "20240101_120000.txt" ∈ os_ReadDir Demo.inbox (file.Directory Demo.txtWatcher) ∧
  file.filePattern Demo.txtWatcher "20240101_120000.txt" = true ∧
  Go.Join (file.Directory Demo.txtWatcher) "20240101_120000.txt" = path ∧
  (∃ evs,
     trace (state_of (file.processExistingFiles Demo.inbox Demo.txtWatcher
                        processor.NewCSVProcessor)) = ([] ++ evs)%list ∧
     path ∉ WatcherSpec.dispatched evs) ∧
  (∃ evs,
     trace (state_of (file.handleEvent Demo.inbox Demo.txtWatcher
                        {| file.Name := path; file.Op := file.Create |}
                        processor.NewCSVProcessor)) = ([] ++ evs)%list ∧
     WatcherSpec.dispatched evs = [path]).
Proof.
  intros path.
  assert (WatcherSpec.plainDirectory (file.Directory Demo.txtWatcher)) as H1
    by (repeat split; first [discriminate | vm_compute; reflexivity]).
  assert (∀ n, n ∈ os_ReadDir Demo.inbox (file.Directory Demo.txtWatcher) →
               WatcherSpec.entryName n) as H2.
  { intros n Hin. cbn in Hin.
    repeat (apply elem_of_cons in Hin as [->|Hin]);
      [repeat split; first [discriminate | reflexivity]..|].
    by apply elem_of_nil in Hin. }
  assert (WatcherSpec.entryName "20240101_120000.txt") as H3
    by (repeat split; first [discriminate | reflexivity]).
  assert (Go.HasSuffix "20240101_120000.txt" ".csv" = false) as H4
    by (vm_compute; reflexivity).
  split; [exact H1|]. split; [exact H2|]. split; [exact H3|]. split; [exact H4|].
  split; [cbn; apply list_elem_of_further, list_elem_of_here|].
  split; [vm_compute; reflexivity|]. split; [vm_compute; reflexivity|].
  destruct (startup_sweep_skips_other_extensions Demo.inbox Demo.txtWatcher
              "20240101_120000.txt" processor.NewCSVProcessor H1 H2 H3 H4)
    as (_ & Hsweep & Hevent).
  split; [exact Hsweep|].
  apply (Hevent file.Create).
  - vm_compute. reflexivity.
  - vm_compute. reflexivity.
  - eexists _, _. repeat split; vm_compute; reflexivity.
Defined.
